(** * Google Search Console node: paginated fetch, date ranges, row join

    A shallow embedding of the helper functions and of the [execute] method of
    [src/nodes/GoogleSearchConsole/GoogleSearchConsole.node.ts], together with
    the part of the JavaScript [Date] built-in those helpers call.

    Conventions.
    - JavaScript numbers that hold counts, offsets and time values are
      integers well inside the exact range of a double; they are modelled as
      [Z].  A number that may be [NaN] is an [option Z] with [None] for [NaN].
      The four row metrics are kept as binary64 floats ([PrimFloat.float]).
    - A string is the sequence of the bytes of its UTF-8 encoding (a string
      with a lone surrogate has none and is left out);
      [string | undefined] is [option string].
    - A function that may throw returns a [Completion].
    - The local time zone of the host is a parameter, the function
      [LocalTZA] of ECMA-262.
    - The remote service is a deterministic machine over an abstract world;
      [await] is sequencing. *)

From Equations Require Import Equations.
From Stdlib Require Import ZArith List String Ascii Bool Lia PrimFloat.
From Stdlib Require Import Permutation Sorted.
Import ListNotations.
Open Scope string_scope.
Open Scope list_scope.
Open Scope Z_scope.

(** ** Abrupt completions *)

Inductive JsError : Type :=
| RangeError (msg : string)
| NodeOperationError (msg : string)
| RequestError (msg : string).

Definition errorMessage (e : JsError) : string :=
  match e with
  | RangeError m => m
  | NodeOperationError m => m
  | RequestError m => m
  end.

Inductive Completion (A : Type) : Type :=
| Normal (a : A)
| Throw (e : JsError).
Arguments Normal {A} a.
Arguments Throw {A} e.

Definition bindC {A B : Type} (c : Completion A) (k : A -> Completion B)
  : Completion B :=
  match c with
  | Normal a => k a
  | Throw e => Throw e
  end.

Notation "x <- c ;; k" := (bindC c (fun x => k))
  (at level 61, c at next level, right associativity).

(** ** The [Date] built-in (ECMA-262, section "Date Objects") *)

Module JsDate.

Definition msPerDay : Z := 86400000.

Definition Day (t : Z) : Z := t / msPerDay.
Definition TimeWithinDay (t : Z) : Z := t mod msPerDay.

Definition InLeapYear (y : Z) : bool :=
  (y mod 4 =? 0) && (negb (y mod 100 =? 0) || (y mod 400 =? 0)).

Definition leapDays (y : Z) : Z := if InLeapYear y then 1 else 0.

Definition DaysInYear (y : Z) : Z := 365 + leapDays y.

Definition DayFromYear (y : Z) : Z :=
  365 * (y - 1970) + (y - 1969) / 4 - (y - 1901) / 100 + (y - 1601) / 400.

(** The largest year whose first day is not after day [d]: an estimate from
    the mean year length, corrected by at most one year either way. *)
Definition YearFromDay (d : Z) : Z :=
  let y := 1970 + d * 400 / 146097 in
  if d <? DayFromYear y then y - 1
  else if DayFromYear (y + 1) <=? d then y + 1
  else y.

(** Day number within the year of the first day of month [m] (0 = January). *)
Definition monthStart (leap : Z) (m : Z) : Z :=
  match m with
  | 0 => 0
  | 1 => 31
  | 2 => 59 + leap
  | 3 => 90 + leap
  | 4 => 120 + leap
  | 5 => 151 + leap
  | 6 => 181 + leap
  | 7 => 212 + leap
  | 8 => 243 + leap
  | 9 => 273 + leap
  | 10 => 304 + leap
  | _ => 334 + leap
  end.

Definition daysInMonth (leap : Z) (m : Z) : Z :=
  match m with
  | 1 => 28 + leap
  | 3 | 5 | 8 | 10 => 30
  | _ => 31
  end.

Definition monthOfYearDay (leap : Z) (n : Z) : Z :=
  if n <? 31 then 0
  else if n <? 59 + leap then 1
  else if n <? 90 + leap then 2
  else if n <? 120 + leap then 3
  else if n <? 151 + leap then 4
  else if n <? 181 + leap then 5
  else if n <? 212 + leap then 6
  else if n <? 243 + leap then 7
  else if n <? 273 + leap then 8
  else if n <? 304 + leap then 9
  else if n <? 334 + leap then 10
  else 11.

Definition DayWithinYear (d : Z) : Z := d - DayFromYear (YearFromDay d).
Definition MonthFromDay (d : Z) : Z :=
  monthOfYearDay (leapDays (YearFromDay d)) (DayWithinYear d).
Definition DateFromDay (d : Z) : Z :=
  DayWithinYear d - monthStart (leapDays (YearFromDay d)) (MonthFromDay d) + 1.

Definition YearFromTime (t : Z) : Z := YearFromDay (Day t).
Definition MonthFromTime (t : Z) : Z := MonthFromDay (Day t).
Definition DateFromTime (t : Z) : Z := DateFromDay (Day t).

Definition HourFromTime (t : Z) : Z := (t / 3600000) mod 24.
Definition MinFromTime (t : Z) : Z := (t / 60000) mod 60.
Definition SecFromTime (t : Z) : Z := (t / 1000) mod 60.
Definition msFromTime (t : Z) : Z := t mod 1000.

(** [MakeDay]: month and date may lie outside their calendar ranges and
    carry over into neighbouring months and years. *)
Definition MakeDay (year month date : Z) : Z :=
  let ym := year + month / 12 in
  let mn := month mod 12 in
  DayFromYear ym + monthStart (leapDays ym) mn + date - 1.

Definition MakeTime (h m s ms : Z) : Z := h * 3600000 + m * 60000 + s * 1000 + ms.
Definition MakeDate (day time : Z) : Z := day * msPerDay + time.

Definition TimeClip (t : Z) : option Z :=
  if Z.abs t <=? 8640000000000000 then Some t else None.

(** *** Text of a time value *)

Definition digitChar (d : Z) : ascii := ascii_of_nat (48 + Z.to_nat d).

Definition digitVal (c : ascii) : option Z :=
  let n := Z.of_nat (nat_of_ascii c) in
  if (48 <=? n) && (n <=? 57) then Some (n - 48) else None.

(** [n] decimal digits of [z], least significant last, in front of [rest]. *)
Fixpoint padDigits (n : nat) (z : Z) (rest : string) : string :=
  match n with
  | O => rest
  | S k => padDigits k (z / 10) (String (digitChar (z mod 10)) rest)
  end.

Definition isoYear (y : Z) (rest : string) : string :=
  if (0 <=? y) && (y <=? 9999) then padDigits 4 y rest
  else String (if y <? 0 then "-"%char else "+"%char) (padDigits 6 (Z.abs y) rest).

Definition isoDate (y m d : Z) (rest : string) : string :=
  isoYear y (String "-" (padDigits 2 m (String "-" (padDigits 2 d rest)))).

Definition isoClock (t : Z) : string :=
  padDigits 2 (HourFromTime t) (String ":" (padDigits 2 (MinFromTime t)
    (String ":" (padDigits 2 (SecFromTime t)
      (String "." (padDigits 3 (msFromTime t) "Z")))))).

(** [Date.prototype.toISOString] on a valid date. *)
Definition isoString (t : Z) : string :=
  isoDate (YearFromTime t) (MonthFromTime t + 1) (DateFromTime t)
    (String "T" (isoClock t)).

(** The calendar day [d] (days since 1970-01-01) as [YYYY-MM-DD]. *)
Definition isoDay (d : Z) : string :=
  isoDate (YearFromDay d) (MonthFromDay d + 1) (DateFromDay d) "".

(** *** Reading the two forms the node itself produces *)

Definition num2 (a b : ascii) : option Z :=
  match digitVal a, digitVal b with
  | Some x, Some y => Some (10 * x + y)
  | _, _ => None
  end.

Definition num3 (a b c : ascii) : option Z :=
  match digitVal a, num2 b c with
  | Some x, Some y => Some (100 * x + y)
  | _, _ => None
  end.

Definition num4 (a b c d : ascii) : option Z :=
  match num2 a b, num2 c d with
  | Some x, Some y => Some (100 * x + y)
  | _, _ => None
  end.

(** [HH:mm:ss.sssZ], the time of day in milliseconds. *)
Definition parseClock (s : string) : option Z :=
  match s with
  | String h1 (String h2 (String c1 (String m1 (String m2 (String c2
      (String s1 (String s2 (String c3 (String f1 (String f2 (String f3
        (String z EmptyString)))))))))))) =>
    if (c1 =? ":")%char && (c2 =? ":")%char && (c3 =? ".")%char && (z =? "Z")%char
    then
      match num2 h1 h2, num2 m1 m2, num2 s1 s2, num3 f1 f2 f3 with
      | Some h, Some m, Some sec, Some ms =>
        if (h <=? 23) && (m <=? 59) && (sec <=? 59)
        then Some (MakeTime h m sec ms) else None
      | _, _, _, _ => None
      end
    else None
  | _ => None
  end.

(** [YYYY-MM-DD] alone is midnight UTC; followed by [THH:mm:ss.sssZ] it is
    that UTC instant.  [None] here means "not one of these two forms". *)
Definition parseIso (s : string) : option Z :=
  match s with
  | String y1 (String y2 (String y3 (String y4 (String c1 (String m1 (String m2
      (String c2 (String d1 (String d2 rest))))))))) =>
    if (c1 =? "-")%char && (c2 =? "-")%char then
      match num4 y1 y2 y3 y4, num2 m1 m2, num2 d1 d2 with
      | Some y, Some m, Some d =>
        if (1 <=? m) && (m <=? 12) && (1 <=? d)
           && (d <=? daysInMonth (leapDays y) (m - 1))
        then
          match rest with
          | EmptyString => Some (MakeDate (MakeDay y (m - 1) d) 0)
          | String t clock =>
            if (t =? "T")%char then
              match parseClock clock with
              | Some ms => Some (MakeDate (MakeDay y (m - 1) d) ms)
              | None => None
              end
            else None
          end
        else None
      | _, _, _ => None
      end
    else None
  | _ => None
  end.

(** *** The host: time zone and the rest of [Date.parse]

    [LocalTZA t isUTC] is the local time zone adjustment in milliseconds:
    the offset in force at the UTC instant [t] when [isUTC] is [true], and
    the offset by which the local time value [t] is read back when it is
    [false].  [otherParse] answers for every string that is not a
    calendar-valid [YYYY-MM-DD] or [YYYY-MM-DDTHH:mm:ss.sssZ]: the remaining
    forms of the standard format and whatever else the engine accepts;
    [None] is [NaN]. *)
Section Host.

Variable LocalTZA : Z -> bool -> Z.
Variable otherParse : string -> option Z.

(** A [Date] object is its time value; [None] is an invalid date. *)
Definition Date : Type := option Z.

Definition parse (s : string) : option Z :=
  match parseIso s with
  | Some t => TimeClip t
  | None => otherParse s
  end.

(** [new Date(string)] and [new Date(number)]. *)
Definition ofString (s : string) : Date := parse s.
Definition ofNumber (v : option Z) : Date :=
  match v with Some t => TimeClip t | None => None end.

Definition getTime (d : Date) : option Z := d.

Definition LocalTime (t : Z) : Z := t + LocalTZA t true.
Definition UTC (t : Z) : Z := t - LocalTZA t false.

Definition getFullYear (d : Date) : option Z :=
  option_map (fun t => YearFromTime (LocalTime t)) d.
Definition getMonth (d : Date) : option Z :=
  option_map (fun t => MonthFromTime (LocalTime t)) d.
Definition getDate (d : Date) : option Z :=
  option_map (fun t => DateFromTime (LocalTime t)) d.

Definition setDate (d : Date) (date : option Z) : Date :=
  match d, date with
  | Some t0, Some dt =>
    let t := LocalTime t0 in
    TimeClip (UTC (MakeDate (MakeDay (YearFromTime t) (MonthFromTime t) dt)
                            (TimeWithinDay t)))
  | _, _ => None
  end.

Definition setMonth (d : Date) (month : option Z) : Date :=
  match d, month with
  | Some t0, Some m =>
    let t := LocalTime t0 in
    TimeClip (UTC (MakeDate (MakeDay (YearFromTime t) m (DateFromTime t))
                            (TimeWithinDay t)))
  | _, _ => None
  end.

(** An invalid date is first reset to time value [+0] (not shifted to local
    time); a [NaN] year leaves the date invalid. *)
Definition setFullYear (d : Date) (year : option Z) : Date :=
  match year with
  | Some y =>
    let t := match d with Some t0 => LocalTime t0 | None => 0 end in
    TimeClip (UTC (MakeDate (MakeDay y (MonthFromTime t) (DateFromTime t))
                            (TimeWithinDay t)))
  | None => None
  end.

(** [Date.UTC(year, month, date)]: a year from 0 to 99 means 1900 + year. *)
Definition Date_UTC (year month date : option Z) : option Z :=
  match year, month, date with
  | Some y, Some m, Some dt =>
    let yr := if (0 <=? y) && (y <=? 99) then 1900 + y else y in
    TimeClip (MakeDate (MakeDay yr m dt) (MakeTime 0 0 0 0))
  | _, _, _ => None
  end.

Definition toISOString (d : Date) : Completion string :=
  match d with
  | Some t => Normal (isoString t)
  | None => Throw (RangeError "Invalid time value")
  end.

End Host.

End JsDate.

(** ** Date helpers of the node *)

Record DateRange : Type := { startDate : string; endDate : string }.

(** [customB] of [buildCompareRanges]. *)
Record CustomRange : Type := {
  cb_mode : option string;
  cb_start : option string;
  cb_end : option string
}.

(** JavaScript truthiness of [string | undefined]. *)
Definition truthy (s : option string) : bool :=
  match s with
  | Some (String _ _) => true
  | _ => false
  end.

(** [s.split(sep)[0]] for a one-character separator: the text in front of
    its first occurrence, or all of [s]. *)
Fixpoint splitHead (sep : ascii) (s : string) : string :=
  match s with
  | EmptyString => EmptyString
  | String c r => if (c =? sep)%char then EmptyString else String c (splitHead sep r)
  end.

Definition msPer28Days : Z := 28 * 86400000.

Section DateHelpers.

Variable zone : Z -> bool -> Z.
Variable otherParse : string -> option Z.

Definition toGscDate (d : option string) : string :=
  match d with
  | Some (String c r) =>
    match JsDate.ofString otherParse (String c r) with
    | Some t => splitHead "T" (JsDate.isoString t)
    | None => ""
    end
  | _ => ""
  end.

(** [now] is the time value [new Date()] reads from the clock. *)
Definition defaultedRange (now : Z) (start end_ : option string)
  : Completion DateRange :=
  let endDt : JsDate.Date :=
    match end_ with
    | Some (String c r) => JsDate.ofString otherParse (String c r)
    | _ => Some now
    end in
  let startDt : JsDate.Date :=
    match start with
    | Some (String c r) => JsDate.ofString otherParse (String c r)
    | _ => JsDate.ofNumber (option_map (fun t => t - msPer28Days) (JsDate.getTime endDt))
    end in
  s <- match start with
       | Some s => Normal s
       | None => JsDate.toISOString startDt
       end ;;
  let startDate := toGscDate (Some s) in
  e <- match end_ with
       | Some e => Normal e
       | None => JsDate.toISOString endDt
       end ;;
  Normal {| startDate := startDate; endDate := toGscDate (Some e) |}.

(** [customEnd ? new Date(customEnd) : new Date()] *)
Definition presetEnd (now : Z) (customEnd : option string) : JsDate.Date :=
  match customEnd with
  | Some (String c r) => JsDate.ofString otherParse (String c r)
  | _ => Some now
  end.

(** The source also computes a [start] date here that it never reads. *)
Definition rangeFromPreset (now : Z) (mode : string)
    (customStart customEnd : option string) : Completion DateRange :=
  let end_ := presetEnd now customEnd in
  if negb (mode =? "custom")%string then
    let e := end_ in
    let s := end_ in
    let s :=
      if (mode =? "last7d")%string then
        JsDate.setDate zone s (option_map (fun d => d - 7) (JsDate.getDate zone e))
      else if (mode =? "last28d")%string then
        JsDate.setDate zone s (option_map (fun d => d - 28) (JsDate.getDate zone e))
      else if (mode =? "last3mo")%string then
        JsDate.setMonth zone s (option_map (fun m => m - 3) (JsDate.getMonth zone e))
      else if (mode =? "last12mo")%string then
        JsDate.setMonth zone s (option_map (fun m => m - 12) (JsDate.getMonth zone e))
      else
        JsDate.setDate zone s (option_map (fun d => d - 28) (JsDate.getDate zone e)) in
    si <- JsDate.toISOString s ;;
    let startDate := toGscDate (Some si) in
    ei <- JsDate.toISOString e ;;
    Normal {| startDate := startDate; endDate := toGscDate (Some ei) |}
  else defaultedRange now customStart customEnd.

(** [NaN] when either string is not a date. *)
Definition daysInclusive (a b : string) : option Z :=
  let start := JsDate.ofString otherParse a in
  let end_ := JsDate.ofString otherParse b in
  let msPerDay := 24 * 60 * 60 * 1000 in
  let startUTC := JsDate.Date_UTC (JsDate.getFullYear zone start)
                    (JsDate.getMonth zone start) (JsDate.getDate zone start) in
  let endUTC := JsDate.Date_UTC (JsDate.getFullYear zone end_)
                  (JsDate.getMonth zone end_) (JsDate.getDate zone end_) in
  match endUTC, startUTC with
  | Some e, Some s => Some ((e - s) / msPerDay + 1)
  | _, _ => None
  end.

Definition shiftDays (iso : string) (days : option Z) : Completion string :=
  let d := JsDate.ofString otherParse iso in
  let d := JsDate.setDate zone d
             (match JsDate.getDate zone d, days with
              | Some x, Some n => Some (x + n)
              | _, _ => None
              end) in
  s <- JsDate.toISOString d ;;
  Normal (toGscDate (Some s)).

Definition shiftYears (iso : string) (years : option Z) : Completion string :=
  let d := JsDate.ofString otherParse iso in
  let d := JsDate.setFullYear zone d
             (match JsDate.getFullYear zone d, years with
              | Some x, Some n => Some (x + n)
              | _, _ => None
              end) in
  s <- JsDate.toISOString d ;;
  Normal (toGscDate (Some s)).

(** The result pairs [rangeA] (returned unchanged) with [rangeB]. *)
Definition buildCompareRanges (now : Z) (mode : string) (rangeA : DateRange)
    (customB : option CustomRange) : Completion (DateRange * DateRange) :=
  if (mode =? "prevPeriod")%string then
    let dur := daysInclusive (startDate rangeA) (endDate rangeA) in
    endB <- shiftDays (startDate rangeA) (Some (-1)) ;;
    startB <- shiftDays endB (option_map (fun n => - (n - 1)) dur) ;;
    Normal (rangeA, {| startDate := startB; endDate := endB |})
  else if (mode =? "prevYear")%string then
    startB <- shiftYears (startDate rangeA) (Some (-1)) ;;
    endB <- shiftYears (endDate rangeA) (Some (-1)) ;;
    Normal (rangeA, {| startDate := startB; endDate := endB |})
  else
    let presetB :=
      match customB with
      | Some c => if truthy (cb_mode c)
                  then match cb_mode c with Some m => m | None => "last28d" end
                  else "last28d"
      | None => "last28d"
      end in
    r <- rangeFromPreset now presetB
           (match customB with Some c => cb_start c | None => None end)
           (match customB with Some c => cb_end c | None => None end) ;;
    Normal (rangeA, {| startDate := startDate r; endDate := endDate r |}).

End DateHelpers.

(** ** Hosts *)

(** An engine for which only the two ISO forms above are dates. *)
Definition noOtherDates : string -> option Z := fun _ => None.

(** A zone with the constant offset [tz] from UTC, in milliseconds. *)
Definition fixedZone (tz : Z) : Z -> bool -> Z := fun _ _ => tz.

Definition utc : Z -> bool -> Z := fixedZone 0.

(** The rules of America/New_York for 2024: five hours behind UTC, four
    from 2024-03-10T07:00Z to 2024-11-03T06:00Z.  A local time value is
    read with daylight time from 03:00 on March 10 to 02:00 on November 3
    of the local clock, and with standard time otherwise. *)
Definition newYork2024 : Z -> bool -> Z :=
  fun t isUTC =>
    if isUTC then
      if (1710054000000 <=? t) && (t <? 1730613600000) then -14400000 else -18000000
    else
      if (1710039600000 <=? t) && (t <? 1730599200000) then -14400000 else -18000000.

(** ** Rows, requests and JSON values *)

Record GscQueryRow : Type := {
  keys : option (list string);
  clicks : float;
  impressions : float;
  ctr : float;
  position : float
}.

Record DimensionFilter : Type := {
  f_dimension : string;
  f_operator : string;
  f_expression : string
}.

Record FilterGroup : Type := {
  groupType : string;
  filters : list DimensionFilter
}.

(** The request body of a search-analytics query; [q_rowLimit] is absent in
    the bodies built for a comparison. *)
Record QueryBody : Type := {
  q_dimensionFilterGroups : option (list FilterGroup);
  q_startDate : string;
  q_endDate : string;
  q_dimensions : list string;
  q_rowLimit : option Z;
  q_searchType : string
}.

Inductive JsValue : Type :=
| VUndefined
| VString (s : string)
| VNumber (x : float)
| VRange (r : DateRange).

(** A plain object: its own properties in the order in which they are
    listed ([OrdinaryOwnPropertyKeys] of ECMA-262): the array indices in
    ascending order, then the other names in the order of their creation. *)
Definition JsObject : Type := list (string * JsValue).

(** [o[k]] on an own property. *)
Fixpoint getProp (o : JsObject) (k : string) : option JsValue :=
  match o with
  | [] => None
  | (k', v') :: r => if (k' =? k)%string then Some v' else getProp r k
  end.

(** The value of a string of decimal digits, read after [acc]. *)
Fixpoint numeral (s : string) (acc : Z) : option Z :=
  match s with
  | EmptyString => Some acc
  | String c r =>
    let n := Z.of_nat (nat_of_ascii c) in
    if (48 <=? n) && (n <=? 57) then numeral r (10 * acc + (n - 48)) else None
  end.

(** The array index a property name stands for: the name is the canonical
    numeral of an integer from 0 to 2^32 - 2. *)
Definition arrayIndex (k : string) : option Z :=
  match k with
  | EmptyString => None
  | String "0" EmptyString => Some 0
  | String "0" _ => None
  | _ =>
    match numeral k 0 with
    | Some n => if n <=? 4294967294 then Some n else None
    | None => None
    end
  end.

(** Is a new property [k] listed before the property [k']? *)
Definition listedBefore (k k' : string) : bool :=
  match arrayIndex k, arrayIndex k' with
  | Some n, Some n' => n <? n'
  | Some _, None => true
  | None, _ => false
  end.

Fixpoint replaceProp (o : JsObject) (k : string) (v : JsValue) : JsObject :=
  match o with
  | [] => []
  | (k', v') :: r =>
    if (k' =? k)%string then (k', v) :: r else (k', v') :: replaceProp r k v
  end.

Fixpoint insertProp (o : JsObject) (k : string) (v : JsValue) : JsObject :=
  match o with
  | [] => [(k, v)]
  | (k', v') :: r =>
    if listedBefore k k' then (k, v) :: (k', v') :: r else (k', v') :: insertProp r k v
  end.

(** [o[k] = v] on an object made by [{}]: a property that exists keeps its
    place and takes the value, a new one is put where it is listed.  The
    name [__proto__] is the accessor of [Object.prototype], whose setter
    leaves the own properties as they are. *)
Definition setProp (o : JsObject) (k : string) (v : JsValue) : JsObject :=
  if (k =? "__proto__")%string then o
  else
    match getProp o k with
    | Some _ => replaceProp o k v
    | None => insertProp o k v
    end.

Inductive Request : Type :=
| ListSites
| SearchAnalyticsQuery (siteUrl : string) (body : QueryBody) (startRow : Z)
| InspectUrl (inspectionUrl siteUrl : string) (languageCode : option string).

(** The parsed response; a field is [None] when it is absent or not of the
    expected shape. *)
Record Response : Type := {
  rows : option (list GscQueryRow);
  siteEntry : option (list JsObject);
  inspectionResult : option JsObject
}.

Definition len {A : Type} (l : list A) : Z := Z.of_nat (List.length l).

(** [l.slice(0, n)]: a negative [n] counts from the end. *)
Definition slice0 {A : Type} (l : list A) (n : Z) : list A :=
  if 0 <=? n then firstn (Z.to_nat n) l else firstn (Z.to_nat (len l + n)) l.

Definition perRequestOf (body : QueryBody) : Z :=
  Z.max 100 (Z.min (match q_rowLimit body with Some n => n | None => 1000 end) 25000).

Definition pageBody (body : QueryBody) (perRequest : Z) : QueryBody :=
  {| q_dimensionFilterGroups := q_dimensionFilterGroups body;
     q_startDate := q_startDate body;
     q_endDate := q_endDate body;
     q_dimensions := q_dimensions body;
     q_rowLimit := Some perRequest;
     q_searchType := q_searchType body |}.

(** The request for the page that starts at [startRow]:
    [{ ...body, rowLimit: perRequest, startRow }]. *)
Definition pageRequest (siteUrl : string) (body : QueryBody) (perRequest startRow : Z)
  : Request :=
  SearchAnalyticsQuery siteUrl (pageBody body perRequest) startRow.

Definition chunkOf (resp : Response) : list GscQueryRow :=
  match rows resp with
  | Some l => l
  | None => []
  end.

(** ** The paginated fetch *)

Section Fetch.

(** The remote service and the credentials helper, as a deterministic
    machine: a request answers with a response or an error and moves the
    world on. *)
Variable World : Type.
Variable httpRequestWithAuthentication : World -> Request -> Completion Response * World.

Section Loop.

(** What the loop does not change. *)
Variable siteUrl : string.
Variable body : QueryBody.
Variable targetLimit : Z.
Variable perRequest : Z.

(** The [while] loop of [fetchAllRows], entered with the rows collected so
    far and the next offset.  It recurses only after a non-empty page, with
    [rows.length] still below [targetLimit]. *)
Equations? fetchLoop (w : World) (collected : list GscQueryRow) (startRow : Z)
  : Completion (list GscQueryRow) * World
  by wf (Z.to_nat (targetLimit - len collected)) lt :=
fetchLoop w collected startRow with Z_lt_dec (len collected) targetLimit := {
  | right _ => (Normal collected, w)
  | left _
    with httpRequestWithAuthentication w
           (pageRequest siteUrl body perRequest startRow) := {
    | (Throw e, w') => (Throw e, w')
    | (Normal resp, w') with chunkOf resp := {
      | [] => (Normal collected, w')
      | c :: cs =>
        let chunk := c :: cs in
        let collected' := collected ++ chunk in
        let startRow' := startRow + len chunk in
        if len chunk <? perRequest then (Normal collected', w')
        else if targetLimit <=? len collected' then (Normal collected', w')
        else fetchLoop w' collected' startRow' } } }.
Proof.
  subst collected' chunk. unfold len in *. rewrite List.length_app. simpl. lia.
Qed.

End Loop.

Definition fetchAllRows (w : World) (siteUrl : string) (body : QueryBody)
    (targetLimit : Z) : Completion (list GscQueryRow) * World :=
  let perRequest := perRequestOf body in
  match fetchLoop siteUrl body targetLimit perRequest w [] 0 with
  | (Normal collected, w') => (Normal (slice0 collected targetLimit), w')
  | (Throw e, w') => (Throw e, w')
  end.

End Fetch.

(** ** Row keys and the key-to-row maps *)

(** [row.keys ?? []] *)
Definition keyTuple (row : GscQueryRow) : list string :=
  match keys row with Some k => k | None => [] end.

Definition keyFromRow (dimensions : list string) (row : GscQueryRow) : string :=
  String.concat "||" (keyTuple row).

(** A JavaScript [Map] with string keys: entries in insertion order; [set]
    on a key that is present replaces the value and keeps the position. *)
Definition JsMap (V : Type) : Type := list (string * V).

Fixpoint mapSet {V : Type} (m : JsMap V) (k : string) (v : V) : JsMap V :=
  match m with
  | [] => [(k, v)]
  | (k', v') :: r =>
    if (k' =? k)%string then (k', v) :: r else (k', v') :: mapSet r k v
  end.

Fixpoint mapGet {V : Type} (m : JsMap V) (k : string) : option V :=
  match m with
  | [] => None
  | (k', v') :: r => if (k' =? k)%string then Some v' else mapGet r k
  end.

Definition mapKeys {V : Type} (m : JsMap V) : list string := map fst m.

(** A JavaScript [Set] of strings, in insertion order. *)
Fixpoint setAdd (s : list string) (k : string) : list string :=
  match s with
  | [] => [k]
  | x :: r => if (x =? k)%string then x :: r else x :: setAdd r k
  end.

Definition newSet (l : list string) : list string := fold_left setAdd l [].

Definition rowsToMap (rs : list GscQueryRow) (dims : list string) : JsMap GscQueryRow :=
  fold_left (fun m r => mapSet m (keyFromRow dims r) r) rs [].

(** ** Output records *)

Definition mapRow (dimensions : list string) (row : GscQueryRow) : JsObject :=
  let obj :=
    match keys row with
    | Some ks =>
      fst (fold_left
             (fun (acc : JsObject * nat) d =>
                (setProp (fst acc) d
                   (match nth_error ks (snd acc) with
                    | Some v => VString v
                    | None => VUndefined
                    end),
                 S (snd acc)))
             dimensions ([], O))
    | None => []
    end in
  let obj := setProp obj "clicks" (VNumber (clicks row)) in
  let obj := setProp obj "impressions" (VNumber (impressions row)) in
  let obj := setProp obj "ctr" (VNumber (ctr row)) in
  setProp obj "position" (VNumber (position row)).

Definition emptyFrom (ks : option (list string)) : GscQueryRow :=
  {| keys := Some (match ks with Some k => k | None => [] end);
     clicks := 0; impressions := 0; ctr := 0; position := 0 |}.

Definition keysOf (r : option GscQueryRow) : option (list string) :=
  match r with Some x => keys x | None => None end.

Definition orElse {A : Type} (a b : option A) : option A :=
  match a with Some _ => a | None => b end.

(** [out[dims[idx]] = v] for the values from position [idx] on; a position
    past the end of [dims] names the property ["undefined"]. *)
Fixpoint setDimensions (dims : list string) (idx : nat) (vals : list string)
    (out : JsObject) : JsObject :=
  match vals with
  | [] => out
  | v :: r =>
    setDimensions dims (S idx) r
      (setProp out (match nth_error dims idx with Some d => d | None => "undefined" end)
               (VString v))
  end.

(** The two sides joined under key [k]: the row of each map, or a zero row
    carrying the other side's dimension values. *)
Definition sideA (mapA mapB : JsMap GscQueryRow) (k : string) : GscQueryRow :=
  let ra := mapGet mapA k in
  let rb := mapGet mapB k in
  match ra with Some r => r | None => emptyFrom (orElse (keysOf ra) (keysOf rb)) end.

Definition sideB (mapA mapB : JsMap GscQueryRow) (k : string) : GscQueryRow :=
  let ra := mapGet mapA k in
  let rb := mapGet mapB k in
  match rb with Some r => r | None => emptyFrom (orElse (keysOf rb) (keysOf ra)) end.

(** [valsA.keys ?? valsB.keys ?? []] *)
Definition recordKeys (valsA valsB : GscQueryRow) : list string :=
  match orElse (keys valsA) (keys valsB) with Some ks => ks | None => [] end.

(** The body of the loop over [allKeys] in [comparePageInsights]. *)
Definition comparisonRecord (dims : list string) (rangeA rangeB : DateRange)
    (compareMode : string) (mapA mapB : JsMap GscQueryRow) (k : string) : JsObject :=
  let valsA := sideA mapA mapB k in
  let valsB := sideB mapA mapB k in
  let out : JsObject := [] in
  let out := setDimensions dims O (recordKeys valsA valsB) out in
  let out := setProp out "clicks_a" (VNumber (clicks valsA)) in
  let out := setProp out "clicks_b" (VNumber (clicks valsB)) in
  let out := setProp out "clicks_diff" (VNumber (clicks valsA - clicks valsB)) in
  let out := setProp out "impr_a" (VNumber (impressions valsA)) in
  let out := setProp out "impr_b" (VNumber (impressions valsB)) in
  let out := setProp out "impr_diff" (VNumber (impressions valsA - impressions valsB)) in
  let out := setProp out "ctr_a" (VNumber (ctr valsA)) in
  let out := setProp out "ctr_b" (VNumber (ctr valsB)) in
  let out := setProp out "ctr_diff" (VNumber (ctr valsA - ctr valsB)) in
  let out := setProp out "pos_a" (VNumber (position valsA)) in
  let out := setProp out "pos_b" (VNumber (position valsB)) in
  let out := setProp out "pos_diff" (VNumber (position valsA - position valsB)) in
  let out := setProp out "range_a" (VRange rangeA) in
  let out := setProp out "range_b" (VRange rangeB) in
  setProp out "compare_mode" (VString compareMode).

(** The join of [comparePageInsights]: one record per key of the union, in
    the order of the [Set]. *)
Definition joinRows (dims : list string) (rangeA rangeB : DateRange)
    (compareMode : string) (rowsA rowsB : list GscQueryRow) : list JsObject :=
  let mapA := rowsToMap rowsA dims in
  let mapB := rowsToMap rowsB dims in
  let allKeys := newSet (mapKeys mapA ++ mapKeys mapB) in
  map (comparisonRecord dims rangeA rangeB compareMode mapA mapB) allKeys.

(** ** White space *)

Definition byte (n : Z) : ascii := ascii_of_N (Z.to_N n).

(** The UTF-8 bytes of the code point [cp]. *)
Definition utf8 (cp : Z) : string :=
  if cp <? 0x80 then String (byte cp) ""
  else if cp <? 0x800 then
    String (byte (0xC0 + cp / 0x40)) (String (byte (0x80 + cp mod 0x40)) "")
  else if cp <? 0x10000 then
    String (byte (0xE0 + cp / 0x1000))
      (String (byte (0x80 + cp / 0x40 mod 0x40)) (String (byte (0x80 + cp mod 0x40)) ""))
  else
    String (byte (0xF0 + cp / 0x40000))
      (String (byte (0x80 + cp / 0x1000 mod 0x40))
         (String (byte (0x80 + cp / 0x40 mod 0x40)) (String (byte (0x80 + cp mod 0x40)) ""))).

(** The characters [String.prototype.trim] strips: WhiteSpace of ECMA-262
    (tab, vertical tab, form feed, the byte order mark and the space
    separators of Unicode) and LineTerminator. *)
Definition whiteSpace : list string :=
  map utf8
    [0x9; 0xB; 0xC; 0xFEFF;
     0x20; 0xA0; 0x1680; 0x2000; 0x2001; 0x2002; 0x2003; 0x2004; 0x2005; 0x2006;
     0x2007; 0x2008; 0x2009; 0x200A; 0x202F; 0x205F; 0x3000;
     0xA; 0xD; 0x2028; 0x2029].

(** [s] without [p] at its start, when it starts with [p]. *)
Fixpoint stripPrefix (p s : string) : option string :=
  match p with
  | EmptyString => Some s
  | String a p' =>
    match s with
    | String b s' => if (a =? b)%char then stripPrefix p' s' else None
    | EmptyString => None
    end
  end.

Fixpoint stripAny (ps : list string) (s : string) : option string :=
  match ps with
  | [] => None
  | p :: r =>
    match stripPrefix p s with
    | Some t => Some t
    | None => stripAny r s
    end
  end.

(** [s] without the white-space character it starts with. *)
Definition skipSpace (s : string) : option string := stripAny whiteSpace s.

(** At most [n] white-space characters stripped from the start. *)
Fixpoint trimStartN (n : nat) (s : string) : string :=
  match n with
  | O => s
  | S k =>
    match skipSpace s with
    | Some r => trimStartN k r
    | None => s
    end
  end.

(** [String.prototype.trimStart]; a string has no more characters than
    bytes. *)
Definition trimStart (s : string) : string := trimStartN (String.length s) s.

(** [String.prototype.trimEnd]: the string up to its longest end that is
    white space only. *)
Fixpoint trimEnd (s : string) : string :=
  match s with
  | EmptyString => EmptyString
  | String c r =>
    match trimStart (String c r) with
    | EmptyString => EmptyString
    | _ => String c (trimEnd r)
    end
  end.

(** [String.prototype.trim] *)
Definition trim (s : string) : string := trimEnd (trimStart s).

(** ** [validateSiteUrlOrThrow] *)

Definition validateSiteUrlOrThrow (siteUrl : string) (context : string)
  : Completion string :=
  let trimmed := trim siteUrl in
  if (trimmed =? "")%string || (trimmed =? "__NO_SITES__")%string then
    Throw (NodeOperationError ("No site selected for " ++ context ++ "."))
  else if negb (prefix "http://" trimmed || prefix "https://" trimmed)
          && negb (prefix "sc-domain:" trimmed) then
    Throw (NodeOperationError
      "Site URL must start with http(s):// or sc-domain:. Example: https://example.com/ or sc-domain:example.com")
  else Normal trimmed.

(** ** [execute] *)

(** The parameters [getNodeParameter] yields for one input item, after the
    defaults given at the call.  [p_dimensionFilterGroups] stands for the
    groups [execute] builds from the ['filters.filter'] collection. *)
Record ItemParams : Type := {
  p_operation : string;
  p_continueOnFail : bool;
  p_dimensionFilterGroups : list FilterGroup;
  (* getPageInsights *)
  p_siteUrlMode : string;
  p_siteUrlManual : string;
  p_siteUrl : string;
  p_dateRangeMode : string;
  p_startDate : string;
  p_endDate : string;
  p_rowLimit : Z;
  p_searchType : string;
  p_dimensions : list string;
  (* inspectUrl *)
  p_inspectSiteUrlMode : string;
  p_inspectSiteUrlManual : string;
  p_inspectSiteUrl : string;
  p_inspectionUrl : string;
  p_languageCode : string;
  (* comparePageInsights *)
  p_siteUrlModeCompare : string;
  p_siteUrlCompareManual : string;
  p_siteUrlCompare : string;
  p_dimensionsCompare : list string;
  p_dateRangeModeA : string;
  p_startDateA : string;
  p_endDateA : string;
  p_compareMode : string;
  p_dateRangeModeB : string;
  p_startDateB : string;
  p_endDateB : string;
  p_rowLimitCompare : Z;
  p_searchTypeCompare : string
}.

Record ExecutionData : Type := { json : JsObject; pairedItem : nat }.

(** [s || d] on strings. *)
Definition orString (s d : string) : string :=
  match s with EmptyString => d | _ => s end.

Definition filterGroupsField (gs : list FilterGroup) : option (list FilterGroup) :=
  match gs with [] => None | _ => Some gs end.

(** The request bodies the two query operations build. *)
Definition insightsBody (p : ItemParams) (range : DateRange) : QueryBody :=
  {| q_dimensionFilterGroups := filterGroupsField (p_dimensionFilterGroups p);
     q_startDate := startDate range;
     q_endDate := endDate range;
     q_dimensions := p_dimensions p;
     q_rowLimit := Some (Z.max 1 (Z.min (p_rowLimit p) 25000));
     q_searchType := p_searchType p |}.

Definition compareBody (p : ItemParams) (r : DateRange) : QueryBody :=
  {| q_dimensionFilterGroups := filterGroupsField (p_dimensionFilterGroups p);
     q_startDate := startDate r;
     q_endDate := endDate r;
     q_dimensions := p_dimensionsCompare p;
     q_rowLimit := None;
     q_searchType := orString (p_searchTypeCompare p) "web" |}.

Definition insightsSiteUrl (p : ItemParams) : string :=
  if (p_siteUrlMode p =? "manual")%string then p_siteUrlManual p else p_siteUrl p.

Definition compareSiteUrl (p : ItemParams) : string :=
  if (orString (p_siteUrlModeCompare p) "list" =? "manual")%string
  then p_siteUrlCompareManual p else p_siteUrlCompare p.

Definition compareModeOf (p : ItemParams) : string :=
  orString (p_compareMode p) "prevPeriod".

Definition customBOf (p : ItemParams) : option CustomRange :=
  if (compareModeOf p =? "custom")%string then
    Some {| cb_mode := Some (orString (p_dateRangeModeB p) "last28d");
            cb_start := Some (p_startDateB p);
            cb_end := Some (p_endDateB p) |}
  else None.

Definition compareRowLimit (p : ItemParams) : Z :=
  if p_rowLimitCompare p =? 0 then 1000 else p_rowLimitCompare p.

Section Execute.

Variable zone : Z -> bool -> Z.
Variable otherParse : string -> option Z.
Variable World : Type.
Variable httpRequestWithAuthentication : World -> Request -> Completion Response * World.
(** The time value [new Date()] reads in a given world. *)
Variable clock : World -> Z.

(** [execute] runs in a state made of the world and of [returnData];
    what was pushed before a [throw] stays pushed. *)
Record ExecState : Type := { world : World; returnData : list ExecutionData }.

Definition Exec (A : Type) : Type := ExecState -> Completion A * ExecState.

Definition ret {A : Type} (a : A) : Exec A := fun st => (Normal a, st).
Definition throw {A : Type} (e : JsError) : Exec A := fun st => (Throw e, st).
Definition bindE {A B : Type} (c : Exec A) (k : A -> Exec B) : Exec B :=
  fun st =>
    match c st with
    | (Normal a, st') => k a st'
    | (Throw e, st') => (Throw e, st')
    end.
Definition tryCatch {A : Type} (c : Exec A) (h : JsError -> Exec A) : Exec A :=
  fun st =>
    match c st with
    | (Normal a, st') => (Normal a, st')
    | (Throw e, st') => h e st'
    end.

Notation "x <~ c ;; k" := (bindE c (fun x => k))
  (at level 61, c at next level, right associativity).

Definition liftC {A : Type} (c : Completion A) : Exec A := fun st => (c, st).

Definition remote {A : Type} (f : World -> Completion A * World) : Exec A :=
  fun st =>
    let (r, w') := f (world st) in
    (r, {| world := w'; returnData := returnData st |}).

Definition readClock : Exec Z := fun st => (Normal (clock (world st)), st).

Definition push (d : ExecutionData) : Exec unit :=
  fun st => (Normal tt, {| world := world st; returnData := returnData st ++ [d] |}).

Fixpoint forEach {A : Type} (l : list A) (f : A -> Exec unit) : Exec unit :=
  match l with
  | [] => ret tt
  | a :: r => _ <~ f a ;; forEach r f
  end.

Definition pushOk (i : nat) (j : JsObject) : Exec unit :=
  push {| json := j; pairedItem := i |}.

(** [{ error: e?.message ?? e }] for an error [e] *)
Definition pushErr (i : nat) (continueOnFail : bool) (e : JsError) : Exec unit :=
  if continueOnFail then pushOk i [("error", VString (errorMessage e))] else throw e.

Definition opGetSites (i : nat) : Exec unit :=
  resp <~ remote (fun w => httpRequestWithAuthentication w ListSites) ;;
  let sites := match siteEntry resp with Some l => l | None => [] end in
  forEach sites (pushOk i).

Definition opGetPageInsights (i : nat) (p : ItemParams) : Exec unit :=
  siteUrl <~ liftC (validateSiteUrlOrThrow (insightsSiteUrl p) "page insights") ;;
  now <~ readClock ;;
  range <~ liftC (rangeFromPreset zone otherParse now (p_dateRangeMode p)
                    (Some (p_startDate p)) (Some (p_endDate p))) ;;
  rs <~ remote (fun w => fetchAllRows World httpRequestWithAuthentication w siteUrl
                           (insightsBody p range) (p_rowLimit p)) ;;
  forEach rs (fun r => pushOk i (mapRow (p_dimensions p) r)).

Definition opInspectUrl (i : nat) (p : ItemParams) : Exec unit :=
  let siteUrlInput :=
    if (p_inspectSiteUrlMode p =? "manual")%string
    then p_inspectSiteUrlManual p else p_inspectSiteUrl p in
  siteUrl <~ liftC (validateSiteUrlOrThrow siteUrlInput "URL inspection") ;;
  let inspectionUrl := trim (p_inspectionUrl p) in
  if negb (prefix "http://" inspectionUrl || prefix "https://" inspectionUrl) then
    throw (NodeOperationError "Inspection URL must start with http(s)://")
  else
    let languageCode :=
      match p_languageCode p with EmptyString => None | l => Some l end in
    resp <~ remote (fun w => httpRequestWithAuthentication w
                               (InspectUrl inspectionUrl siteUrl languageCode)) ;;
    pushOk i (match inspectionResult resp with Some o => o | None => [] end).

Definition opComparePageInsights (i : nat) (p : ItemParams) : Exec unit :=
  siteUrl <~ liftC (validateSiteUrlOrThrow (compareSiteUrl p) "comparison") ;;
  let dims := p_dimensionsCompare p in
  match dims with
  | [] => throw (NodeOperationError "At least one dimension is required for comparison.")
  | _ =>
    let drmA := orString (p_dateRangeModeA p) "last28d" in
    now <~ readClock ;;
    rangeA <~ liftC (rangeFromPreset zone otherParse now drmA
                       (Some (p_startDateA p)) (Some (p_endDateA p))) ;;
    let compareMode := compareModeOf p in
    nowB <~ readClock ;;
    ranges <~ liftC (buildCompareRanges zone otherParse nowB compareMode rangeA (customBOf p)) ;;
    let rangeB := snd ranges in
    let rowLimit := compareRowLimit p in
    rowsA <~ remote (fun w => fetchAllRows World httpRequestWithAuthentication w siteUrl
                                (compareBody p rangeA) rowLimit) ;;
    rowsB <~ remote (fun w => fetchAllRows World httpRequestWithAuthentication w siteUrl
                                (compareBody p rangeB) rowLimit) ;;
    forEach (joinRows dims rangeA rangeB compareMode rowsA rowsB)
            (fun out => push {| json := out; pairedItem := i |})
  end.

Definition when (b : bool) (c : Exec unit) : Exec unit := if b then c else ret tt.

(** The [try] block of one item: the operations are tested one after the
    other, as in the source. *)
Definition itemBody (i : nat) (p : ItemParams) : Exec unit :=
  let operation := p_operation p in
  _ <~ when (operation =? "getSites")%string (opGetSites i) ;;
  _ <~ when (operation =? "getPageInsights")%string (opGetPageInsights i p) ;;
  _ <~ when (operation =? "inspectUrl")%string (opInspectUrl i p) ;;
  when (operation =? "comparePageInsights")%string (opComparePageInsights i p).

Definition processItem (i : nat) (p : ItemParams) : Exec unit :=
  tryCatch (itemBody i p) (pushErr i (p_continueOnFail p)).

Fixpoint processItems (i : nat) (items : list ItemParams) : Exec unit :=
  match items with
  | [] => ret tt
  | p :: r => _ <~ processItem i p ;; processItems (S i) r
  end.

Definition execute (w : World) (items : list ItemParams)
  : Completion (list (list ExecutionData)) * World :=
  match processItems O items {| world := w; returnData := [] |} with
  | (Normal _, st) => (Normal [returnData st], world st)
  | (Throw e, st) => (Throw e, world st)
  end.

End Execute.

Arguments world {World} _.
Arguments returnData {World} _.
Arguments Build_ExecState {World} _ _.

(** ** The filter groups of a request *)

(** One entry of the ['filters.filter'] collection; a field the entry does
    not have is [None]. *)
Record FilterParam : Type := {
  fp_dimension : option string;
  fp_operator : option string;
  fp_valuesJoin : option string;
  fp_expression : option string
}.

(** [s || d] on [string | undefined]. *)
Definition orDefault (s : option string) (d : string) : string :=
  match s with
  | Some (String c r) => String c r
  | _ => d
  end.

(** [s.split(sep)] for a one-character separator. *)
Fixpoint splitOn (sep : ascii) (s : string) : list string :=
  match s with
  | EmptyString => [EmptyString]
  | String c r =>
    if (c =? sep)%char then EmptyString :: splitOn sep r
    else match splitOn sep r with
         | x :: xs => String c x :: xs
         | [] => [String c EmptyString]
         end
  end.

(** [Boolean(s)] on a string. *)
Definition nonEmpty (s : string) : bool :=
  match s with
  | EmptyString => false
  | String _ _ => true
  end.

Definition makeFilter (dimension operator expression : string) : DimensionFilter :=
  {| f_dimension := dimension; f_operator := operator; f_expression := expression |}.

(** The [values] of one filter: empty unless the trimmed expression is not. *)
Definition filterValues (f : FilterParam) : list string :=
  let exprRaw := trim (orDefault (fp_expression f) "") in
  if nonEmpty exprRaw
  then filter nonEmpty (map trim (splitOn "," exprRaw))
  else [].

(** One turn of the loop over the collection: a filter on another dimension
    is passed over, one without values adds nothing. *)
Definition addFilterGroup (dimensionFilterGroups : list FilterGroup) (f : FilterParam)
  : list FilterGroup :=
  match fp_dimension f with
  | Some dimension =>
    if negb (dimension =? "page")%string && negb (dimension =? "query")%string
    then dimensionFilterGroups
    else
      let operator := orDefault (fp_operator f) "contains" in
      let valuesJoin := orDefault (fp_valuesJoin f) "or" in
      match filterValues f with
      | [] => dimensionFilterGroups
      | [v] =>
        dimensionFilterGroups
        ++ [{| groupType := "and"; filters := [makeFilter dimension operator v] |}]
      | values =>
        dimensionFilterGroups
        ++ [{| groupType := valuesJoin;
               filters := map (makeFilter dimension operator) values |}]
      end
  | None => dimensionFilterGroups
  end.

(** The [dimensionFilterGroups] that [execute] builds for an item. *)
Definition buildFilterGroups (filtersCollection : list FilterParam) : list FilterGroup :=
  fold_left addFilterGroup filtersCollection [].

(** ** The list of verified sites offered in the editor *)

Record GscSiteEntry : Type := {
  se_siteUrl : string;
  se_permissionLevel : option string
}.

(** An entry of the list a [loadOptions] method returns. *)
Record PropertyOption : Type := {
  o_name : string;
  o_value : string;
  o_description : option string
}.

(** [Array.prototype.sort] with a comparator: the stable sort, which is
    what the method returns whenever the comparator is consistent, as the
    collation of a locale is. *)
Fixpoint insertSorted {A : Type} (compare : A -> A -> Z) (x : A) (sorted : list A)
  : list A :=
  match sorted with
  | [] => [x]
  | y :: r =>
    if compare x y <=? 0 then x :: y :: r else y :: insertSorted compare x r
  end.

Fixpoint sortBy {A : Type} (compare : A -> A -> Z) (l : list A) : list A :=
  match l with
  | [] => []
  | x :: r => insertSorted compare x (sortBy compare r)
  end.

Definition noSitesOption : PropertyOption :=
  {| o_name := "No verified properties found — verify your site in Google Search Console first.";
     o_value := "__NO_SITES__";
     o_description := None |}.

(** [err?.message || '...'] *)
Definition errorOption (err : JsError) : PropertyOption :=
  {| o_name := "Error loading sites: "
               ++ orString (errorMessage err)
                    "Failed to load sites. Check your OAuth credentials/permissions.";
     o_value := "__NO_SITES__";
     o_description := None |}.

Definition siteOption (s : GscSiteEntry) : PropertyOption :=
  {| o_name := se_siteUrl s
               ++ match se_permissionLevel s with
                  | Some (String c r) => " (" ++ String c r ++ ")"
                  | _ => ""
                  end;
     o_value := se_siteUrl s;
     o_description := Some (orDefault (se_permissionLevel s) "") |}.

Section LoadOptions.

(** The request for the site list through the credentials helper, with the
    [siteEntry] of the answer at its declared type ([None] when the answer
    has no such array), and the collation of the host. *)
Variable World : Type.
Variable listSites : World -> Completion (option (list GscSiteEntry)) * World.
Variable localeCompare : string -> string -> Z.

Definition compareSites (a b : GscSiteEntry) : Z :=
  let av := if prefix "sc-domain:" (se_siteUrl a) then 0 else 1 in
  let bv := if prefix "sc-domain:" (se_siteUrl b) then 0 else 1 in
  if av - bv =? 0 then localeCompare (se_siteUrl a) (se_siteUrl b) else av - bv.

(** The [try] block of [getVerifiedSites]. *)
Definition loadSites (w : World) : Completion (list PropertyOption) * World :=
  match listSites w with
  | (Normal siteEntry, w') =>
    let sites := match siteEntry with Some l => l | None => [] end in
    match sites with
    | [] => (Normal [noSitesOption], w')
    | _ =>
      let sorted := sortBy compareSites sites in
      (Normal (map siteOption sorted), w')
    end
  | (Throw e, w') => (Throw e, w')
  end.

Definition getVerifiedSites (w : World) : Completion (list PropertyOption) * World :=
  match loadSites w with
  | (Normal options, w') => (Normal options, w')
  | (Throw err, w') => (Normal [errorOption err], w')
  end.

End LoadOptions.

(** ** Request addresses *)

(** [encodeURIComponent] on the UTF-8 bytes of a string: letters, digits and
    [- _ . ! ~ * ' ( )] stay, every other byte is written [%XX]. *)
Definition isUnreserved (c : ascii) : bool :=
  let n := nat_of_ascii c in
  (((65 <=? n) && (n <=? 90)) || ((97 <=? n) && (n <=? 122))
   || ((48 <=? n) && (n <=? 57)))%nat
  || existsb (Ascii.eqb c) ["-"; "_"; "."; "!"; "~"; "*"; "'"; "("; ")"]%char.

Definition hexDigit (n : nat) : ascii :=
  ascii_of_nat (if (n <? 10)%nat then 48 + n else 55 + n).

Definition percentEncoded (c : ascii) : string :=
  let n := nat_of_ascii c in
  String "%" (String (hexDigit (n / 16)) (String (hexDigit (n mod 16)) EmptyString)).

Fixpoint encodeURIComponent (s : string) : string :=
  match s with
  | EmptyString => EmptyString
  | String c r =>
    (if isUnreserved c then String c EmptyString else percentEncoded c)
    ++ encodeURIComponent r
  end.

(** The address each request is sent to. *)
Definition requestUrl (req : Request) : string :=
  match req with
  | ListSites => "https://www.googleapis.com/webmasters/v3/sites"
  | SearchAnalyticsQuery siteUrl _ _ =>
    "https://www.googleapis.com/webmasters/v3/sites/"
    ++ encodeURIComponent siteUrl ++ "/searchAnalytics/query"
  | InspectUrl _ _ _ =>
    "https://searchconsole.googleapis.com/v1/urlInspection/index:inspect"
  end.

(** * Vocabulary of the statements *)

(** ** Calendar days *)

(** Days that are written [YYYY-MM-DD]: years 0000 to 9999. *)
Definition fourDigitDay (d : Z) : Prop :=
  JsDate.DayFromYear 0 <= d < JsDate.DayFromYear 10000.

(** Inclusive length in days of the range from day [a] to day [b]. *)
Definition lengthOf (a b : Z) : Z := b - a + 1.

(** The year, month (0 = January) and date [n] calendar months before day
    [d]: the same date, the month moved back with years carried. *)
Definition monthsBefore (n d : Z) : Z * Z * Z :=
  (JsDate.YearFromDay d + (JsDate.MonthFromDay d - n) / 12,
   (JsDate.MonthFromDay d - n) mod 12,
   JsDate.DateFromDay d).

(** Not a leap-day case: the date exists in year [y] and in year [y - 1]. *)
Definition plainDate (y m dt : Z) : Prop :=
  1 <= y <= 9999 /\ 0 <= m <= 11
  /\ 1 <= dt <= JsDate.daysInMonth (JsDate.leapDays y) m
  /\ dt <= JsDate.daysInMonth (JsDate.leapDays (y - 1)) m.

(** 2024-03-10T12:00:00.000Z *)
Definition noon20240310 : Z := 1710072000000.

(** Five hours west of UTC, in milliseconds. *)
Definition utcMinus5 : Z := -18000000.

(** ** Row keys *)

(** Does [s] contain ["||"]? *)
Fixpoint hasDoubleBar (s : string) : bool :=
  match s with
  | EmptyString => false
  | String c r =>
    match r with
    | String c' _ => ((c =? "|")%char && (c' =? "|")%char) || hasDoubleBar r
    | EmptyString => false
    end
  end.

Fixpoint endsWithBar (s : string) : bool :=
  match s with
  | EmptyString => false
  | String c EmptyString => (c =? "|")%char
  | String _ r => endsWithBar r
  end.

(** A dimension value the separator cannot run into. *)
Definition separable (s : string) : Prop :=
  hasDoubleBar s = false /\ endsWithBar s = false.

(** The property names [comparisonRecord] assigns after the dimensions. *)
Definition metricFields : list string :=
  ["clicks_a"; "clicks_b"; "clicks_diff"; "impr_a"; "impr_b"; "impr_diff";
   "ctr_a"; "ctr_b"; "ctr_diff"; "pos_a"; "pos_b"; "pos_diff";
   "range_a"; "range_b"; "compare_mode"]%string.

Definition zeroRow (ks : list string) : GscQueryRow :=
  {| keys := Some ks; clicks := 0; impressions := 0; ctr := 0; position := 0 |}.

Definition rowWithKeys (ks : list string) : GscQueryRow :=
  {| keys := Some ks; clicks := 1; impressions := 1; ctr := 1; position := 1 |}.

Definition exampleRange : DateRange :=
  {| startDate := "2024-03-01"; endDate := "2024-03-10" |}.
Definition exampleRangeB : DateRange :=
  {| startDate := "2024-02-20"; endDate := "2024-02-29" |}.
Definition rowA : GscQueryRow :=
  {| keys := Some ["/a"%string]; clicks := 10; impressions := 100; ctr := 0.5; position := 3 |}.
Definition rowB : GscQueryRow :=
  {| keys := Some ["/b"%string]; clicks := 5; impressions := 20; ctr := 0.25; position := 7 |}.
(** The page [/a] in the other period. *)
Definition rowAinB : GscQueryRow :=
  {| keys := Some ["/a"%string]; clicks := 4; impressions := 50; ctr := 0.25; position := 5 |}.

(** The twelve metric fields of a record made of the side-A row [a] and of
    the side-B row [b]. *)
Definition showsMetrics (out : JsObject) (a b : GscQueryRow) : Prop :=
  (getProp out "clicks_a" = Some (VNumber (clicks a))
   /\ getProp out "clicks_b" = Some (VNumber (clicks b))
   /\ getProp out "clicks_diff" = Some (VNumber (clicks a - clicks b)))
  /\ (getProp out "impr_a" = Some (VNumber (impressions a))
      /\ getProp out "impr_b" = Some (VNumber (impressions b))
      /\ getProp out "impr_diff" = Some (VNumber (impressions a - impressions b)))
  /\ (getProp out "ctr_a" = Some (VNumber (ctr a))
      /\ getProp out "ctr_b" = Some (VNumber (ctr b))
      /\ getProp out "ctr_diff" = Some (VNumber (ctr a - ctr b)))
  /\ (getProp out "pos_a" = Some (VNumber (position a))
      /\ getProp out "pos_b" = Some (VNumber (position b))
      /\ getProp out "pos_diff" = Some (VNumber (position a - position b))).

(** What a record shows of the page and of the clicks. *)
Definition clicksView (o : JsObject)
  : option JsValue * option JsValue * option JsValue * option JsValue :=
  (getProp o "page", getProp o "clicks_a", getProp o "clicks_b", getProp o "clicks_diff").

(** ** Remote services *)

(** A remote wrapped to count the requests it receives. *)
Definition counting {World : Type}
    (http : World -> Request -> Completion Response * World)
  : World * nat -> Request -> Completion Response * (World * nat) :=
  fun wn req => let (r, w') := http (fst wn) req in (r, (w', S (snd wn))).

Definition noRows : Response :=
  {| rows := None; siteEntry := None; inspectionResult := None |}.

(** A source of fixed content that serves the page asked for: [rowLimit]
    rows from [startRow] on, fewer at the end.  Its world is the number of
    requests served. *)
Definition mockSource (data : list GscQueryRow)
  : nat -> Request -> Completion Response * nat :=
  fun served req =>
    match req with
    | SearchAnalyticsQuery _ body startRow =>
      let limit := match q_rowLimit body with Some n => n | None => 1000 end in
      (Normal {| rows := Some (firstn (Z.to_nat limit) (skipn (Z.to_nat startRow) data));
                 siteEntry := None; inspectionResult := None |},
       S served)
    | _ => (Normal noRows, S served)
    end.

(** A source that serves at most [cap] rows a page, whatever is asked. *)
Definition cappedSource (cap : Z) (data : list GscQueryRow)
  : nat -> Request -> Completion Response * nat :=
  fun served req =>
    match req with
    | SearchAnalyticsQuery siteUrl body startRow =>
      let limit := match q_rowLimit body with Some n => n | None => 1000 end in
      mockSource data served
        (SearchAnalyticsQuery siteUrl (pageBody body (Z.min cap limit)) startRow)
    | _ => mockSource data served req
    end.

(** The same source, whose request number [failAt] is refused. *)
Definition failingSource (data : list GscQueryRow) (failAt : nat)
  : nat -> Request -> Completion Response * nat :=
  fun served req =>
    if (served =? failAt)%nat
    then (Throw (RequestError "401 Unauthorized"), S served)
    else mockSource data served req.

Definition sampleRow (n : nat) : GscQueryRow :=
  {| keys := Some [JsDate.padDigits 4 (Z.of_nat n) ""];
     clicks := 1; impressions := 1; ctr := 1; position := 1 |}.

Definition sampleBody (rowLimit : option Z) : QueryBody :=
  {| q_dimensionFilterGroups := None; q_startDate := "2024-03-01";
     q_endDate := "2024-03-10"; q_dimensions := ["page"%string];
     q_rowLimit := rowLimit; q_searchType := "web" |}.

Definition rows250 : list GscQueryRow := map sampleRow (seq 0 250).
Definition rows3000 : list GscQueryRow := map sampleRow (seq 0 3000).

(** An item that compares the last 7 days with the period before. *)
Definition compareItem (continueOnFail : bool) : ItemParams :=
  {| p_operation := "comparePageInsights";
     p_continueOnFail := continueOnFail;
     p_dimensionFilterGroups := [];
     p_siteUrlMode := "list"; p_siteUrlManual := ""; p_siteUrl := "";
     p_dateRangeMode := "last28d"; p_startDate := ""; p_endDate := "";
     p_rowLimit := 1000; p_searchType := "web"; p_dimensions := ["page"%string];
     p_inspectSiteUrlMode := "list"; p_inspectSiteUrlManual := "";
     p_inspectSiteUrl := ""; p_inspectionUrl := ""; p_languageCode := "";
     p_siteUrlModeCompare := "list"; p_siteUrlCompareManual := "";
     p_siteUrlCompare := "sc-domain:example.com";
     p_dimensionsCompare := ["page"%string];
     p_dateRangeModeA := "last7d"; p_startDateA := ""; p_endDateA := "";
     p_compareMode := "prevPeriod";
     p_dateRangeModeB := "last28d"; p_startDateB := ""; p_endDateB := "";
     p_rowLimitCompare := 2500; p_searchTypeCompare := "web" |}.

(** ** Turns of the fetch loop *)

Section FetchSteps.

Variable World : Type.
Variable http : World -> Request -> Completion Response * World.
Variable siteUrl : string.
Variable body : QueryBody.
Variable targetLimit perRequest : Z.

(** A turn of the loop that goes round again: the page request succeeded
    with a full page and the target is not reached. *)
Inductive nextPage
  : World * list GscQueryRow * Z -> World * list GscQueryRow * Z -> Prop :=
| nextPage_intro w collected startRow resp w' :
    len collected < targetLimit ->
    http w (pageRequest siteUrl body perRequest startRow) = (Normal resp, w') ->
    chunkOf resp <> [] ->
    perRequest <= len (chunkOf resp) ->
    len (collected ++ chunkOf resp) < targetLimit ->
    nextPage (w, collected, startRow)
             (w', collected ++ chunkOf resp, startRow + len (chunkOf resp)).

(** Any number of such turns. *)
Inductive reaches
  : World * list GscQueryRow * Z -> World * list GscQueryRow * Z -> Prop :=
| reaches_here s : reaches s s
| reaches_step s1 s2 s3 : nextPage s1 s2 -> reaches s2 s3 -> reaches s1 s3.

(** A turn of the loop that leaves it, with what [fetchLoop] then returns. *)
Inductive leaves
  : World * list GscQueryRow * Z -> Completion (list GscQueryRow) * World -> Prop :=
| leaves_target w collected startRow :
    targetLimit <= len collected ->
    leaves (w, collected, startRow) (Normal collected, w)
| leaves_error w collected startRow e w' :
    len collected < targetLimit ->
    http w (pageRequest siteUrl body perRequest startRow) = (Throw e, w') ->
    leaves (w, collected, startRow) (Throw e, w')
| leaves_empty w collected startRow resp w' :
    len collected < targetLimit ->
    http w (pageRequest siteUrl body perRequest startRow) = (Normal resp, w') ->
    chunkOf resp = [] ->
    leaves (w, collected, startRow) (Normal collected, w')
| leaves_short w collected startRow resp w' :
    len collected < targetLimit ->
    http w (pageRequest siteUrl body perRequest startRow) = (Normal resp, w') ->
    chunkOf resp <> [] ->
    len (chunkOf resp) < perRequest ->
    leaves (w, collected, startRow) (Normal (collected ++ chunkOf resp), w')
| leaves_reached w collected startRow resp w' :
    len collected < targetLimit ->
    http w (pageRequest siteUrl body perRequest startRow) = (Normal resp, w') ->
    chunkOf resp <> [] ->
    perRequest <= len (chunkOf resp) ->
    targetLimit <= len (collected ++ chunkOf resp) ->
    leaves (w, collected, startRow) (Normal (collected ++ chunkOf resp), w').

End FetchSteps.

(** ** Requests on record *)

(** A remote wrapped to keep what it was asked and what it answered, oldest
    first. *)
Definition recording {World : Type}
    (http : World -> Request -> Completion Response * World)
  : World * list (Request * Completion Response) -> Request
    -> Completion Response * (World * list (Request * Completion Response)) :=
  fun wl req =>
    let (r, w') := http (fst wl) req in (r, (w', snd wl ++ [(req, r)])).

(** The rows an answer carries: those of its page, none for an error. *)
Definition rowsOf (r : Completion Response) : list GscQueryRow :=
  match r with
  | Normal resp => chunkOf resp
  | Throw _ => []
  end.

(** The rows of all the answers of a record. *)
Definition rowsServed (log : list (Request * Completion Response)) : list GscQueryRow :=
  List.concat (map (fun qa => rowsOf (snd qa)) log).

(** A record of page requests that starts at offset [start] and asks each
    page where the rows answered so far end. *)
Fixpoint contiguousFrom (siteUrl : string) (body : QueryBody) (perRequest : Z)
    (start : Z) (log : list (Request * Completion Response)) : Prop :=
  match log with
  | [] => True
  | (q, a) :: rest =>
    q = pageRequest siteUrl body perRequest start
    /\ contiguousFrom siteUrl body perRequest (start + len (rowsOf a)) rest
  end.

(** How a record ends when the fetch ends with [result]: on the failed
    request for an error. *)
Definition endsOn (log : list (Request * Completion Response))
    (result : Completion (list GscQueryRow)) : Prop :=
  match result with
  | Normal _ => True
  | Throw e => exists pre q, log = pre ++ [(q, Throw e)]
  end.

(** Pages of [per] rows that hold [n] rows: the least number. *)
Definition pagesFor (n per : Z) : Z := (Z.max 0 n + per - 1) / per.

(** ** Items and their records *)

(** Records that are all paired with input item [i]. *)
Definition pairedWith (i : nat) (block : list ExecutionData) : Prop :=
  Forall (fun d => pairedItem d = i) block.

(** The operations [execute] knows. *)
Definition knownOperation (operation : string) : bool :=
  (operation =? "getSites")%string || (operation =? "getPageInsights")%string
  || (operation =? "inspectUrl")%string || (operation =? "comparePageInsights")%string.

(** The site parameter the [inspectUrl] operation reads. *)
Definition inspectSiteUrl (p : ItemParams) : string :=
  if (p_inspectSiteUrlMode p =? "manual")%string
  then p_inspectSiteUrlManual p else p_inspectSiteUrl p.

(** A computation that only appends records paired with item [i]. *)
Definition tags {World A : Type} (i : nat) (c : Exec World A) : Prop :=
  forall (st : ExecState World) r st',
    c st = (r, st') ->
    exists block, returnData st' = returnData st ++ block /\ pairedWith i block.

(** An item whose site parameters all hold [siteUrl]: the last 7 days, up
    to 1000 rows by page, the page [https://example.com/page] to inspect. *)
Definition sampleItem (operation siteUrl : string) (continueOnFail : bool) : ItemParams :=
  {| p_operation := operation;
     p_continueOnFail := continueOnFail;
     p_dimensionFilterGroups := [];
     p_siteUrlMode := "list"; p_siteUrlManual := ""; p_siteUrl := siteUrl;
     p_dateRangeMode := "last7d"; p_startDate := ""; p_endDate := "";
     p_rowLimit := 1000; p_searchType := "web"; p_dimensions := ["page"%string];
     p_inspectSiteUrlMode := "list"; p_inspectSiteUrlManual := "";
     p_inspectSiteUrl := siteUrl; p_inspectionUrl := "https://example.com/page";
     p_languageCode := "";
     p_siteUrlModeCompare := "list"; p_siteUrlCompareManual := "";
     p_siteUrlCompare := siteUrl;
     p_dimensionsCompare := ["page"%string];
     p_dateRangeModeA := "last7d"; p_startDateA := ""; p_endDateA := "";
     p_compareMode := "prevPeriod";
     p_dateRangeModeB := "last28d"; p_startDateB := ""; p_endDateB := "";
     p_rowLimitCompare := 1000; p_searchTypeCompare := "web" |}.

(** A comparison of a custom range that has no start date with the period
    before. *)
Definition customCompareItem : ItemParams :=
  {| p_operation := "comparePageInsights";
     p_continueOnFail := false;
     p_dimensionFilterGroups := [];
     p_siteUrlMode := "list"; p_siteUrlManual := ""; p_siteUrl := "";
     p_dateRangeMode := "last28d"; p_startDate := ""; p_endDate := "";
     p_rowLimit := 1000; p_searchType := "web"; p_dimensions := ["page"%string];
     p_inspectSiteUrlMode := "list"; p_inspectSiteUrlManual := "";
     p_inspectSiteUrl := ""; p_inspectionUrl := ""; p_languageCode := "";
     p_siteUrlModeCompare := "list"; p_siteUrlCompareManual := "";
     p_siteUrlCompare := "sc-domain:example.com";
     p_dimensionsCompare := ["page"%string];
     p_dateRangeModeA := "custom"; p_startDateA := ""; p_endDateA := "2024-03-10";
     p_compareMode := "prevPeriod";
     p_dateRangeModeB := "last28d"; p_startDateB := ""; p_endDateB := "";
     p_rowLimitCompare := 1000; p_searchTypeCompare := "web" |}.

(** ** Row records *)

(** The property names [mapRow] assigns after the dimensions. *)
Definition rowMetricFields : list string :=
  ["clicks"; "impressions"; "ctr"; "position"]%string.

(** [keys[idx]] as a property value: [undefined] past the end. *)
Definition cell (ks : list string) (idx : nat) : JsValue :=
  match nth_error ks idx with
  | Some v => VString v
  | None => VUndefined
  end.

(** The dimension columns of a row: each name with the value at its
    position, positions counted from [idx]. *)
Fixpoint dimensionCells (ks : list string) (idx : nat) (dims : list string) : JsObject :=
  match dims with
  | [] => []
  | d :: r => (d, cell ks idx) :: dimensionCells ks (S idx) r
  end.

Definition metricCells (row : GscQueryRow) : JsObject :=
  [("clicks", VNumber (clicks row)); ("impressions", VNumber (impressions row));
   ("ctr", VNumber (ctr row)); ("position", VNumber (position row))]%string.

(** ** White space *)

(** Strings made of white-space characters only. *)
Inductive Spaces : string -> Prop :=
| Spaces_nil : Spaces ""
| Spaces_cons p s : In p whiteSpace -> Spaces s -> Spaces (p ++ s).

(** ** Filter values *)

(** Does [s] contain the character [c]? *)
Fixpoint hasChar (c : ascii) (s : string) : bool :=
  match s with
  | EmptyString => false
  | String a r => (a =? c)%char || hasChar c r
  end.

(** A value as a filter carries it: not empty, no white space around it, no
    comma in it. *)
Definition cleanValue (v : string) : Prop :=
  v <> EmptyString /\ trim v = v /\ hasChar "," v = false.

(** A filter on pages with two values, and the group it makes. *)
Definition sampleFilter : FilterParam :=
  {| fp_dimension := Some "page"; fp_operator := None; fp_valuesJoin := None;
     fp_expression := Some " /blog/ , ,/shop/ " |}.

Definition sampleGroup : FilterGroup :=
  {| groupType := "or";
     filters := [makeFilter "page" "contains" "/blog/";
                 makeFilter "page" "contains" "/shop/"] |}.

(** ** Site lists *)

(** Is the site a domain property? *)
Definition isDomainProperty (siteUrl : string) : bool := prefix "sc-domain:" siteUrl.

(** Domain properties, then the others. *)
Definition grouped (l : list GscSiteEntry) : Prop :=
  exists domains urls,
    l = domains ++ urls
    /\ Forall (fun s => isDomainProperty (se_siteUrl s) = true) domains
    /\ Forall (fun s => isDomainProperty (se_siteUrl s) = false) urls.

(** A collation as plain as can be: the order of the character codes. *)
Definition codeOrder (a b : string) : Z :=
  match String.compare a b with
  | Lt => -1
  | Eq => 0
  | Gt => 1
  end.

Definition sampleSites : list GscSiteEntry :=
  [ {| se_siteUrl := "https://example.com/"; se_permissionLevel := Some "siteOwner" |};
    {| se_siteUrl := "sc-domain:example.org"; se_permissionLevel := None |};
    {| se_siteUrl := "http://example.com/"; se_permissionLevel := Some "" |};
    {| se_siteUrl := "sc-domain:example.com"; se_permissionLevel := Some "siteFullUser" |} ].

Import JsDate.

(** * The calendar *)

Ltac leap_cases y :=
  unfold leapDays, InLeapYear;
  destruct (y mod 4 =? 0) eqn:?E4; destruct (y mod 100 =? 0) eqn:?E100;
  destruct (y mod 400 =? 0) eqn:?E400; cbv [andb orb negb];
  rewrite ?Z.eqb_eq, ?Z.eqb_neq in *.

Ltac split_ltb :=
  match goal with
  | |- context [if ?a <? ?b then _ else _] =>
    let E := fresh "E" in
    destruct (a <? b) eqn:E; [apply Z.ltb_lt in E | apply Z.ltb_ge in E]
  end.

Lemma leapDays_range y : 0 <= leapDays y <= 1.
Proof. unfold leapDays. destruct (InLeapYear y); lia. Qed.

Lemma DayFromYear_succ y : DayFromYear (y + 1) = DayFromYear y + DaysInYear y.
Proof.
  unfold DayFromYear, DaysInYear. leap_cases y; Z.div_mod_to_equations; lia.
Qed.

Lemma DayFromYear_mono a b : a <= b -> DayFromYear a <= DayFromYear b.
Proof. intros H. unfold DayFromYear. Z.div_mod_to_equations. lia. Qed.

Lemma YearFromDay_spec d :
  DayFromYear (YearFromDay d) <= d < DayFromYear (YearFromDay d + 1).
Proof.
  unfold YearFromDay.
  set (y := 1970 + d * 400 / 146097).
  destruct (d <? DayFromYear y) eqn:E1.
  - apply Z.ltb_lt in E1. replace (y - 1 + 1) with y by lia.
    split; [|lia]. subst y. unfold DayFromYear in *.
    Z.div_mod_to_equations. lia.
  - apply Z.ltb_ge in E1.
    destruct (DayFromYear (y + 1) <=? d) eqn:E2.
    + apply Z.leb_le in E2. split; [lia|].
      subst y. unfold DayFromYear in *. Z.div_mod_to_equations. lia.
    + apply Z.leb_gt in E2. lia.
Qed.

Lemma YearFromDay_unique d y :
  DayFromYear y <= d < DayFromYear (y + 1) -> YearFromDay d = y.
Proof.
  intros H. pose proof (YearFromDay_spec d) as S.
  destruct (Z.lt_trichotomy (YearFromDay d) y) as [L|[E|G]]; [|exact E|].
  - pose proof (DayFromYear_mono (YearFromDay d + 1) y ltac:(lia)). lia.
  - pose proof (DayFromYear_mono (y + 1) (YearFromDay d) ltac:(lia)). lia.
Qed.

Lemma YearFromDay_mono a b : a <= b -> YearFromDay a <= YearFromDay b.
Proof.
  intros H. pose proof (YearFromDay_spec a). pose proof (YearFromDay_spec b).
  destruct (Z_le_gt_dec (YearFromDay a) (YearFromDay b)) as [L|G]; [exact L|].
  pose proof (DayFromYear_mono (YearFromDay b + 1) (YearFromDay a) ltac:(lia)). lia.
Qed.

Lemma DayWithinYear_range d : 0 <= DayWithinYear d < DaysInYear (YearFromDay d).
Proof.
  unfold DayWithinYear. pose proof (YearFromDay_spec d) as S.
  rewrite DayFromYear_succ in S. lia.
Qed.

(** Month and date of a day of the year. *)
Lemma monthOfYearDay_spec leap n :
  0 <= leap <= 1 -> 0 <= n < 365 + leap ->
  0 <= monthOfYearDay leap n <= 11
  /\ 1 <= n - monthStart leap (monthOfYearDay leap n) + 1
       <= daysInMonth leap (monthOfYearDay leap n).
Proof.
  intros Hl Hn. unfold monthOfYearDay.
  repeat split_ltb; cbn [monthStart daysInMonth]; lia.
Qed.

Lemma monthOfYearDay_start leap m dt :
  0 <= leap <= 1 -> 0 <= m <= 11 -> 1 <= dt <= daysInMonth leap m ->
  monthOfYearDay leap (monthStart leap m + dt - 1) = m.
Proof.
  intros Hl Hm Hd.
  assert (Hc : m = 0 \/ m = 1 \/ m = 2 \/ m = 3 \/ m = 4 \/ m = 5 \/ m = 6
               \/ m = 7 \/ m = 8 \/ m = 9 \/ m = 10 \/ m = 11) by lia.
  unfold monthOfYearDay.
  repeat destruct Hc as [->|Hc]; try subst m; cbn [monthStart daysInMonth] in *;
    repeat split_ltb; lia.
Qed.

Lemma monthStart_end leap m :
  0 <= leap <= 1 -> 0 <= m <= 11 ->
  0 <= monthStart leap m /\ monthStart leap m + daysInMonth leap m <= 365 + leap.
Proof.
  intros Hl Hm.
  assert (Hc : m = 0 \/ m = 1 \/ m = 2 \/ m = 3 \/ m = 4 \/ m = 5 \/ m = 6
               \/ m = 7 \/ m = 8 \/ m = 9 \/ m = 10 \/ m = 11) by lia.
  repeat destruct Hc as [->|Hc]; try subst m; cbn [monthStart daysInMonth]; lia.
Qed.

Lemma MonthFromDay_range d : 0 <= MonthFromDay d <= 11.
Proof.
  unfold MonthFromDay. apply monthOfYearDay_spec; [apply leapDays_range|].
  apply DayWithinYear_range.
Qed.

Lemma DateFromDay_range d :
  1 <= DateFromDay d <= daysInMonth (leapDays (YearFromDay d)) (MonthFromDay d).
Proof.
  unfold DateFromDay, MonthFromDay. apply monthOfYearDay_spec; [apply leapDays_range|].
  apply DayWithinYear_range.
Qed.

Lemma daysInMonth_max leap m : 0 <= leap <= 1 -> 28 <= daysInMonth leap m <= 31.
Proof.
  intros H. unfold daysInMonth.
  destruct m as [|p|p]; try lia.
  repeat (destruct p as [p|p|]; try lia).
Qed.

(** A month inside a year needs no carry. *)
Lemma MakeDay_plain y m dt :
  0 <= m <= 11 ->
  MakeDay y m dt = DayFromYear y + monthStart (leapDays y) m + dt - 1.
Proof.
  intros Hm. unfold MakeDay.
  rewrite Z.div_small by lia. rewrite Z.mod_small by lia.
  rewrite Z.add_0_r. reflexivity.
Qed.

(** Day to calendar fields and back. *)
Lemma MakeDay_of_fields d : MakeDay (YearFromDay d) (MonthFromDay d) (DateFromDay d) = d.
Proof.
  rewrite MakeDay_plain by apply MonthFromDay_range.
  unfold DateFromDay, DayWithinYear. lia.
Qed.

(** Calendar fields to day and back. *)
Lemma fields_of_MakeDay y m dt :
  0 <= m <= 11 -> 1 <= dt <= daysInMonth (leapDays y) m ->
  YearFromDay (MakeDay y m dt) = y
  /\ MonthFromDay (MakeDay y m dt) = m
  /\ DateFromDay (MakeDay y m dt) = dt.
Proof.
  intros Hm Hd. rewrite MakeDay_plain by exact Hm.
  pose proof (leapDays_range y) as Hl.
  pose proof (monthStart_end (leapDays y) m Hl Hm) as Hs.
  assert (Hy : YearFromDay (DayFromYear y + monthStart (leapDays y) m + dt - 1) = y).
  { apply YearFromDay_unique. rewrite DayFromYear_succ. unfold DaysInYear. lia. }
  assert (Hn : DayWithinYear (DayFromYear y + monthStart (leapDays y) m + dt - 1)
               = monthStart (leapDays y) m + dt - 1).
  { unfold DayWithinYear. rewrite Hy. lia. }
  assert (Hmo : MonthFromDay (DayFromYear y + monthStart (leapDays y) m + dt - 1) = m).
  { unfold MonthFromDay. rewrite Hy, Hn. apply monthOfYearDay_start; assumption. }
  split; [exact Hy|]. split; [exact Hmo|].
  unfold DateFromDay. rewrite Hy, Hn, Hmo. lia.
Qed.

Lemma Day_of_midnight d : Day (d * msPerDay) = d.
Proof. unfold Day, msPerDay. apply Z.div_mul. lia. Qed.

Lemma Day_shift t n : Day (t + n * msPerDay) = Day t + n.
Proof. unfold Day, msPerDay. apply Z.div_add. lia. Qed.

Lemma TimeWithinDay_range t : 0 <= TimeWithinDay t < msPerDay.
Proof. unfold TimeWithinDay, msPerDay. apply Z.mod_pos_bound. lia. Qed.

Lemma Day_decompose t : t = Day t * msPerDay + TimeWithinDay t.
Proof.
  unfold Day, TimeWithinDay. pose proof (Z.div_mod t msPerDay). unfold msPerDay in *. lia.
Qed.

(** *** Digits and the ISO text *)

Lemma digitVal_digitChar k : 0 <= k <= 9 -> digitVal (digitChar k) = Some k.
Proof.
  intros H.
  assert (Hc : k = 0 \/ k = 1 \/ k = 2 \/ k = 3 \/ k = 4 \/ k = 5 \/ k = 6
               \/ k = 7 \/ k = 8 \/ k = 9) by lia.
  repeat destruct Hc as [->|Hc]; try subst k; reflexivity.
Qed.

Lemma digitChar_not k c :
  0 <= k <= 9 -> (nat_of_ascii c < 48 \/ 57 < nat_of_ascii c)%nat ->
  (digitChar k =? c)%char = false.
Proof.
  intros H Hc. apply Ascii.eqb_neq. intros <-.
  assert (Hk : k = 0 \/ k = 1 \/ k = 2 \/ k = 3 \/ k = 4 \/ k = 5 \/ k = 6
               \/ k = 7 \/ k = 8 \/ k = 9) by lia.
  repeat destruct Hk as [->|Hk]; try subst k; cbv in Hc; lia.
Qed.

Lemma mod10_digit z : 0 <= z mod 10 <= 9.
Proof. pose proof (Z.mod_pos_bound z 10). lia. Qed.

Lemma num2_padDigits z :
  0 <= z <= 99 ->
  num2 (digitChar (z / 10 mod 10)) (digitChar (z mod 10)) = Some z.
Proof.
  intros H. unfold num2.
  rewrite !digitVal_digitChar by apply mod10_digit.
  f_equal. Z.div_mod_to_equations. lia.
Qed.

Lemma num3_padDigits z :
  0 <= z <= 999 ->
  num3 (digitChar (z / 10 / 10 mod 10)) (digitChar (z / 10 mod 10)) (digitChar (z mod 10))
  = Some z.
Proof.
  intros H. unfold num3, num2.
  rewrite !digitVal_digitChar by apply mod10_digit.
  f_equal. Z.div_mod_to_equations. lia.
Qed.

Lemma num4_padDigits z :
  0 <= z <= 9999 ->
  num4 (digitChar (z / 10 / 10 / 10 mod 10)) (digitChar (z / 10 / 10 mod 10))
       (digitChar (z / 10 mod 10)) (digitChar (z mod 10))
  = Some z.
Proof.
  intros H. unfold num4, num2.
  rewrite !digitVal_digitChar by apply mod10_digit.
  f_equal. Z.div_mod_to_equations. lia.
Qed.

Lemma parseClock_isoClock t :
  parseClock (isoClock t) = Some (TimeWithinDay t).
Proof.
  unfold isoClock. cbn [padDigits]. unfold parseClock.
  change ((":" =? ":")%char) with true. change (("." =? ".")%char) with true.
  change (("Z" =? "Z")%char) with true. cbn [andb].
  assert (Hh : 0 <= HourFromTime t <= 23)
    by (unfold HourFromTime; pose proof (Z.mod_pos_bound (t / 3600000) 24); lia).
  assert (Hm : 0 <= MinFromTime t <= 59)
    by (unfold MinFromTime; pose proof (Z.mod_pos_bound (t / 60000) 60); lia).
  assert (Hs : 0 <= SecFromTime t <= 59)
    by (unfold SecFromTime; pose proof (Z.mod_pos_bound (t / 1000) 60); lia).
  assert (Hf : 0 <= msFromTime t <= 999)
    by (unfold msFromTime; pose proof (Z.mod_pos_bound t 1000); lia).
  rewrite !num2_padDigits by lia. rewrite num3_padDigits by lia.
  destruct (HourFromTime t <=? 23) eqn:E1; [|apply Z.leb_gt in E1; lia].
  destruct (MinFromTime t <=? 59) eqn:E2; [|apply Z.leb_gt in E2; lia].
  destruct (SecFromTime t <=? 59) eqn:E3; [|apply Z.leb_gt in E3; lia].
  cbn [andb]. f_equal.
  unfold MakeTime, HourFromTime, MinFromTime, SecFromTime, msFromTime, TimeWithinDay, msPerDay.
  Z.div_mod_to_equations. lia.
Qed.

Lemma parseIso_isoDate y m dt rest :
  0 <= y <= 9999 -> 1 <= m <= 12 -> 1 <= dt <= daysInMonth (leapDays y) (m - 1) ->
  parseIso (isoDate y m dt rest)
  = match rest with
    | EmptyString => Some (MakeDate (MakeDay y (m - 1) dt) 0)
    | String c clock =>
      if (c =? "T")%char then
        match parseClock clock with
        | Some ms => Some (MakeDate (MakeDay y (m - 1) dt) ms)
        | None => None
        end
      else None
    end.
Proof.
  intros Hy Hm Hd. unfold isoDate, isoYear.
  destruct ((0 <=? y) && (y <=? 9999)) eqn:E;
    [|apply andb_false_iff in E; destruct E as [E|E]; apply Z.leb_gt in E; lia].
  cbn [padDigits]. unfold parseIso.
  change (("-" =? "-")%char) with true. cbn [andb].
  pose proof (daysInMonth_max (leapDays y) (m - 1) (leapDays_range y)) as Hmax.
  rewrite num4_padDigits by lia. rewrite !num2_padDigits by lia.
  destruct (1 <=? m) eqn:E1; [|apply Z.leb_gt in E1; lia].
  destruct (m <=? 12) eqn:E2; [|apply Z.leb_gt in E2; lia].
  destruct (1 <=? dt) eqn:E3; [|apply Z.leb_gt in E3; lia].
  destruct (dt <=? daysInMonth (leapDays y) (m - 1)) eqn:E4; [|apply Z.leb_gt in E4; lia].
  reflexivity.
Qed.

Lemma fourDigitDay_year d : fourDigitDay d -> 0 <= YearFromDay d <= 9999.
Proof.
  intros [H1 H2]. pose proof (YearFromDay_spec d) as S.
  split.
  - destruct (Z_le_gt_dec 0 (YearFromDay d)) as [L|G]; [exact L|].
    pose proof (DayFromYear_mono (YearFromDay d + 1) 0 ltac:(lia)). lia.
  - destruct (Z_le_gt_dec (YearFromDay d) 9999) as [L|G]; [exact L|].
    pose proof (DayFromYear_mono 10000 (YearFromDay d) ltac:(lia)). lia.
Qed.

Lemma parseIso_isoDay d :
  fourDigitDay d -> parseIso (isoDay d) = Some (d * msPerDay).
Proof.
  intros H. unfold isoDay.
  pose proof (MonthFromDay_range d) as Hm. pose proof (DateFromDay_range d) as Hd.
  rewrite parseIso_isoDate;
    [| apply fourDigitDay_year; exact H | lia
     | replace (MonthFromDay d + 1 - 1) with (MonthFromDay d) by lia; exact Hd].
  replace (MonthFromDay d + 1 - 1) with (MonthFromDay d) by lia.
  rewrite MakeDay_of_fields. unfold MakeDate. f_equal. lia.
Qed.

Lemma parseIso_isoString t :
  fourDigitDay (Day t) -> parseIso (isoString t) = Some t.
Proof.
  intros H. unfold isoString, YearFromTime, MonthFromTime, DateFromTime.
  pose proof (MonthFromDay_range (Day t)) as Hm.
  pose proof (DateFromDay_range (Day t)) as Hd.
  rewrite parseIso_isoDate;
    [| apply fourDigitDay_year; exact H | lia
     | replace (MonthFromDay (Day t) + 1 - 1) with (MonthFromDay (Day t)) by lia; exact Hd].
  change (("T" =? "T")%char) with true. cbv iota.
  rewrite parseClock_isoClock.
  replace (MonthFromDay (Day t) + 1 - 1) with (MonthFromDay (Day t)) by lia.
  rewrite MakeDay_of_fields. unfold MakeDate. f_equal.
  pose proof (Day_decompose t). lia.
Qed.

Lemma DayFromYear_0 : DayFromYear 0 = -719528.
Proof. reflexivity. Qed.
Lemma DayFromYear_100 : DayFromYear 100 = -683003.
Proof. reflexivity. Qed.
Lemma DayFromYear_10000 : DayFromYear 10000 = 2932897.
Proof. reflexivity. Qed.

Lemma TimeClip_fourDigit t : fourDigitDay (Day t) -> TimeClip t = Some t.
Proof.
  unfold fourDigitDay. rewrite DayFromYear_0, DayFromYear_10000. intros H.
  unfold TimeClip.
  destruct (Z.abs t <=? 8640000000000000) eqn:E; [reflexivity|].
  apply Z.leb_gt in E. pose proof (Day_decompose t) as Hd.
  pose proof (TimeWithinDay_range t). unfold msPerDay in *. lia.
Qed.

Lemma splitHead_isoDate y m d clock :
  splitHead "T" (isoDate y m d (String "T" clock)) = isoDate y m d "".
Proof.
  assert (HT : (nat_of_ascii "T" < 48 \/ 57 < nat_of_ascii "T")%nat) by (cbv; lia).
  unfold isoDate, isoYear.
  destruct ((0 <=? y) && (y <=? 9999)); [|destruct (y <? 0)];
    cbn [padDigits splitHead];
    rewrite !digitChar_not by (first [apply mod10_digit | exact HT]);
    reflexivity.
Qed.

Lemma splitHead_isoString t : splitHead "T" (isoString t) = isoDay (Day t).
Proof. unfold isoString, isoDay. apply splitHead_isoDate. Qed.

Lemma isoDate_cons y m d rest : exists c r, isoDate y m d rest = String c r.
Proof.
  unfold isoDate, isoYear.
  destruct ((0 <=? y) && (y <=? 9999)); cbn [padDigits]; eauto.
Qed.

Section NodeDates.

Variable tz : Z.
Variable otherParse : string -> option Z.

Lemma parse_isoDay d :
  fourDigitDay d -> parse otherParse (isoDay d) = Some (d * msPerDay).
Proof.
  intros H. unfold parse. rewrite parseIso_isoDay by exact H.
  apply TimeClip_fourDigit. rewrite Day_of_midnight. exact H.
Qed.

Lemma parse_isoString t :
  fourDigitDay (Day t) -> parse otherParse (isoString t) = Some t.
Proof.
  intros H. unfold parse. rewrite parseIso_isoString by exact H.
  apply TimeClip_fourDigit. exact H.
Qed.

(** What [toGscDate] makes of a string that is given. *)
Lemma toGscDate_parsed s t :
  s <> EmptyString -> parse otherParse s = Some t ->
  toGscDate otherParse (Some s) = isoDay (Day t).
Proof.
  intros Hs Hp. unfold toGscDate, ofString. destruct s as [|c r]; [congruence|].
  rewrite Hp. apply splitHead_isoString.
Qed.

Lemma toGscDate_unparsed s :
  parse otherParse s = None -> toGscDate otherParse (Some s) = EmptyString.
Proof.
  intros Hp. unfold toGscDate, ofString. destruct s as [|c r]; [reflexivity|].
  rewrite Hp. reflexivity.
Qed.

Lemma toGscDate_isoString t :
  fourDigitDay (Day t) -> toGscDate otherParse (Some (isoString t)) = isoDay (Day t).
Proof.
  intros H. apply toGscDate_parsed; [|apply parse_isoString; exact H].
  destruct (isoDate_cons (YearFromTime t) (MonthFromTime t + 1) (DateFromTime t)
              (String "T" (isoClock t))) as [c [r E]].
  unfold isoString. rewrite E. discriminate.
Qed.

(** [setDate] moves a date by whole days, whatever the zone. *)
Lemma setDate_shift t0 dt :
  setDate (fixedZone tz) (Some t0) (Some dt)
  = TimeClip (t0 + (dt - DateFromTime (LocalTime (fixedZone tz) t0)) * msPerDay).
Proof.
  unfold setDate, LocalTime, UTC, MakeDate, fixedZone.
  unfold YearFromTime, MonthFromTime, DateFromTime.
  f_equal.
  pose proof (MakeDay_of_fields (Day (t0 + tz))) as Hm.
  assert (H : MakeDay (YearFromDay (Day (t0 + tz))) (MonthFromDay (Day (t0 + tz))) dt
              = Day (t0 + tz) + (dt - DateFromDay (Day (t0 + tz)))).
  { unfold MakeDay in *. lia. }
  rewrite H. pose proof (Day_decompose (t0 + tz)). lia.
Qed.

Lemma shiftDays_isoDay d n :
  fourDigitDay d -> fourDigitDay (d + n) ->
  shiftDays (fixedZone tz) otherParse (isoDay d) (Some n) = Normal (isoDay (d + n)).
Proof.
  intros Hd Hn. unfold shiftDays, ofString. rewrite parse_isoDay by exact Hd.
  cbn [getDate option_map]. rewrite setDate_shift.
  replace (d * msPerDay
           + (DateFromTime (LocalTime (fixedZone tz) (d * msPerDay)) + n
              - DateFromTime (LocalTime (fixedZone tz) (d * msPerDay))) * msPerDay)
    with ((d + n) * msPerDay) by lia.
  rewrite TimeClip_fourDigit by (rewrite Day_of_midnight; exact Hn).
  cbn [toISOString bindC].
  rewrite toGscDate_isoString by (rewrite Day_of_midnight; exact Hn).
  rewrite Day_of_midnight. reflexivity.
Qed.

Lemma fourDigitDay_of_year d : 0 <= YearFromDay d <= 9999 -> fourDigitDay d.
Proof.
  intros H. pose proof (YearFromDay_spec d) as S. unfold fourDigitDay. split.
  - pose proof (DayFromYear_mono 0 (YearFromDay d) ltac:(lia)). lia.
  - pose proof (DayFromYear_mono (YearFromDay d + 1) 10000 ltac:(lia)). lia.
Qed.

Lemma YearFromDay_ge d y : DayFromYear y <= d -> y <= YearFromDay d.
Proof.
  intros H. pose proof (YearFromDay_spec d) as S.
  destruct (Z_le_gt_dec y (YearFromDay d)) as [L|G]; [exact L|].
  pose proof (DayFromYear_mono (YearFromDay d + 1) y ltac:(lia)). lia.
Qed.

(** The local calendar day of a date, made a UTC midnight by [Date.UTC]. *)
Lemma Date_UTC_local t :
  100 <= YearFromDay (Day (t + tz)) ->
  fourDigitDay (Day (t + tz)) ->
  Date_UTC (getFullYear (fixedZone tz) (Some t)) (getMonth (fixedZone tz) (Some t)) (getDate (fixedZone tz) (Some t))
  = Some (Day (t + tz) * msPerDay).
Proof.
  intros Hy Hd.
  unfold Date_UTC, getFullYear, getMonth, getDate, option_map, LocalTime, fixedZone.
  unfold YearFromTime, MonthFromTime, DateFromTime.
  destruct ((0 <=? YearFromDay (Day (t + tz))) && (YearFromDay (Day (t + tz)) <=? 99)) eqn:E.
  { apply andb_true_iff in E. destruct E as [_ E]. apply Z.leb_le in E. lia. }
  rewrite MakeDay_of_fields. unfold MakeDate, MakeTime.
  replace (Day (t + tz) * msPerDay + (0 * 3600000 + 0 * 60000 + 0 * 1000 + 0))
    with (Day (t + tz) * msPerDay) by lia.
  apply TimeClip_fourDigit. rewrite Day_of_midnight. exact Hd.
Qed.

Lemma Day_midnight_local d :
  - msPerDay <= tz < msPerDay ->
  d - 1 <= Day (d * msPerDay + tz) <= d.
Proof.
  intros H. unfold Day. rewrite Z.div_add_l by (unfold msPerDay; lia).
  unfold msPerDay in *. Z.div_mod_to_equations. lia.
Qed.

Lemma Day_midnight_local_diff a b :
  Day (b * msPerDay + tz) - Day (a * msPerDay + tz) = b - a.
Proof.
  unfold Day. rewrite !Z.div_add_l by (unfold msPerDay; lia). lia.
Qed.

Lemma daysInclusive_isoDay a b :
  - msPerDay <= tz < msPerDay ->
  DayFromYear 100 < a < DayFromYear 10000 ->
  DayFromYear 100 < b < DayFromYear 10000 ->
  daysInclusive (fixedZone tz) otherParse (isoDay a) (isoDay b) = Some (b - a + 1).
Proof.
  intros Htz Ha Hb.
  assert (H0 : DayFromYear 0 <= DayFromYear 100) by (apply DayFromYear_mono; lia).
  pose proof (Day_midnight_local a Htz) as La.
  pose proof (Day_midnight_local b Htz) as Lb.
  unfold daysInclusive, ofString.
  rewrite !parse_isoDay by (unfold fourDigitDay; lia).
  rewrite !Date_UTC_local;
    try (apply YearFromDay_ge; lia); try (unfold fourDigitDay; lia).
  f_equal.
  replace (Day (b * msPerDay + tz) * msPerDay - Day (a * msPerDay + tz) * msPerDay)
    with ((Day (b * msPerDay + tz) - Day (a * msPerDay + tz)) * msPerDay) by lia.
  rewrite Day_midnight_local_diff.
  change (24 * 60 * 60 * 1000) with msPerDay.
  rewrite Z.div_mul by (unfold msPerDay; lia). reflexivity.
Qed.

(** [setMonth] keeps the local date and time of day and carries months
    over years; a date past the end of the month carries on as well. *)
Lemma setMonth_shift t0 m :
  setMonth (fixedZone tz) (Some t0) (Some m)
  = TimeClip (MakeDay (YearFromDay (Day (t0 + tz))) m (DateFromDay (Day (t0 + tz)))
                * msPerDay + TimeWithinDay (t0 + tz) - tz).
Proof.
  unfold setMonth, LocalTime, UTC, MakeDate, YearFromTime, DateFromTime, fixedZone.
  reflexivity.
Qed.

Lemma setFullYear_shift t0 y :
  setFullYear (fixedZone tz) (Some t0) (Some y)
  = TimeClip (MakeDay y (MonthFromDay (Day (t0 + tz))) (DateFromDay (Day (t0 + tz)))
                * msPerDay + TimeWithinDay (t0 + tz) - tz).
Proof.
  unfold setFullYear, LocalTime, UTC, MakeDate, MonthFromTime, DateFromTime, fixedZone.
  reflexivity.
Qed.

Lemma MakeDay_carry y m dt :
  MakeDay y m dt = MakeDay (y + m / 12) (m mod 12) dt.
Proof.
  rewrite (MakeDay_plain (y + m / 12)) by (pose proof (Z.mod_pos_bound m 12); lia).
  reflexivity.
Qed.

Lemma same_day_time t :
  Day (t + tz) = Day t -> TimeWithinDay (t + tz) - tz = TimeWithinDay t.
Proof.
  intros H. pose proof (Day_decompose (t + tz)). pose proof (Day_decompose t). lia.
Qed.

Lemma Day_of_parts d r : 0 <= r < msPerDay -> Day (d * msPerDay + r) = d.
Proof.
  intros H. unfold Day. rewrite Z.div_add_l by (unfold msPerDay; lia).
  rewrite Z.div_small by exact H. lia.
Qed.

End NodeDates.

(** * Date ranges *)

Section RangeFacts.

Variable tz : Z.
Variable otherParse : string -> option Z.

Lemma rangeFromPreset_days now mode customStart customEnd e n :
  presetEnd otherParse now customEnd = Some e ->
  (mode = "last7d" /\ n = 7) \/ (mode = "last28d" /\ n = 28) ->
  fourDigitDay (Day e) -> fourDigitDay (Day e - n) ->
  rangeFromPreset (fixedZone tz) otherParse now mode customStart customEnd
  = Normal {| startDate := isoDay (Day e - n); endDate := isoDay (Day e) |}.
Proof.
  intros He Hm Hd Hn. unfold rangeFromPreset. rewrite He.
  assert (Hs : Day (e + - n * msPerDay) = Day e - n) by (rewrite Day_shift; lia).
  assert (Hgoal :
    (si <- toISOString
             (setDate (fixedZone tz) (Some e)
                (option_map (fun d => d - n) (getDate (fixedZone tz) (Some e)))) ;;
     ei <- toISOString (Some e) ;;
     Normal {| startDate := toGscDate otherParse (Some si);
               endDate := toGscDate otherParse (Some ei) |})
    = Normal {| startDate := isoDay (Day e - n); endDate := isoDay (Day e) |}).
  { cbn [getDate option_map]. rewrite setDate_shift.
    replace (e + (DateFromTime (LocalTime (fixedZone tz) e) - n - DateFromTime (LocalTime (fixedZone tz) e)) * msPerDay)
      with (e + - n * msPerDay) by lia.
    rewrite TimeClip_fourDigit by (rewrite Hs; exact Hn).
    cbn [toISOString bindC].
    rewrite !toGscDate_isoString by (rewrite ?Hs; assumption).
    rewrite Hs. reflexivity. }
  destruct Hm as [[-> ->]|[-> ->]];
    cbn [String.eqb Ascii.eqb Bool.eqb negb]; exact Hgoal.
Qed.

Lemma rangeFromPreset_months now mode customStart customEnd e n y m dt :
  presetEnd otherParse now customEnd = Some e ->
  (mode = "last3mo" /\ n = 3) \/ (mode = "last12mo" /\ n = 12) ->
  fourDigitDay (Day e) ->
  Day (e + tz) = Day e ->
  monthsBefore n (Day e) = (y, m, dt) ->
  0 <= y -> dt <= daysInMonth (leapDays y) m ->
  rangeFromPreset (fixedZone tz) otherParse now mode customStart customEnd
  = Normal {| startDate := isoDate y (m + 1) dt ""; endDate := isoDay (Day e) |}.
Proof.
  intros He Hm Hd Hl Hb Hy Hdt. unfold rangeFromPreset. rewrite He.
  unfold monthsBefore in Hb. injection Hb as Hy' Hm' Hdt'.
  pose proof (MonthFromDay_range (Day e)) as Rm.
  pose proof (DateFromDay_range (Day e)) as Rd.
  pose proof (fourDigitDay_year _ Hd) as Ry.
  assert (Hn : 0 <= n) by (destruct Hm as [[_ ->]|[_ ->]]; lia).
  assert (Rm' : 0 <= m <= 11) by (subst m; pose proof (Z.mod_pos_bound (MonthFromDay (Day e) - n) 12); lia).
  assert (Ry' : y <= 9999).
  { subst y. assert ((MonthFromDay (Day e) - n) / 12 <= 0); [|lia].
    Z.div_mod_to_equations. lia. }
  assert (Hday : MakeDay (YearFromDay (Day e)) (MonthFromDay (Day e) - n) (DateFromDay (Day e))
                 = MakeDay y m dt)
    by (rewrite MakeDay_carry; subst; reflexivity).
  destruct (fields_of_MakeDay y m dt Rm' ltac:(lia)) as [Fy [Fm Fd]].
  assert (Hnew : Day (MakeDay y m dt * msPerDay + TimeWithinDay e) = MakeDay y m dt)
    by (apply Day_of_parts, TimeWithinDay_range).
  assert (H4 : fourDigitDay (MakeDay y m dt))
    by (apply fourDigitDay_of_year; rewrite Fy; lia).
  assert (Hgoal :
    (si <- toISOString
             (setMonth (fixedZone tz) (Some e)
                (option_map (fun m0 => m0 - n) (getMonth (fixedZone tz) (Some e)))) ;;
     ei <- toISOString (Some e) ;;
     Normal {| startDate := toGscDate otherParse (Some si);
               endDate := toGscDate otherParse (Some ei) |})
    = Normal {| startDate := isoDate y (m + 1) dt ""; endDate := isoDay (Day e) |}).
  { cbn [getMonth option_map]. rewrite setMonth_shift.
    unfold LocalTime, MonthFromTime, fixedZone. rewrite Hl, Hday.
    replace (MakeDay y m dt * msPerDay + TimeWithinDay (e + tz) - tz)
      with (MakeDay y m dt * msPerDay + TimeWithinDay e)
      by (pose proof (same_day_time tz e Hl); lia).
    rewrite TimeClip_fourDigit by (rewrite Hnew; exact H4).
    cbn [toISOString bindC].
    rewrite !toGscDate_isoString by (rewrite ?Hnew; assumption).
    rewrite Hnew. unfold isoDay. rewrite Fy, Fm, Fd. reflexivity. }
  destruct Hm as [[-> ->]|[-> ->]];
    cbn [String.eqb Ascii.eqb Bool.eqb negb]; exact Hgoal.
Qed.

Lemma shiftYears_back y m dt :
  0 <= tz < msPerDay ->
  1 <= y <= 9999 -> 0 <= m <= 11 ->
  1 <= dt <= daysInMonth (leapDays y) m ->
  dt <= daysInMonth (leapDays (y - 1)) m ->
  shiftYears (fixedZone tz) otherParse (isoDate y (m + 1) dt "") (Some (-1))
  = Normal (isoDate (y - 1) (m + 1) dt "").
Proof.
  intros Htz Hy Hm Hd Hd'.
  destruct (fields_of_MakeDay y m dt Hm Hd) as [Fy [Fm Fd]].
  destruct (fields_of_MakeDay (y - 1) m dt Hm ltac:(lia)) as [Gy [Gm Gd]].
  assert (H4 : fourDigitDay (MakeDay y m dt))
    by (apply fourDigitDay_of_year; rewrite Fy; lia).
  assert (G4 : fourDigitDay (MakeDay (y - 1) m dt))
    by (apply fourDigitDay_of_year; rewrite Gy; lia).
  assert (Hp : parse otherParse (isoDate y (m + 1) dt "") = Some (MakeDay y m dt * msPerDay)).
  { unfold parse. rewrite parseIso_isoDate;
      [| lia | lia | replace (m + 1 - 1) with m by lia; exact Hd].
    replace (m + 1 - 1) with m by lia. unfold MakeDate. rewrite Z.add_0_r.
    apply TimeClip_fourDigit. rewrite Day_of_midnight. exact H4. }
  assert (Hl : Day (MakeDay y m dt * msPerDay + tz) = MakeDay y m dt)
    by (apply Day_of_parts; lia).
  assert (Ht : TimeWithinDay (MakeDay y m dt * msPerDay + tz) = tz).
  { pose proof (Day_decompose (MakeDay y m dt * msPerDay + tz)). lia. }
  unfold shiftYears, ofString. rewrite Hp.
  cbn [getFullYear option_map]. rewrite setFullYear_shift.
  unfold LocalTime, YearFromTime, fixedZone. rewrite Hl, Ht, Fy, Fm, Fd.
  replace (MakeDay (y + -1) m dt * msPerDay + tz - tz)
    with (MakeDay (y - 1) m dt * msPerDay) by (replace (y + -1) with (y - 1) by lia; lia).
  rewrite TimeClip_fourDigit by (rewrite Day_of_midnight; exact G4).
  cbn [toISOString bindC].
  rewrite toGscDate_isoString by (rewrite Day_of_midnight; exact G4).
  rewrite Day_of_midnight. unfold isoDay. rewrite Gy, Gm, Gd. reflexivity.
Qed.

End RangeFacts.

(** X2: on a host whose zone has a constant offset from UTC, for a range A
    from day [a] to day [b], both written [YYYY-MM-DD] (after year 0100,
    where [Date.UTC] stops reading a year as 19xx), whose preceding period
    still starts in year 0000 or later, the previous-period policy returns
    the range B that ends the day before A starts and starts
    [lengthOf a b - 1] days before its own end.  For 2024-03-01..2024-03-10
    that is 2024-02-20..2024-02-29 (the witness below). *)
Theorem buildCompareRanges_prevPeriod
    (tz : Z) (otherParse : string -> option Z) (now a b : Z)
    (customB : option CustomRange) :
  - msPerDay <= tz < msPerDay ->
  DayFromYear 100 < a -> a <= b -> b < DayFromYear 10000 ->
  DayFromYear 0 <= a - 1 - (lengthOf a b - 1) ->
  buildCompareRanges (fixedZone tz) otherParse now "prevPeriod"
    {| startDate := isoDay a; endDate := isoDay b |} customB
  = Normal ({| startDate := isoDay a; endDate := isoDay b |},
            {| startDate := isoDay (a - 1 - (lengthOf a b - 1));
               endDate := isoDay (a - 1) |}).
Proof.
  intros Htz Ha Hab Hb Hs. unfold lengthOf in *.
  assert (H0 : DayFromYear 0 <= DayFromYear 100) by (apply DayFromYear_mono; lia).
  unfold buildCompareRanges. cbn [String.eqb Ascii.eqb Bool.eqb startDate endDate].
  rewrite daysInclusive_isoDay by lia.
  rewrite shiftDays_isoDay by (unfold fourDigitDay; lia).
  cbn [bindC option_map].
  rewrite shiftDays_isoDay by (unfold fourDigitDay; lia).
  cbn [bindC].
  replace (a + -1 + - (b - a + 1 - 1)) with (a - 1 - (b - a + 1 - 1)) by lia.
  replace (a + -1) with (a - 1) by lia. reflexivity.
Qed.

Lemma buildCompareRanges_prevPeriod_witness :
  buildCompareRanges utc noOtherDates 0 "prevPeriod"
    {| startDate := "2024-03-01"; endDate := "2024-03-10" |} None
  = Normal ({| startDate := "2024-03-01"; endDate := "2024-03-10" |},
            {| startDate := "2024-02-20"; endDate := "2024-02-29" |}).
Proof.
  exact (buildCompareRanges_prevPeriod 0 noOtherDates 0 19783 19792 None
           ltac:(unfold msPerDay; lia) ltac:(reflexivity) ltac:(lia)
           ltac:(reflexivity) ltac:(vm_compute; discriminate)).
Defined.

(** C4: on a host that keeps the rules of America/New_York the
    previous-period policy sends 2024-11-10..2024-11-16, seven days, to
    2024-11-02..2024-11-09, eight days: the start is moved on the local
    clock, across the end of daylight time, and printed in UTC. *)
Theorem buildCompareRanges_prevPeriod_across_dst :
  buildCompareRanges newYork2024 noOtherDates 0 "prevPeriod"
    {| startDate := "2024-11-10"; endDate := "2024-11-16" |} None
  = Normal ({| startDate := "2024-11-10"; endDate := "2024-11-16" |},
            {| startDate := "2024-11-02"; endDate := "2024-11-09" |}).
Proof. vm_compute. reflexivity. Qed.

(** C6: on a host whose zone has a constant offset from UTC, in a preset
    mode the range ends on the UTC day of the end instant [e] (the clock,
    or [customEnd] when one is given).  For the day presets it starts 7 or
    28 days before.  For the month presets it starts on the same date 3 or
    12 calendar months before, years carried, provided that date exists in
    the month reached and the local calendar day of [e] is its UTC day. *)
Theorem rangeFromPreset_presets
    (tz : Z) (otherParse : string -> option Z) (now : Z) (mode : string)
    (customStart customEnd : option string) (e : Z) :
  presetEnd otherParse now customEnd = Some e ->
  fourDigitDay (Day e) ->
  (forall n,
      (mode = "last7d" /\ n = 7) \/ (mode = "last28d" /\ n = 28) ->
      fourDigitDay (Day e - n) ->
      rangeFromPreset (fixedZone tz) otherParse now mode customStart customEnd
      = Normal {| startDate := isoDay (Day e - n); endDate := isoDay (Day e) |})
  /\ (forall n y m dt,
      (mode = "last3mo" /\ n = 3) \/ (mode = "last12mo" /\ n = 12) ->
      Day (e + tz) = Day e ->
      monthsBefore n (Day e) = (y, m, dt) ->
      0 <= y -> dt <= daysInMonth (leapDays y) m ->
      rangeFromPreset (fixedZone tz) otherParse now mode customStart customEnd
      = Normal {| startDate := isoDate y (m + 1) dt ""; endDate := isoDay (Day e) |}).
Proof.
  intros He Hd. split.
  - intros n Hm Hn. eapply rangeFromPreset_days; eassumption.
  - intros n y m dt Hm Hl Hb Hy Hdt. eapply rangeFromPreset_months; eassumption.
Qed.

Lemma rangeFromPreset_presets_witness :
  rangeFromPreset utc noOtherDates 0 "last7d" (Some "") (Some "2024-03-10")
  = Normal {| startDate := "2024-03-03"; endDate := "2024-03-10" |}
  /\ rangeFromPreset utc noOtherDates 0 "last3mo" (Some "") (Some "2024-01-15")
     = Normal {| startDate := "2023-10-15"; endDate := "2024-01-15" |}.
Proof.
  split.
  - exact (proj1 (rangeFromPreset_presets 0 noOtherDates 0 "last7d" (Some "")
                    (Some "2024-03-10") 1710028800000 eq_refl
                    ltac:(vm_compute; split; [discriminate|reflexivity]))
             7 (or_introl (conj eq_refl eq_refl))
             ltac:(vm_compute; split; [discriminate|reflexivity])).
  - exact (proj2 (rangeFromPreset_presets 0 noOtherDates 0 "last3mo" (Some "")
                    (Some "2024-01-15") 1705276800000 eq_refl
                    ltac:(vm_compute; split; [discriminate|reflexivity]))
             3 2023 9 15 (or_introl (conj eq_refl eq_refl)) eq_refl eq_refl
             ltac:(lia) ltac:(vm_compute; discriminate)).
Defined.

(** C6, as stated, fails.  From 2024-05-31 the last three months start on
    2024-03-02, in March and not in February, the date 31 having carried
    over; five hours west of UTC the three months that end on 2024-03-01
    start on 2023-11-30, in November and not in December; and under the
    rules of America/New_York the seven days that end on 2024-11-09 start
    on 2024-11-01, eight days before. *)
Lemma rangeFromPreset_presets_off_calendar :
  (rangeFromPreset utc noOtherDates 0 "last3mo" (Some "") (Some "2024-05-31")
   = Normal {| startDate := "2024-03-02"; endDate := "2024-05-31" |}
   /\ isoDay 19784 = "2024-03-02" /\ isoDay 19874 = "2024-05-31"
   /\ monthsBefore 3 19874 = (2024, 1, 31)
   /\ MonthFromDay 19784 <> 1)
  /\ (rangeFromPreset (fixedZone utcMinus5) noOtherDates 0 "last3mo" (Some "")
        (Some "2024-03-01")
      = Normal {| startDate := "2023-11-30"; endDate := "2024-03-01" |}
      /\ isoDay 19691 = "2023-11-30" /\ isoDay 19783 = "2024-03-01"
      /\ monthsBefore 3 19783 = (2023, 11, 1)
      /\ MonthFromDay 19691 <> 11)
  /\ (rangeFromPreset newYork2024 noOtherDates 0 "last7d" (Some "") (Some "2024-11-09")
      = Normal {| startDate := "2024-11-01"; endDate := "2024-11-09" |}
      /\ isoDay 20028 = "2024-11-01" /\ isoDay 20036 = "2024-11-09"
      /\ 20028 <> 20036 - 7).
Proof. vm_compute. repeat split; discriminate. Qed.

(** C7: on a host five hours west of UTC the previous-year policy sends
    2024-03-01..2024-03-10 to 2023-03-02..2023-03-10: the start is not the
    same month and day one year earlier. *)
Theorem buildCompareRanges_prevYear_west_of_utc :
  buildCompareRanges (fixedZone utcMinus5) noOtherDates 0 "prevYear"
    {| startDate := "2024-03-01"; endDate := "2024-03-10" |} None
  = Normal ({| startDate := "2024-03-01"; endDate := "2024-03-10" |},
            {| startDate := "2023-03-02"; endDate := "2023-03-10" |}).
Proof. vm_compute. reflexivity. Qed.

(** X1: on a host at or east of UTC, for dates that exist in their own
    year and in the year before, the previous-year policy returns the same
    months and days one year earlier. *)
Theorem buildCompareRanges_prevYear_utc_or_east
    (tz : Z) (otherParse : string -> option Z) (now : Z)
    (y1 m1 d1 y2 m2 d2 : Z) (customB : option CustomRange) :
  0 <= tz < msPerDay ->
  plainDate y1 m1 d1 -> plainDate y2 m2 d2 ->
  buildCompareRanges (fixedZone tz) otherParse now "prevYear"
    {| startDate := isoDate y1 (m1 + 1) d1 ""; endDate := isoDate y2 (m2 + 1) d2 "" |}
    customB
  = Normal ({| startDate := isoDate y1 (m1 + 1) d1 "";
               endDate := isoDate y2 (m2 + 1) d2 "" |},
            {| startDate := isoDate (y1 - 1) (m1 + 1) d1 "";
               endDate := isoDate (y2 - 1) (m2 + 1) d2 "" |}).
Proof.
  intros Htz [Hy1 [Hm1 [Hd1 He1]]] [Hy2 [Hm2 [Hd2 He2]]].
  unfold buildCompareRanges. cbn [String.eqb Ascii.eqb Bool.eqb startDate endDate].
  rewrite !shiftYears_back by assumption. reflexivity.
Qed.

Lemma buildCompareRanges_prevYear_utc_or_east_witness :
  buildCompareRanges utc noOtherDates 0 "prevYear"
    {| startDate := "2024-03-01"; endDate := "2024-03-10" |} None
  = Normal ({| startDate := "2024-03-01"; endDate := "2024-03-10" |},
            {| startDate := "2023-03-01"; endDate := "2023-03-10" |}).
Proof.
  exact (buildCompareRanges_prevYear_utc_or_east 0 noOtherDates 0 2024 2 1 2024 2 10 None
           ltac:(unfold msPerDay; lia)
           ltac:(unfold plainDate; vm_compute; intuition discriminate)
           ltac:(unfold plainDate; vm_compute; intuition discriminate)).
Defined.

Section CustomRange.

Variable zone : Z -> bool -> Z.
Variable otherParse : string -> option Z.

Lemma rangeFromPreset_custom now start end_ :
  rangeFromPreset zone otherParse now "custom" start end_
  = defaultedRange otherParse now start end_.
Proof. reflexivity. Qed.

Lemma defaultedRange_both now s e :
  defaultedRange otherParse now (Some s) (Some e)
  = Normal {| startDate := toGscDate otherParse (Some s);
              endDate := toGscDate otherParse (Some e) |}.
Proof. unfold defaultedRange. destruct s, e; reflexivity. Qed.

Lemma defaultedRange_no_end now s :
  fourDigitDay (Day now) ->
  defaultedRange otherParse now (Some s) None
  = Normal {| startDate := toGscDate otherParse (Some s); endDate := isoDay (Day now) |}.
Proof.
  intros H. unfold defaultedRange. cbn [bindC toISOString].
  rewrite toGscDate_isoString by exact H. destruct s; reflexivity.
Qed.

Lemma Day_minus_28 t : Day (t - msPer28Days) = Day t - 28.
Proof.
  replace (t - msPer28Days) with (t + (-28) * msPerDay)
    by (unfold msPer28Days, msPerDay; lia).
  rewrite Day_shift. lia.
Qed.

Lemma defaultedRange_no_start now e te :
  e <> EmptyString -> parse otherParse e = Some te ->
  fourDigitDay (Day te - 28) ->
  defaultedRange otherParse now None (Some e)
  = Normal {| startDate := isoDay (Day te - 28); endDate := isoDay (Day te) |}.
Proof.
  intros He Hp H. unfold defaultedRange. destruct e as [|c r]; [congruence|].
  unfold ofString at 1. rewrite Hp. cbn [getTime option_map ofNumber].
  rewrite TimeClip_fourDigit by (rewrite Day_minus_28; exact H).
  cbn [bindC toISOString].
  rewrite toGscDate_isoString by (rewrite Day_minus_28; exact H).
  rewrite Day_minus_28.
  rewrite (toGscDate_parsed otherParse (String c r) te) by (auto; discriminate).
  reflexivity.
Qed.

Lemma defaultedRange_neither now :
  fourDigitDay (Day now) -> fourDigitDay (Day now - 28) ->
  defaultedRange otherParse now None None
  = Normal {| startDate := isoDay (Day now - 28); endDate := isoDay (Day now) |}.
Proof.
  intros H H'. unfold defaultedRange. cbn [getTime option_map ofNumber].
  rewrite TimeClip_fourDigit by (rewrite Day_minus_28; exact H').
  cbn [bindC toISOString].
  rewrite !toGscDate_isoString by (rewrite ?Day_minus_28; assumption).
  rewrite Day_minus_28. reflexivity.
Qed.

End CustomRange.

(** C3: in custom mode a side given as a non-empty string is used, as the
    UTC day of the date it parses to, and is the empty string when it does
    not parse; with both sides so given the call does not fail.  A side
    that is absent takes its default: today for [endDate], and for
    [startDate] the day 28 days before the end instant, when the end is
    absent or parses. *)
Theorem rangeFromPreset_custom_sides
    (zone : Z -> bool -> Z) (otherParse : string -> option Z) (now : Z) :
  ((forall s t, s <> EmptyString -> parse otherParse s = Some t ->
                toGscDate otherParse (Some s) = isoDay (Day t))
   /\ (forall s, s <> EmptyString -> parse otherParse s = None ->
                 toGscDate otherParse (Some s) = EmptyString))
  /\ (forall s e,
        s <> EmptyString -> e <> EmptyString ->
        rangeFromPreset zone otherParse now "custom" (Some s) (Some e)
        = Normal {| startDate := toGscDate otherParse (Some s);
                    endDate := toGscDate otherParse (Some e) |})
  /\ (forall s,
        s <> EmptyString -> fourDigitDay (Day now) ->
        rangeFromPreset zone otherParse now "custom" (Some s) None
        = Normal {| startDate := toGscDate otherParse (Some s);
                    endDate := isoDay (Day now) |})
  /\ (forall e te,
        e <> EmptyString -> parse otherParse e = Some te ->
        fourDigitDay (Day te - 28) ->
        rangeFromPreset zone otherParse now "custom" None (Some e)
        = Normal {| startDate := isoDay (Day te - 28); endDate := isoDay (Day te) |})
  /\ (fourDigitDay (Day now) -> fourDigitDay (Day now - 28) ->
      rangeFromPreset zone otherParse now "custom" None None
      = Normal {| startDate := isoDay (Day now - 28); endDate := isoDay (Day now) |}).
Proof.
  split; [split|split; [|split; [|split]]].
  - apply toGscDate_parsed.
  - intros s _. apply toGscDate_unparsed.
  - intros s e _ _. rewrite rangeFromPreset_custom. apply defaultedRange_both.
  - intros s _ Hn. rewrite rangeFromPreset_custom. apply defaultedRange_no_end. exact Hn.
  - intros e te He Hp Hd. rewrite rangeFromPreset_custom.
    eapply defaultedRange_no_start; eassumption.
  - intros Hn Hd. rewrite rangeFromPreset_custom. apply defaultedRange_neither; assumption.
Qed.

Lemma rangeFromPreset_custom_sides_witness :
  rangeFromPreset utc noOtherDates noon20240310 "custom" None None
  = Normal {| startDate := "2024-02-11"; endDate := "2024-03-10" |}
  /\ rangeFromPreset utc noOtherDates noon20240310 "custom" None (Some "2024-03-01")
     = Normal {| startDate := "2024-02-02"; endDate := "2024-03-01" |}
  /\ rangeFromPreset utc noOtherDates noon20240310 "custom" (Some "2024-03-01") None
     = Normal {| startDate := "2024-03-01"; endDate := "2024-03-10" |}
  /\ rangeFromPreset utc noOtherDates noon20240310 "custom"
       (Some "2024-03-01") (Some "2024-03-10")
     = Normal {| startDate := "2024-03-01"; endDate := "2024-03-10" |}.
Proof.
  pose proof (rangeFromPreset_custom_sides utc noOtherDates noon20240310)
    as [_ [Hb [Hs [He Hn]]]].
  split; [|split; [|split]].
  - exact (Hn ltac:(vm_compute; split; [discriminate|reflexivity])
              ltac:(vm_compute; split; [discriminate|reflexivity])).
  - exact (He "2024-03-01" 1709251200000 ltac:(discriminate) eq_refl
              ltac:(vm_compute; split; [discriminate|reflexivity])).
  - exact (Hs "2024-03-01" ltac:(discriminate)
              ltac:(vm_compute; split; [discriminate|reflexivity])).
  - exact (Hb "2024-03-01" "2024-03-10" ltac:(discriminate) ltac:(discriminate)).
Defined.

(** C3, as stated, fails: an end that does not parse becomes the empty
    string, not today, and with the start absent as well the call throws. *)
Lemma rangeFromPreset_custom_unparseable_end :
  parse noOtherDates "not a date" = None
  /\ isoDay (Day noon20240310) = "2024-03-10"
  /\ rangeFromPreset utc noOtherDates noon20240310 "custom"
       (Some "2024-03-01") (Some "not a date")
     = Normal {| startDate := "2024-03-01"; endDate := "" |}
  /\ rangeFromPreset utc noOtherDates noon20240310 "custom" None (Some "not a date")
     = Throw (RangeError "Invalid time value").
Proof. vm_compute. repeat split. Qed.

(** * The paginated fetch *)

Lemma len_app {A : Type} (l1 l2 : list A) : len (l1 ++ l2) = len l1 + len l2.
Proof. unfold len. rewrite List.length_app. lia. Qed.

Lemma len_nonneg {A : Type} (l : list A) : 0 <= len l.
Proof. unfold len. lia. Qed.

Lemma len_cons {A : Type} (a : A) (l : list A) : len (a :: l) = 1 + len l.
Proof. unfold len. simpl List.length. lia. Qed.

Lemma slice0_length {A : Type} (l : list A) (n : Z) :
  0 <= n -> len (slice0 l n) <= n.
Proof.
  intros Hn. unfold slice0.
  destruct (0 <=? n) eqn:E; [|apply Z.leb_gt in E; lia].
  unfold len. pose proof (List.firstn_le_length (Z.to_nat n) l). lia.
Qed.

Lemma slice0_all {A : Type} (l : list A) (n : Z) :
  len l <= n -> slice0 l n = l.
Proof.
  intros H. unfold slice0. pose proof (len_nonneg l).
  destruct (0 <=? n) eqn:E; [|apply Z.leb_gt in E; lia].
  apply List.firstn_all2. unfold len in *. lia.
Qed.

Lemma perRequestOf_range (body : QueryBody) : 100 <= perRequestOf body <= 25000.
Proof. unfold perRequestOf. lia. Qed.

Section FetchFacts.

Variable World : Type.
Variable http : World -> Request -> Completion Response * World.
Variable siteUrl : string.
Variable body : QueryBody.
Variable targetLimit perRequest : Z.

Local Abbreviation loop := (fetchLoop World http siteUrl body targetLimit perRequest).
Local Abbreviation turn := (nextPage World http siteUrl body targetLimit perRequest).
Local Abbreviation turns := (reaches World http siteUrl body targetLimit perRequest).
Local Abbreviation exit := (leaves World http siteUrl body targetLimit perRequest).

(** One turn of the loop, as the source writes it. *)
Lemma fetchLoop_turn w collected startRow :
  loop w collected startRow =
  if len collected <? targetLimit then
    match http w (pageRequest siteUrl body perRequest startRow) with
    | (Throw e, w') => (Throw e, w')
    | (Normal resp, w') =>
      match chunkOf resp with
      | [] => (Normal collected, w')
      | c :: cs =>
        if len (c :: cs) <? perRequest then (Normal (collected ++ c :: cs), w')
        else if targetLimit <=? len (collected ++ c :: cs)
             then (Normal (collected ++ c :: cs), w')
             else loop w' (collected ++ c :: cs) (startRow + len (c :: cs))
      end
    end
  else (Normal collected, w).
Proof.
  rewrite fetchLoop_equation_1.
  destruct (Z_lt_dec (len collected) targetLimit) as [L|L].
  - destruct (len collected <? targetLimit) eqn:E; [|apply Z.ltb_ge in E; lia].
    simpl.
    destruct (http w _) as [[resp|e] w']; simpl; [|reflexivity].
    destruct (chunkOf resp); simpl; reflexivity.
  - destruct (len collected <? targetLimit) eqn:E; [apply Z.ltb_lt in E; lia|].
    reflexivity.
Qed.

Lemma nextPage_loop w c s w' c' s' :
  turn (w, c, s) (w', c', s') -> loop w c s = loop w' c' s'.
Proof.
  intros H. inversion H; subst. rewrite fetchLoop_turn.
  destruct (len c <? targetLimit) eqn:E; [|apply Z.ltb_ge in E; lia].
  match goal with Hq : http _ _ = _ |- _ => rewrite Hq end.
  destruct (chunkOf resp) as [|x xs] eqn:Ec; [congruence|].
  destruct (len (x :: xs) <? perRequest) eqn:E1; [apply Z.ltb_lt in E1; lia|].
  destruct (targetLimit <=? len (c ++ x :: xs)) eqn:E2; [apply Z.leb_le in E2; lia|].
  reflexivity.
Qed.

Lemma reaches_loop s1 s2 :
  turns s1 s2 ->
  loop (fst (fst s1)) (snd (fst s1)) (snd s1)
  = loop (fst (fst s2)) (snd (fst s2)) (snd s2).
Proof.
  induction 1 as [s|[[w c] s] [[w' c'] s'] s3 Hn _ IH]; [reflexivity|].
  simpl in *. rewrite <- IH. apply nextPage_loop. exact Hn.
Qed.

Lemma nextPage_grows s1 s2 : turn s1 s2 -> len (snd (fst s1)) < len (snd (fst s2)).
Proof.
  intros H. inversion H; subst. simpl. rewrite len_app.
  destruct (chunkOf resp) as [|x xs]; [congruence|].
  rewrite len_cons. pose proof (len_nonneg xs). lia.
Qed.

Lemma nextPage_below s1 s2 : turn s1 s2 -> len (snd (fst s2)) < targetLimit.
Proof. intros H. inversion H; subst. simpl. assumption. Qed.

Lemma leaves_loop w c s r : exit (w, c, s) r -> loop w c s = r.
Proof.
  intros H. rewrite fetchLoop_turn.
  inversion H; subst;
    (destruct (len c <? targetLimit) eqn:E;
     [apply Z.ltb_lt in E | apply Z.ltb_ge in E]); try lia; try reflexivity;
    match goal with Hq : http _ _ = _ |- _ => rewrite Hq end; try reflexivity.
  - match goal with Hc : chunkOf _ = [] |- _ => rewrite Hc end. reflexivity.
  - destruct (chunkOf resp) as [|x xs] eqn:Ec; [congruence|].
    destruct (len (x :: xs) <? perRequest) eqn:E1; [reflexivity|apply Z.ltb_ge in E1; lia].
  - destruct (chunkOf resp) as [|x xs] eqn:Ec; [congruence|].
    destruct (len (x :: xs) <? perRequest) eqn:E1; [reflexivity|].
    destruct (targetLimit <=? len (c ++ x :: xs)) eqn:E2;
      [reflexivity|apply Z.leb_gt in E2; lia].
Qed.

(** Every turn either leaves the loop or goes round again. *)
Lemma leaves_or_nextPage w c s :
  (exists r, exit (w, c, s) r) \/ (exists s', turn (w, c, s) s').
Proof.
  destruct (Z_lt_dec (len c) targetLimit) as [L|L].
  2:{ left. eexists. apply leaves_target. lia. }
  destruct (http w (pageRequest siteUrl body perRequest s)) as [[resp|e] w'] eqn:Hq.
  2:{ left. eexists. eapply leaves_error; eauto. }
  destruct (chunkOf resp) as [|x xs] eqn:Ec.
  { left. eexists. eapply leaves_empty; eauto. }
  assert (Hne : chunkOf resp <> []) by congruence.
  destruct (Z_lt_dec (len (chunkOf resp)) perRequest) as [S1|S1].
  { left. eexists. eapply leaves_short; eauto. }
  destruct (Z_le_dec targetLimit (len (c ++ chunkOf resp))) as [S2|S2].
  { left. eexists. eapply leaves_reached; eauto. lia. }
  right. eexists. eapply nextPage_intro; eauto; lia.
Qed.

(** A page request that fails, after any number of pages, ends the loop
    with that error in the world the failed request left. *)
Lemma fetchLoop_page_error s0 w collected startRow e w' :
  turns s0 (w, collected, startRow) ->
  len collected < targetLimit ->
  http w (pageRequest siteUrl body perRequest startRow) = (Throw e, w') ->
  loop (fst (fst s0)) (snd (fst s0)) (snd s0) = (Throw e, w').
Proof.
  intros Hr Hl Hq. rewrite (reaches_loop _ _ Hr). simpl.
  apply leaves_loop. apply leaves_error; assumption.
Qed.

End FetchFacts.

Section Counting.

Variable World : Type.
Variable http : World -> Request -> Completion Response * World.
Variable siteUrl : string.
Variable body : QueryBody.
Variable targetLimit perRequest : Z.

Local Abbreviation plain := (fetchLoop World http siteUrl body targetLimit perRequest).

(** The loop over a counting remote does what it does over the remote, and
    counts at most one request for each row still missing. *)
Lemma fetchLoop_counting (m : nat) :
  forall w n collected startRow,
    (Z.to_nat (targetLimit - len collected) <= m)%nat ->
    exists k : nat,
      fetchLoop (World * nat) (counting http) siteUrl body targetLimit perRequest
                (w, n) collected startRow
      = (fst (plain w collected startRow), (snd (plain w collected startRow), (n + k)%nat))
      /\ Z.of_nat k <= Z.max 0 (targetLimit - len collected).
Proof.
  induction m as [|m IH]; intros w n collected startRow Hm;
    rewrite (fetchLoop_turn (World * nat)), (fetchLoop_turn World);
    destruct (len collected <? targetLimit) eqn:E;
    try (apply Z.ltb_lt in E); try (apply Z.ltb_ge in E);
    try (exists 0%nat; simpl; rewrite Nat.add_0_r; split; [reflexivity|lia]);
    try lia.
  unfold counting at 1. simpl fst. simpl snd.
  destruct (http w _) as [[resp|e] w'].
  2:{ exists 1%nat. simpl. rewrite Nat.add_1_r. split; [reflexivity|lia]. }
  destruct (chunkOf resp) as [|c cs] eqn:Ec.
  { exists 1%nat. simpl. rewrite Nat.add_1_r. split; [reflexivity|lia]. }
  destruct (len (c :: cs) <? perRequest).
  { exists 1%nat. simpl. rewrite Nat.add_1_r. split; [reflexivity|lia]. }
  destruct (targetLimit <=? len (collected ++ c :: cs)) eqn:E2.
  { exists 1%nat. simpl. rewrite Nat.add_1_r. split; [reflexivity|lia]. }
  apply Z.leb_gt in E2.
  assert (Hg : len (collected ++ c :: cs) = len collected + 1 + len cs)
    by (rewrite len_app, len_cons; lia).
  pose proof (len_nonneg cs) as Hcs.
  destruct (IH w' (S n) (collected ++ c :: cs) (startRow + len (c :: cs))) as [k [Hk Hb]];
    [lia|].
  exists (S k). split; [rewrite Hk; f_equal; f_equal; lia | lia].
Qed.

End Counting.

(** C9: [fetchAllRows] terminates for every target and every remote.  Each
    turn of its loop either leaves the loop (target reached, error, empty
    page, short page) or goes round again with strictly more rows collected,
    still fewer than [targetLimit]; and run against the remote wrapped to
    count requests it returns the same result having made at most
    [targetLimit] requests (none when [targetLimit] is not positive). *)
Theorem fetchAllRows_terminates_within_targetLimit
    (World : Type) (http : World -> Request -> Completion Response * World)
    (w : World) (siteUrl : string) (body : QueryBody) (targetLimit : Z) :
  (forall s1,
      (exists r, leaves World http siteUrl body targetLimit (perRequestOf body) s1 r)
      \/ (exists s2, nextPage World http siteUrl body targetLimit (perRequestOf body) s1 s2))
  /\ (forall s1 s2,
      nextPage World http siteUrl body targetLimit (perRequestOf body) s1 s2 ->
      len (snd (fst s1)) < len (snd (fst s2)) < targetLimit)
  /\ exists result w' (requests : nat),
      fetchAllRows World http w siteUrl body targetLimit = (result, w')
      /\ fetchAllRows (World * nat) (counting http) (w, O) siteUrl body targetLimit
         = (result, (w', requests))
      /\ Z.of_nat requests <= Z.max 0 targetLimit.
Proof.
  split; [|split].
  - intros [[w1 c1] st1]. apply leaves_or_nextPage.
  - intros s1 s2 H. split; [eapply nextPage_grows | eapply nextPage_below]; eassumption.
  - unfold fetchAllRows.
    destruct (fetchLoop_counting World http siteUrl body targetLimit (perRequestOf body)
                (Z.to_nat (targetLimit - len (@nil GscQueryRow))) w O [] 0 (le_n _))
      as [k [Hk Hb]].
    rewrite Hk.
    destruct (fetchLoop World http siteUrl body targetLimit (perRequestOf body) w [] 0)
      as [[collected|e] w']; simpl.
    + exists (Normal (slice0 collected targetLimit)), w', k.
      repeat split; try reflexivity. unfold len in Hb. simpl in Hb. lia.
    + exists (Throw e), w', k.
      repeat split; try reflexivity. unfold len in Hb. simpl in Hb. lia.
Qed.

Lemma fetchAllRows_terminates_within_targetLimit_witness :
  len (@nil GscQueryRow) < len (firstn 100 rows250) < 1000.
Proof.
  refine (proj1 (proj2 (fetchAllRows_terminates_within_targetLimit nat (mockSource rows250)
                          O "sc-domain:example.com" (sampleBody (Some 100)) 1000))
            (O, [], 0) (1%nat, firstn 100 rows250, 100) _).
  exact (nextPage_intro nat (mockSource rows250) "sc-domain:example.com"
           (sampleBody (Some 100)) 1000 (perRequestOf (sampleBody (Some 100)))
           O [] 0
           {| rows := Some (firstn 100 rows250); siteEntry := None;
              inspectionResult := None |}
           1%nat eq_refl eq_refl ltac:(discriminate)
           ltac:(vm_compute; discriminate) eq_refl).
Defined.

(** C1: for [targetLimit >= 0], the rows [fetchAllRows] returns are the
    first [targetLimit] of the rows its loop collected, so at most
    [targetLimit] of them. *)
Theorem fetchAllRows_at_most_targetLimit
    (World : Type) (http : World -> Request -> Completion Response * World)
    (w : World) (siteUrl : string) (body : QueryBody) (targetLimit : Z) :
  0 <= targetLimit ->
  forall rs w',
    fetchAllRows World http w siteUrl body targetLimit = (Normal rs, w') ->
    len rs <= targetLimit
    /\ exists collected,
         fetchLoop World http siteUrl body targetLimit (perRequestOf body) w [] 0
         = (Normal collected, w')
         /\ rs = firstn (Z.to_nat targetLimit) collected.
Proof.
  intros Hn rs w' H. unfold fetchAllRows in H.
  destruct (fetchLoop World http siteUrl body targetLimit (perRequestOf body) w [] 0)
    as [[collected|e] w1]; [|discriminate].
  injection H as <- <-. split; [apply slice0_length; exact Hn|].
  exists collected. split; [reflexivity|].
  unfold slice0. destruct (0 <=? targetLimit) eqn:E; [reflexivity|apply Z.leb_gt in E; lia].
Qed.

Lemma fetchAllRows_at_most_targetLimit_witness :
  0 <= 120
  /\ fetchAllRows nat (mockSource rows250) O "sc-domain:example.com"
       (sampleBody (Some 100)) 120
     = (Normal (firstn 120 rows250), 2%nat)
  /\ len (firstn 120 rows250) <= 120.
Proof.
  assert (H0 : 0 <= 120) by lia.
  assert (Hf : fetchAllRows nat (mockSource rows250) O "sc-domain:example.com"
                 (sampleBody (Some 100)) 120
               = (Normal (firstn 120 rows250), 2%nat))
    by (vm_compute; reflexivity).
  split; [exact H0|]. split; [exact Hf|].
  exact (proj1 (fetchAllRows_at_most_targetLimit nat (mockSource rows250) O
                  "sc-domain:example.com" (sampleBody (Some 100)) 120 H0
                  (firstn 120 rows250) 2%nat Hf)).
Defined.

Lemma firstn_then_firstn_skipn {A : Type} (j p : nat) (l : list A) :
  firstn j l ++ firstn p (skipn j l) = firstn (j + p) l.
Proof.
  revert l. induction j as [|j IH]; intros l; [reflexivity|].
  destruct l as [|a l]; simpl; [destruct p; reflexivity|].
  f_equal. apply IH.
Qed.

Section MockSource.

Variable data : list GscQueryRow.
Variable siteUrl : string.
Variable body : QueryBody.
Variable targetLimit : Z.
Hypothesis fewer : len data < targetLimit.

Local Abbreviation per := (perRequestOf body).

Lemma mockSource_loop (m : nat) :
  forall (j served : nat),
    (List.length data - j <= m)%nat ->
    (j <= List.length data)%nat ->
    fetchLoop nat (mockSource data) siteUrl body targetLimit per
              served (firstn j data) (Z.of_nat j)
    = (Normal data,
       (served + Z.to_nat ((len data - Z.of_nat j) / per) + 1)%nat).
Proof.
  pose proof (perRequestOf_range body) as Hper.
  induction m as [|m IH]; intros j served Hm Hj;
    rewrite fetchLoop_turn;
    (assert (Hlen : len (firstn j data) = Z.of_nat j)
       by (unfold len; rewrite List.length_firstn; lia));
    rewrite Hlen;
    (destruct (Z.of_nat j <? targetLimit) eqn:E;
       [clear E | apply Z.ltb_ge in E; unfold len in fewer; lia]);
    unfold mockSource, pageRequest, pageBody; cbn [q_rowLimit chunkOf rows];
    rewrite Nat2Z.id;
    set (p := Z.to_nat per);
    (assert (Hp : (100 <= p)%nat) by (subst p; lia));
    (destruct (firstn p (skipn j data)) as [|c cs] eqn:Ec).
  - (* nothing left to read, empty page *)
    assert (j = List.length data) by lia. subst j.
    rewrite List.firstn_all. f_equal. unfold len.
    replace (Z.of_nat (List.length data) - Z.of_nat (List.length data)) with 0 by lia.
    rewrite Z.div_0_l by lia. simpl. lia.
  - (* nothing left to read, yet a row came *)
    assert (j = List.length data) by lia. subst j.
    rewrite List.skipn_all in Ec. destruct p; discriminate.
  - (* empty page *)
    assert (Hs : List.length (firstn p (skipn j data)) = 0%nat) by (rewrite Ec; reflexivity).
    rewrite List.length_firstn, List.length_skipn in Hs.
    assert (j = List.length data) by lia. subst j.
    rewrite List.firstn_all. f_equal. unfold len.
    replace (Z.of_nat (List.length data) - Z.of_nat (List.length data)) with 0 by lia.
    rewrite Z.div_0_l by lia. simpl. lia.
  - (* a page with rows *)
    rewrite <- Ec.
    assert (Hs : List.length (firstn p (skipn j data)) = Nat.min p (List.length data - j))
      by (rewrite List.length_firstn, List.length_skipn; reflexivity).
    assert (Hc : len (firstn p (skipn j data)) = Z.of_nat (Nat.min p (List.length data - j)))
      by (unfold len; rewrite Hs; reflexivity).
    rewrite firstn_then_firstn_skipn.
    rewrite Hc.
    destruct (Z.of_nat (Nat.min p (List.length data - j)) <? per) eqn:E1.
    + (* short page *)
      apply Z.ltb_lt in E1.
      assert (Hlt : (List.length data - j < p)%nat) by lia.
      rewrite List.firstn_all2 by lia. f_equal.
      rewrite Z.div_small by (unfold len; lia). simpl. lia.
    + (* full page *)
      apply Z.ltb_ge in E1.
      assert (Hge : (p <= List.length data - j)%nat) by lia.
      assert (Hl2 : len (firstn (j + p) data) = Z.of_nat (j + p))
        by (unfold len; rewrite List.length_firstn; lia).
      rewrite Hl2.
      destruct (targetLimit <=? Z.of_nat (j + p)) eqn:E2;
        [apply Z.leb_le in E2; unfold len in fewer; lia|].
      replace (Z.of_nat j + Z.of_nat (Nat.min p (List.length data - j)))
        with (Z.of_nat (j + p)) by lia.
      rewrite IH by lia. f_equal.
      assert (Hd : (len data - Z.of_nat j) / per
                   = (len data - Z.of_nat (j + p)) / per + 1).
      { replace (len data - Z.of_nat j) with (len data - Z.of_nat (j + p) + 1 * per)
          by (subst p; lia).
        rewrite Z.div_add by lia. reflexivity. }
      rewrite Hd.
      assert (0 <= (len data - Z.of_nat (j + p)) / per)
        by (apply Z.div_pos; unfold len; lia).
      lia.
Qed.

End MockSource.

(** C2: a source that holds fewer rows than [targetLimit] and serves the
    pages at the size asked for is read to its end: [fetchAllRows] returns
    exactly its rows, after as many full pages as it holds and one more
    request, the first short or empty page.  For 250 rows, a page size of
    100 and a target of 1000 that is 250 rows after 3 requests (the witness
    below). *)
Theorem fetchAllRows_exhausts_small_source
    (data : list GscQueryRow) (siteUrl : string) (body : QueryBody) (targetLimit : Z) :
  len data < targetLimit ->
  fetchAllRows nat (mockSource data) O siteUrl body targetLimit
  = (Normal data, (Z.to_nat (len data / perRequestOf body) + 1)%nat).
Proof.
  intros H. unfold fetchAllRows.
  pose proof (mockSource_loop data siteUrl body targetLimit H (List.length data) O O) as L.
  simpl firstn in L. simpl Z.of_nat in L. rewrite L by lia.
  rewrite slice0_all by lia. f_equal. rewrite Z.sub_0_r. reflexivity.
Qed.

Lemma fetchAllRows_exhausts_small_source_witness :
  len rows250 < 1000 /\
  fetchAllRows nat (mockSource rows250) O "sc-domain:example.com" (sampleBody (Some 100)) 1000
  = (Normal rows250, 3%nat).
Proof.
  split; [reflexivity|].
  exact (fetchAllRows_exhausts_small_source rows250 "sc-domain:example.com"
           (sampleBody (Some 100)) 1000 eq_refl).
Defined.

(** C2, as stated, fails for a source that serves smaller pages than the
    fetch asks for: with the default page size of 1000, a source of 250
    rows that serves 100 rows a page is left after its first page, with
    100 rows. *)
Lemma fetchAllRows_leaves_at_short_page :
  len rows250 = 250
  /\ perRequestOf (sampleBody None) = 1000
  /\ fetchAllRows nat (cappedSource 100 rows250) O "sc-domain:example.com"
       (sampleBody None) 1000
     = (Normal (firstn 100 rows250), 1%nat)
  /\ len (firstn 100 rows250) = 100.
Proof. vm_compute. repeat split. Qed.

(** * Errors in [execute] *)

Section ExecuteFacts.

Variable zone : Z -> bool -> Z.
Variable otherParse : string -> option Z.
Variable World : Type.
Variable http : World -> Request -> Completion Response * World.
Variable clock : World -> Z.

Local Abbreviation St := (ExecState World).
Local Abbreviation fetch := (fetchAllRows World http).

Lemma forEach_push {A : Type} (f : A -> ExecutionData) (l : list A) (st : St) :
  forEach World l (fun a => push World (f a)) st
  = (Normal tt, {| world := world st; returnData := returnData st ++ map f l |}).
Proof.
  revert st. induction l as [|a l IH]; intros st; simpl.
  - unfold ret. rewrite app_nil_r. destruct st; reflexivity.
  - unfold bindE, push at 1. rewrite IH. simpl. rewrite <- app_assoc. reflexivity.
Qed.

Lemma remote_returnData {A : Type} (f : World -> Completion A * World) (st : St) :
  returnData (snd (remote World f st)) = returnData st.
Proof. unfold remote. destruct (f (world st)). reflexivity. Qed.

Lemma opGetSites_throw i (st st' : St) e :
  opGetSites World http i st = (Throw e, st') ->
  returnData st' = returnData st.
Proof.
  unfold opGetSites, bindE, remote. destruct (http (world st) ListSites) as [[resp|e'] w'].
  - unfold pushOk. rewrite forEach_push. discriminate.
  - intros H. injection H as _ <-. reflexivity.
Qed.

Lemma opGetPageInsights_throw i p (st st' : St) e :
  opGetPageInsights zone otherParse World http clock i p st = (Throw e, st') ->
  returnData st' = returnData st.
Proof.
  unfold opGetPageInsights, bindE, liftC, readClock, remote.
  destruct (validateSiteUrlOrThrow _ _) as [siteUrl|e1];
    [|intros H; injection H as _ <-; reflexivity].
  destruct (rangeFromPreset _ _ _ _ _ _) as [range|e1];
    [|intros H; injection H as _ <-; reflexivity].
  destruct (fetch _ _ _ _) as [[rs|e1] w'];
    [|intros H; injection H as _ <-; reflexivity].
  unfold pushOk. rewrite forEach_push. discriminate.
Qed.

Lemma opInspectUrl_throw i p (st st' : St) e :
  opInspectUrl World http i p st = (Throw e, st') ->
  returnData st' = returnData st.
Proof.
  unfold opInspectUrl, bindE, liftC, remote.
  destruct (validateSiteUrlOrThrow _ _) as [siteUrl|e1];
    [|intros H; injection H as _ <-; reflexivity].
  destruct (negb _); [unfold throw; intros H; injection H as _ <-; reflexivity|].
  destruct (http _ _) as [[resp|e1] w'];
    [|intros H; injection H as _ <-; reflexivity].
  unfold pushOk, push. discriminate.
Qed.

Lemma opComparePageInsights_throw i p (st st' : St) e :
  opComparePageInsights zone otherParse World http clock i p st = (Throw e, st') ->
  returnData st' = returnData st.
Proof.
  unfold opComparePageInsights, bindE, liftC, readClock, remote.
  destruct (validateSiteUrlOrThrow _ _) as [siteUrl|e1];
    [|intros H; injection H as _ <-; reflexivity].
  destruct (p_dimensionsCompare p) as [|d ds] eqn:Ed;
    [unfold throw; intros H; injection H as _ <-; reflexivity|].
  destruct (rangeFromPreset _ _ _ _ _ _) as [rangeA|e1];
    [|intros H; injection H as _ <-; reflexivity].
  destruct (buildCompareRanges _ _ _ _ _ _) as [ranges|e1];
    [|intros H; injection H as _ <-; reflexivity].
  cbn [world returnData].
  destruct (fetch _ _ _ _) as [[rowsA|e1] w1];
    [|intros H; injection H as _ <-; reflexivity].
  cbn [world returnData].
  destruct (fetch _ _ _ _) as [[rowsB|e1] w2];
    [|intros H; injection H as _ <-; reflexivity].
  rewrite forEach_push. discriminate.
Qed.

(** Whatever makes the [try] block of an item throw, nothing was pushed
    to [returnData] before. *)
Lemma itemBody_throw i p (st st' : St) e :
  itemBody zone otherParse World http clock i p st = (Throw e, st') ->
  returnData st' = returnData st.
Proof.
  unfold itemBody, when, bindE.
  destruct (p_operation p =? "getSites")%string eqn:E1.
  { apply String.eqb_eq in E1. rewrite E1. cbn [String.eqb Ascii.eqb Bool.eqb].
    destruct (opGetSites World http i st) as [[[]|e1] st1] eqn:Ho.
    - unfold ret. discriminate.
    - intros H. injection H as <- <-. eapply opGetSites_throw; eassumption. }
  unfold ret at 1.
  destruct (p_operation p =? "getPageInsights")%string eqn:E2.
  { apply String.eqb_eq in E2. rewrite E2. cbn [String.eqb Ascii.eqb Bool.eqb].
    destruct (opGetPageInsights _ _ _ _ _ _ _ _) as [[[]|e1] st1] eqn:Ho.
    - unfold ret. discriminate.
    - intros H. injection H as <- <-. eapply opGetPageInsights_throw; eassumption. }
  unfold ret at 1.
  destruct (p_operation p =? "inspectUrl")%string eqn:E3.
  { apply String.eqb_eq in E3. rewrite E3. cbn [String.eqb Ascii.eqb Bool.eqb].
    destruct (opInspectUrl _ _ _ _ _) as [[[]|e1] st1] eqn:Ho.
    - unfold ret. discriminate.
    - intros H. injection H as <- <-. eapply opInspectUrl_throw; eassumption. }
  unfold ret at 1.
  destruct (p_operation p =? "comparePageInsights")%string eqn:E4.
  - apply opComparePageInsights_throw.
  - unfold ret. discriminate.
Qed.

Lemma processItem_of_throw i p (st st' : St) e :
  itemBody zone otherParse World http clock i p st = (Throw e, st') ->
  processItem zone otherParse World http clock i p st
  = if p_continueOnFail p
    then (Normal tt,
          {| world := world st';
             returnData :=
               returnData st
               ++ [{| json := [("error", VString (errorMessage e))]; pairedItem := i |}] |})
    else (Throw e, {| world := world st'; returnData := returnData st |}).
Proof.
  intros H. pose proof (itemBody_throw _ _ _ _ _ H) as Hr.
  unfold processItem, tryCatch. rewrite H. unfold pushErr.
  destruct (p_continueOnFail p).
  - unfold pushOk, push. rewrite Hr. reflexivity.
  - unfold throw. rewrite <- Hr. destruct st'; reflexivity.
Qed.

(** A failed fetch makes the [try] block of a page-insights item throw. *)
Lemma insights_fetch_error i p (st : St) siteUrl range e w' :
  p_operation p = "getPageInsights" ->
  validateSiteUrlOrThrow (insightsSiteUrl p) "page insights" = Normal siteUrl ->
  rangeFromPreset zone otherParse (clock (world st)) (p_dateRangeMode p)
    (Some (p_startDate p)) (Some (p_endDate p)) = Normal range ->
  fetch (world st) siteUrl (insightsBody p range) (p_rowLimit p) = (Throw e, w') ->
  itemBody zone otherParse World http clock i p st
  = (Throw e, {| world := w'; returnData := returnData st |}).
Proof.
  intros Hop Hv Hr Hf. unfold itemBody, when, bindE. rewrite Hop.
  cbn [String.eqb Ascii.eqb Bool.eqb]. unfold ret at 1.
  unfold opGetPageInsights, bindE, liftC, readClock, remote.
  rewrite Hv, Hr, Hf. reflexivity.
Qed.

(** Likewise for a comparison item, whichever of its two fetches fails. *)
Lemma compare_fetch_error i p (st : St) siteUrl rangeA rangeB e w' :
  p_operation p = "comparePageInsights" ->
  validateSiteUrlOrThrow (compareSiteUrl p) "comparison" = Normal siteUrl ->
  p_dimensionsCompare p <> [] ->
  rangeFromPreset zone otherParse (clock (world st))
    (orString (p_dateRangeModeA p) "last28d")
    (Some (p_startDateA p)) (Some (p_endDateA p)) = Normal rangeA ->
  buildCompareRanges zone otherParse (clock (world st)) (compareModeOf p) rangeA
    (customBOf p) = Normal (rangeA, rangeB) ->
  (fetch (world st) siteUrl (compareBody p rangeA) (compareRowLimit p) = (Throw e, w')
   \/ exists rowsA w1,
        fetch (world st) siteUrl (compareBody p rangeA) (compareRowLimit p)
        = (Normal rowsA, w1)
        /\ fetch w1 siteUrl (compareBody p rangeB) (compareRowLimit p) = (Throw e, w')) ->
  itemBody zone otherParse World http clock i p st
  = (Throw e, {| world := w'; returnData := returnData st |}).
Proof.
  intros Hop Hv Hd Hr Hb Hf. unfold itemBody, when, bindE. rewrite Hop.
  cbn [String.eqb Ascii.eqb Bool.eqb]. unfold ret.
  unfold opComparePageInsights, bindE, liftC, readClock, remote.
  rewrite Hv. destruct (p_dimensionsCompare p) as [|d ds] eqn:Ed; [congruence|].
  rewrite Hr, Hb. cbn [snd world returnData].
  destruct Hf as [Hf|[rowsA [w1 [Ha Hf]]]].
  - rewrite Hf. reflexivity.
  - rewrite Ha. cbn [world returnData]. rewrite Hf. reflexivity.
Qed.

Lemma processItems_app i pre post (st : St) :
  processItems zone otherParse World http clock i (pre ++ post) st
  = match processItems zone otherParse World http clock i pre st with
    | (Normal _, st1) =>
      processItems zone otherParse World http clock (i + List.length pre)%nat post st1
    | (Throw e, st1) => (Throw e, st1)
    end.
Proof.
  revert i st. induction pre as [|p pre IH]; intros i st; simpl.
  - unfold ret. rewrite Nat.add_0_r. reflexivity.
  - unfold bindE. destruct (processItem _ _ _ _ _ _ _ _) as [[[]|e] st1]; [|reflexivity].
    rewrite IH. replace (S i + List.length pre)%nat with (i + S (List.length pre))%nat by lia.
    reflexivity.
Qed.

(** An item that rethrows ends [execute] with that error. *)
Lemma execute_rethrows w pre p post (st st' : St) e :
  processItems zone otherParse World http clock O pre {| world := w; returnData := [] |}
  = (Normal tt, st) ->
  processItem zone otherParse World http clock (List.length pre) p st = (Throw e, st') ->
  execute zone otherParse World http clock w (pre ++ p :: post) = (Throw e, world st').
Proof.
  intros Hpre Hp. unfold execute. rewrite processItems_app, Hpre. simpl.
  unfold bindE. rewrite Hp. reflexivity.
Qed.

End ExecuteFacts.

(** C8: a page request that raises ends the whole fetch at once with that
    error, whatever was collected from earlier pages; the [try] block of an
    item that throws has pushed nothing to [returnData]; a fetch that fails
    makes the [try] block of a page-insights or comparison item throw; so
    the item contributes a single record when [continueOnFail] is set,
    whose one property [error] holds the message of the error, and
    otherwise the error is thrown on and [execute] ends with it. *)
Theorem page_error_aborts_item
    (zone : Z -> bool -> Z) (otherParse : string -> option Z) (World : Type)
    (http : World -> Request -> Completion Response * World) (clock : World -> Z) :
  (forall siteUrl body targetLimit w0 w collected startRow e w',
      reaches World http siteUrl body targetLimit (perRequestOf body)
        (w0, [], 0) (w, collected, startRow) ->
      len collected < targetLimit ->
      http w (pageRequest siteUrl body (perRequestOf body) startRow) = (Throw e, w') ->
      fetchAllRows World http w0 siteUrl body targetLimit = (Throw e, w'))
  /\ (forall i p (st st' : ExecState World) e,
      itemBody zone otherParse World http clock i p st = (Throw e, st') ->
      returnData st' = returnData st
      /\ processItem zone otherParse World http clock i p st
         = if p_continueOnFail p
           then (Normal tt,
                 {| world := world st';
                    returnData :=
                      returnData st
                      ++ [{| json := [("error", VString (errorMessage e))];
                             pairedItem := i |}] |})
           else (Throw e, {| world := world st'; returnData := returnData st |}))
  /\ (forall i p (st : ExecState World) siteUrl range e w',
      p_operation p = "getPageInsights" ->
      validateSiteUrlOrThrow (insightsSiteUrl p) "page insights" = Normal siteUrl ->
      rangeFromPreset zone otherParse (clock (world st)) (p_dateRangeMode p)
        (Some (p_startDate p)) (Some (p_endDate p)) = Normal range ->
      fetchAllRows World http (world st) siteUrl (insightsBody p range) (p_rowLimit p)
      = (Throw e, w') ->
      itemBody zone otherParse World http clock i p st
      = (Throw e, {| world := w'; returnData := returnData st |}))
  /\ (forall i p (st : ExecState World) siteUrl rangeA rangeB e w',
      p_operation p = "comparePageInsights" ->
      validateSiteUrlOrThrow (compareSiteUrl p) "comparison" = Normal siteUrl ->
      p_dimensionsCompare p <> [] ->
      rangeFromPreset zone otherParse (clock (world st))
        (orString (p_dateRangeModeA p) "last28d")
        (Some (p_startDateA p)) (Some (p_endDateA p)) = Normal rangeA ->
      buildCompareRanges zone otherParse (clock (world st)) (compareModeOf p) rangeA
        (customBOf p) = Normal (rangeA, rangeB) ->
      (fetchAllRows World http (world st) siteUrl (compareBody p rangeA)
         (compareRowLimit p) = (Throw e, w')
       \/ exists rowsA w1,
            fetchAllRows World http (world st) siteUrl (compareBody p rangeA)
              (compareRowLimit p) = (Normal rowsA, w1)
            /\ fetchAllRows World http w1 siteUrl (compareBody p rangeB)
                 (compareRowLimit p) = (Throw e, w')) ->
      itemBody zone otherParse World http clock i p st
      = (Throw e, {| world := w'; returnData := returnData st |}))
  /\ (forall w pre p post (st st' : ExecState World) e,
      processItems zone otherParse World http clock O pre {| world := w; returnData := [] |}
      = (Normal tt, st) ->
      processItem zone otherParse World http clock (List.length pre) p st = (Throw e, st') ->
      execute zone otherParse World http clock w (pre ++ p :: post) = (Throw e, world st')).
Proof.
  split; [|split; [|split; [|split]]].
  - intros siteUrl body targetLimit w0 w collected startRow e w' Hr Hl Hq.
    pose proof (fetchLoop_page_error World http siteUrl body targetLimit
                  (perRequestOf body) (w0, [], 0) w collected startRow e w' Hr Hl Hq) as H.
    cbn [fst snd] in H. unfold fetchAllRows. rewrite H. reflexivity.
  - intros i p st st' e H. split.
    + eapply itemBody_throw; eassumption.
    + apply processItem_of_throw. exact H.
  - intros. eapply insights_fetch_error; eassumption.
  - intros. eapply compare_fetch_error; eassumption.
  - intros. eapply execute_rethrows; eassumption.
Qed.

Lemma page_error_aborts_item_witness :
  processItem utc noOtherDates nat (failingSource rows3000 1) (fun _ => noon20240310)
    O (compareItem true) {| world := O; returnData := [] |}
  = (Normal tt,
     {| world := 2%nat;
        returnData := [{| json := [("error", VString "401 Unauthorized")];
                          pairedItem := O |}] |})
  /\ execute utc noOtherDates nat (failingSource rows3000 1) (fun _ => noon20240310)
       O [compareItem false]
     = (Throw (RequestError "401 Unauthorized"), 2%nat).
Proof.
  pose proof (page_error_aborts_item utc noOtherDates nat (failingSource rows3000 1)
                (fun _ => noon20240310)) as [_ [Hitem [_ [Hcmp Hexec]]]].
  assert (Hbody : forall c,
    itemBody utc noOtherDates nat (failingSource rows3000 1) (fun _ => noon20240310)
      O (compareItem c) {| world := O; returnData := [] |}
    = (Throw (RequestError "401 Unauthorized"), {| world := 2%nat; returnData := [] |})).
  { intros c.
    apply (Hcmp O (compareItem c) {| world := O; returnData := [] |}
             "sc-domain:example.com"
             {| startDate := "2024-03-03"; endDate := "2024-03-10" |}
             {| startDate := "2024-02-24"; endDate := "2024-03-02" |}).
    - reflexivity.
    - reflexivity.
    - discriminate.
    - vm_compute. reflexivity.
    - vm_compute. reflexivity.
    - left. vm_compute. reflexivity. }
  split.
  - exact (proj2 (Hitem O (compareItem true) _ _ _ (Hbody true))).
  - apply (Hexec O [] (compareItem false) [] {| world := O; returnData := [] |}
             {| world := 2%nat; returnData := [] |}).
    + reflexivity.
    + exact (proj2 (Hitem O (compareItem false) _ _ _ (Hbody false))).
Defined.

(** * Row keys and the join *)

Lemma separable_tail c s : separable (String c s) -> separable s.
Proof.
  unfold separable. simpl. destruct s as [|c' s]; [intros; split; reflexivity|].
  intros [H1 H2]. apply orb_false_iff in H1. destruct H1 as [_ H1]. split; assumption.
Qed.

Lemma append_bars_head (x : string) :
  forall y r r',
    separable x -> separable y ->
    (x ++ "||" ++ r)%string = (y ++ "||" ++ r')%string ->
    x = y /\ r = r'.
Proof.
  induction x as [|c x IH]; intros y r r' Hx Hy H.
  - destruct y as [|c' y]; simpl in H.
    + injection H as ->. split; reflexivity.
    + exfalso. injection H as <- H. destruct y as [|c'' y]; simpl in H.
      * destruct Hy as [_ Hy]. simpl in Hy. discriminate.
      * injection H as <- H. destruct Hy as [Hy _]. simpl in Hy. discriminate.
  - destruct y as [|c' y]; simpl in H.
    + exfalso. injection H as -> H. destruct x as [|c'' x]; simpl in H.
      * destruct Hx as [_ Hx]. simpl in Hx. discriminate.
      * injection H as -> H. destruct Hx as [Hx _]. simpl in Hx. discriminate.
    + injection H as -> H.
      destruct (IH y r r' (separable_tail _ _ Hx) (separable_tail _ _ Hy) H) as [-> ->].
      split; reflexivity.
Qed.

Lemma concat_bars_injective (l1 : list string) :
  forall l2,
    List.length l1 = List.length l2 ->
    Forall separable l1 -> Forall separable l2 ->
    String.concat "||" l1 = String.concat "||" l2 -> l1 = l2.
Proof.
  induction l1 as [|x xs IH]; intros [|y ys] Hl H1 H2 H; try discriminate; [reflexivity|].
  inversion H1 as [|? ? Hx Hxs]; inversion H2 as [|? ? Hy Hys]; subst.
  destruct xs as [|x' xs]; destruct ys as [|y' ys]; try discriminate.
  - simpl in H. subst. reflexivity.
  - change (String.concat "||" (x :: x' :: xs))
      with (x ++ "||" ++ String.concat "||" (x' :: xs))%string in H.
    change (String.concat "||" (y :: y' :: ys))
      with (y ++ "||" ++ String.concat "||" (y' :: ys))%string in H.
    destruct (append_bars_head _ _ _ _ Hx Hy H) as [-> Hr].
    f_equal. apply IH; auto.
Qed.

(** ** Maps and sets *)

Lemma mapKeys_mapSet {V : Type} (m : JsMap V) k v x :
  In x (mapKeys (mapSet m k v)) <-> In x (mapKeys m) \/ x = k.
Proof.
  unfold mapKeys. induction m as [|[k' v'] m IH]; simpl.
  - intuition.
  - destruct (k' =? k)%string eqn:E; simpl.
    + apply String.eqb_eq in E. subst. intuition.
    + rewrite IH. intuition.
Qed.

Lemma mapGet_mapSet_same {V : Type} (m : JsMap V) k v :
  mapGet (mapSet m k v) k = Some v.
Proof.
  induction m as [|[k' v'] m IH]; simpl.
  - rewrite String.eqb_refl. reflexivity.
  - destruct (k' =? k)%string eqn:E; simpl; rewrite E; [reflexivity|exact IH].
Qed.

Lemma mapGet_mapSet_other {V : Type} (m : JsMap V) k v x :
  x <> k -> mapGet (mapSet m k v) x = mapGet m x.
Proof.
  intros Hx. induction m as [|[k' v'] m IH]; simpl.
  - destruct (k =? x)%string eqn:E; [apply String.eqb_eq in E; congruence|reflexivity].
  - destruct (k' =? k)%string eqn:E; simpl.
    + apply String.eqb_eq in E. subst k'.
      destruct (k =? x)%string eqn:E'; [apply String.eqb_eq in E'; congruence|reflexivity].
    + destruct (k' =? x)%string; [reflexivity|exact IH].
Qed.

Lemma mapGet_none_iff {V : Type} (m : JsMap V) x :
  mapGet m x = None <-> ~ In x (mapKeys m).
Proof.
  unfold mapKeys. induction m as [|[k' v'] m IH]; simpl; [intuition|].
  destruct (k' =? x)%string eqn:E.
  - apply String.eqb_eq in E. split; [discriminate|intuition].
  - apply String.eqb_neq in E. rewrite IH. intuition.
Qed.

Section RowsToMap.

Variable dims : list string.

Lemma rowsToMap_fold (rs : list GscQueryRow) :
  forall m x,
    In x (mapKeys (fold_left (fun m r => mapSet m (keyFromRow dims r) r) rs m))
    <-> In x (mapKeys m) \/ exists r, In r rs /\ keyFromRow dims r = x.
Proof.
  induction rs as [|r rs IH]; intros m x; simpl.
  - split; [auto|]. intros [H|[r [[] _]]]. exact H.
  - rewrite IH, mapKeys_mapSet. split.
    + intros [[H|H]|[r' [H1 H2]]]; eauto.
    + intros [H|[r' [[H1|H1] H2]]]; subst; eauto.
Qed.

Lemma rowsToMap_keys (rs : list GscQueryRow) x :
  In x (mapKeys (rowsToMap rs dims)) <-> exists r, In r rs /\ keyFromRow dims r = x.
Proof.
  unfold rowsToMap. rewrite rowsToMap_fold. simpl. intuition.
Qed.

Lemma rowsToMap_fold_get (rs : list GscQueryRow) :
  forall m x r,
    (forall r0, mapGet m x = Some r0 -> keyFromRow dims r0 = x) ->
    mapGet (fold_left (fun m r => mapSet m (keyFromRow dims r) r) rs m) x = Some r ->
    keyFromRow dims r = x.
Proof.
  induction rs as [|r' rs IH]; intros m x r Hm; simpl.
  - apply Hm.
  - apply IH. intros r0.
    destruct (string_dec x (keyFromRow dims r')) as [->|Hn].
    + rewrite mapGet_mapSet_same. intros H. injection H as <-. reflexivity.
    + rewrite mapGet_mapSet_other by exact Hn. apply Hm.
Qed.

Lemma rowsToMap_in (rs : list GscQueryRow) :
  forall m x r,
    mapGet (fold_left (fun m r => mapSet m (keyFromRow dims r) r) rs m) x = Some r ->
    mapGet m x = Some r \/ In r rs.
Proof.
  induction rs as [|r' rs IH]; intros m x r H; simpl in *; [auto|].
  apply IH in H. destruct H as [H|H]; [|auto].
  destruct (string_dec x (keyFromRow dims r')) as [->|Hn].
  - rewrite mapGet_mapSet_same in H. injection H as <-. auto.
  - rewrite mapGet_mapSet_other in H by exact Hn. auto.
Qed.

(** The row a map holds under a key has that key. *)
Lemma rowsToMap_get (rs : list GscQueryRow) x r :
  mapGet (rowsToMap rs dims) x = Some r -> keyFromRow dims r = x.
Proof.
  unfold rowsToMap. apply rowsToMap_fold_get. simpl. discriminate.
Qed.

End RowsToMap.

Lemma setAdd_In s k x : In x (setAdd s k) <-> In x s \/ x = k.
Proof.
  induction s as [|y s IH]; simpl; [intuition|].
  destruct (y =? k)%string eqn:E; simpl.
  - apply String.eqb_eq in E. subst. intuition.
  - rewrite IH. intuition.
Qed.

Lemma setAdd_NoDup s k : NoDup s -> NoDup (setAdd s k).
Proof.
  induction s as [|y s IH]; simpl; intros H.
  - constructor; [intros []|constructor].
  - destruct (y =? k)%string eqn:E; [exact H|].
    apply String.eqb_neq in E. inversion H; subst. constructor; [|auto].
    rewrite setAdd_In. intros [Hi|He]; [contradiction|congruence].
Qed.

Lemma newSet_fold l : forall s x,
  In x (fold_left setAdd l s) <-> In x s \/ In x l.
Proof.
  induction l as [|k l IH]; intros s x; simpl; [intuition|].
  rewrite IH, setAdd_In. intuition.
Qed.

Lemma newSet_fold_NoDup l : forall s, NoDup s -> NoDup (fold_left setAdd l s).
Proof.
  induction l as [|k l IH]; intros s H; simpl; [exact H|].
  apply IH, setAdd_NoDup, H.
Qed.

Lemma newSet_In l x : In x (newSet l) <-> In x l.
Proof. unfold newSet. rewrite newSet_fold. simpl. intuition. Qed.

Lemma newSet_NoDup l : NoDup (newSet l).
Proof. apply newSet_fold_NoDup. constructor. Qed.

Lemma getProp_replaceProp_same (o : JsObject) k v :
  getProp o k <> None -> getProp (replaceProp o k v) k = Some v.
Proof.
  induction o as [|[k' v'] o IH]; simpl; [congruence|].
  destruct (k' =? k)%string eqn:E; simpl; rewrite E; [reflexivity|exact IH].
Qed.

Lemma getProp_replaceProp_other (o : JsObject) k v x :
  (k =? x)%string = false -> getProp (replaceProp o k v) x = getProp o x.
Proof.
  intros Hx. induction o as [|[k' v'] o IH]; simpl; [reflexivity|].
  destruct (k' =? k)%string eqn:E; simpl.
  - apply String.eqb_eq in E. subst k'. rewrite Hx. reflexivity.
  - destruct (k' =? x)%string; [reflexivity|exact IH].
Qed.

Lemma getProp_insertProp_same (o : JsObject) k v :
  getProp o k = None -> getProp (insertProp o k v) k = Some v.
Proof.
  induction o as [|[k' v'] o IH]; simpl.
  - rewrite String.eqb_refl. reflexivity.
  - destruct (k' =? k)%string eqn:E; [discriminate|]. intros H.
    destruct (listedBefore k k'); simpl.
    + rewrite String.eqb_refl. reflexivity.
    + rewrite E. exact (IH H).
Qed.

Lemma getProp_insertProp_other (o : JsObject) k v x :
  (k =? x)%string = false -> getProp (insertProp o k v) x = getProp o x.
Proof.
  intros Hx. induction o as [|[k' v'] o IH]; simpl.
  - rewrite Hx. reflexivity.
  - destruct (listedBefore k k'); simpl.
    + rewrite Hx. reflexivity.
    + destruct (k' =? x)%string; [reflexivity|exact IH].
Qed.

Lemma getProp_setProp_same (o : JsObject) k v :
  (k =? "__proto__")%string = false -> getProp (setProp o k v) k = Some v.
Proof.
  intros Hk. unfold setProp. rewrite Hk. destruct (getProp o k) eqn:E.
  - apply getProp_replaceProp_same. congruence.
  - apply getProp_insertProp_same, E.
Qed.

Lemma getProp_setProp_other (o : JsObject) k v x :
  (k =? x)%string = false -> getProp (setProp o k v) x = getProp o x.
Proof.
  intros Hx. unfold setProp. destruct (k =? "__proto__")%string; [reflexivity|].
  destruct (getProp o k).
  - apply getProp_replaceProp_other, Hx.
  - apply getProp_insertProp_other, Hx.
Qed.

Section SetDimensions.

Variable dims : list string.

Lemma setDimensions_untouched (vals : list string) :
  forall idx out d,
    (forall i d', (idx <= i < idx + List.length vals)%nat ->
                  nth_error dims i = Some d' -> d' <> d) ->
    (idx + List.length vals <= List.length dims)%nat ->
    getProp (setDimensions dims idx vals out) d = getProp out d.
Proof.
  induction vals as [|v vals IH]; intros idx out d Hd Hl; simpl; [reflexivity|].
  simpl in Hl.
  rewrite IH; [|intros i d' Hi; apply Hd; simpl; lia|lia].
  destruct (nth_error dims idx) as [d0|] eqn:E.
  - apply getProp_setProp_other. apply String.eqb_neq.
    apply (Hd idx d0); [simpl; lia|exact E].
  - apply nth_error_None in E. lia.
Qed.

Lemma setDimensions_get (vals : list string) :
  forall idx out j d v,
    NoDup dims ->
    (idx + List.length vals <= List.length dims)%nat ->
    (idx <= j)%nat ->
    nth_error dims j = Some d ->
    d <> "__proto__" ->
    nth_error vals (j - idx) = Some v ->
    getProp (setDimensions dims idx vals out) d = Some (VString v).
Proof.
  induction vals as [|v0 vals IH]; intros idx out j d v Hnd Hl Hj Hd Hp Hv.
  - destruct (j - idx)%nat; discriminate.
  - simpl in Hl. simpl.
    destruct (Nat.eq_dec j idx) as [->|Hne].
    + rewrite Nat.sub_diag in Hv. simpl in Hv. injection Hv as ->. rewrite Hd.
      rewrite setDimensions_untouched;
        [apply getProp_setProp_same, String.eqb_neq, Hp| |lia].
      intros i d' Hi Hi' ->.
      assert (i = idx); [|lia].
      eapply (proj1 (NoDup_nth_error dims) Hnd); [|congruence].
      apply nth_error_Some. congruence.
    + apply (IH (S idx) _ j); auto; try lia.
      replace (j - idx)%nat with (S (j - S idx)) in Hv by lia. exact Hv.
Qed.

End SetDimensions.

Lemma comparisonRecord_dimension dims rangeA rangeB mode mapA mapB k j d v :
  NoDup dims ->
  (List.length (recordKeys (sideA mapA mapB k) (sideB mapA mapB k)) <= List.length dims)%nat ->
  nth_error dims j = Some d ->
  nth_error (recordKeys (sideA mapA mapB k) (sideB mapA mapB k)) j = Some v ->
  ~ In d metricFields ->
  d <> "__proto__" ->
  getProp (comparisonRecord dims rangeA rangeB mode mapA mapB k) d = Some (VString v).
Proof.
  intros Hnd Hl Hd Hv Hm Hp. unfold comparisonRecord.
  assert (Hf : forall f, In f metricFields -> (f =? d)%string = false).
  { intros f Hf. apply String.eqb_neq. intros ->. contradiction. }
  repeat (rewrite getProp_setProp_other by (apply Hf; simpl; tauto)).
  apply (setDimensions_get dims _ O [] j);
    [exact Hnd | simpl; exact Hl | lia | exact Hd | exact Hp
     | rewrite Nat.sub_0_r; exact Hv].
Qed.

Lemma comparisonRecord_metrics dims rangeA rangeB mode mapA mapB k :
  showsMetrics (comparisonRecord dims rangeA rangeB mode mapA mapB k)
    (sideA mapA mapB k) (sideB mapA mapB k).
Proof.
  unfold showsMetrics, comparisonRecord.
  repeat split;
    repeat (rewrite getProp_setProp_other by reflexivity);
    apply getProp_setProp_same; reflexivity.
Qed.

Lemma comparisonRecord_of dims rangeA rangeB mode mapA mapB k a b :
  sideA mapA mapB k = a -> sideB mapA mapB k = b ->
  showsMetrics (comparisonRecord dims rangeA rangeB mode mapA mapB k) a b.
Proof. intros <- <-. apply comparisonRecord_metrics. Qed.

Lemma two_sided mapA mapB k ra rb :
  mapGet mapA k = Some ra -> mapGet mapB k = Some rb ->
  sideA mapA mapB k = ra
  /\ sideB mapA mapB k = rb
  /\ recordKeys (sideA mapA mapB k) (sideB mapA mapB k)
     = match keys ra with Some ks => ks | None => keyTuple rb end.
Proof.
  intros Ha Hb. unfold sideA, sideB, recordKeys. rewrite Ha, Hb.
  unfold keyTuple, orElse. destruct (keys ra); auto.
Qed.

Lemma one_sided_A mapA mapB k ra :
  mapGet mapA k = Some ra -> mapGet mapB k = None ->
  sideA mapA mapB k = ra
  /\ sideB mapA mapB k = zeroRow (keyTuple ra)
  /\ recordKeys (sideA mapA mapB k) (sideB mapA mapB k) = keyTuple ra.
Proof.
  intros Ha Hb. unfold sideA, sideB, recordKeys. rewrite Ha, Hb. simpl.
  unfold emptyFrom, zeroRow, keyTuple, orElse. destruct (keys ra); simpl; auto.
Qed.

Lemma one_sided_B mapA mapB k rb :
  mapGet mapA k = None -> mapGet mapB k = Some rb ->
  sideB mapA mapB k = rb
  /\ sideA mapA mapB k = zeroRow (keyTuple rb)
  /\ recordKeys (sideA mapA mapB k) (sideB mapA mapB k) = keyTuple rb.
Proof.
  intros Ha Hb. unfold sideA, sideB, recordKeys. rewrite Ha, Hb. simpl.
  unfold emptyFrom, zeroRow, keyTuple, orElse. destruct (keys rb); simpl; auto.
Qed.

Lemma rowsToMap_fold_last dims post :
  forall m k r,
    mapGet m k = Some r ->
    (forall r', In r' post -> keyFromRow dims r' <> k) ->
    mapGet (fold_left (fun m r => mapSet m (keyFromRow dims r) r) post m) k = Some r.
Proof.
  induction post as [|r0 post IH]; intros m k r Hm Hp; simpl; [exact Hm|].
  apply IH.
  - rewrite mapGet_mapSet_other; [exact Hm|].
    intros He. apply (Hp r0); [left; reflexivity|]. symmetry. exact He.
  - intros r' Hr'. apply Hp. right. exact Hr'.
Qed.

(** What a map of rows holds under a key, in terms of the rows. *)
Lemma rowsToMap_side rows dims k :
  (forall r, mapGet (rowsToMap rows dims) k = Some r -> In r rows /\ keyFromRow dims r = k)
  /\ (forall pre r post,
        rows = pre ++ r :: post -> keyFromRow dims r = k ->
        (forall r', In r' post -> keyFromRow dims r' <> k) ->
        mapGet (rowsToMap rows dims) k = Some r)
  /\ (mapGet (rowsToMap rows dims) k = None
      <-> forall r, In r rows -> keyFromRow dims r <> k).
Proof.
  split; [|split].
  - intros r H. split; [|eapply rowsToMap_get; exact H].
    destruct (rowsToMap_in dims rows [] k r H) as [H0|H0]; [discriminate H0|exact H0].
  - intros pre r post -> <- Hp. unfold rowsToMap. rewrite fold_left_app. simpl.
    apply rowsToMap_fold_last; [apply mapGet_mapSet_same|exact Hp].
  - rewrite mapGet_none_iff, rowsToMap_keys. split.
    + intros H r Hr He. apply H. eauto.
    + intros H [r [Hr He]]. exact (H r Hr He).
Qed.

(** C5: the join yields one record for each key of the union of the two
    sides, each key once, and the keys are exactly the row keys of the rows
    of either sequence.  A side holds under a key the last row of its
    sequence that has the key, and none exactly when no row has it.
    Under a key found on both sides the record is made of the row of A and
    the row of B; a key found on one side only is paired with a row of four
    zero metrics that carries the dimension values of the row present.
    The record shows the dimension values under the dimension names, and
    its twelve metric fields are the metric of side A, that of side B and
    the first minus the second.  The rows [/a] with 10 clicks and [/b] with
    5 clicks give two records, with clicks 10, 0, 10 and 0, 5, -5; with
    [/a] at 4 clicks added to side B the first record has clicks 10, 4,
    6. *)
Theorem joinRows_one_record_per_key
    (dims : list string) (rangeA rangeB : DateRange) (mode : string)
    (rowsA rowsB : list GscQueryRow) :
  let mapA := rowsToMap rowsA dims in
  let mapB := rowsToMap rowsB dims in
  let allKeys := newSet (mapKeys mapA ++ mapKeys mapB) in
  let record := comparisonRecord dims rangeA rangeB mode mapA mapB in
  (joinRows dims rangeA rangeB mode rowsA rowsB = map record allKeys
   /\ NoDup allKeys
   /\ forall k, In k allKeys <-> exists r, In r (rowsA ++ rowsB) /\ keyFromRow dims r = k)
  /\ (forall k,
        ((forall r, mapGet mapA k = Some r -> In r rowsA /\ keyFromRow dims r = k)
         /\ (forall pre r post,
               rowsA = pre ++ r :: post -> keyFromRow dims r = k ->
               (forall r', In r' post -> keyFromRow dims r' <> k) ->
               mapGet mapA k = Some r)
         /\ (mapGet mapA k = None <-> forall r, In r rowsA -> keyFromRow dims r <> k))
        /\ ((forall r, mapGet mapB k = Some r -> In r rowsB /\ keyFromRow dims r = k)
            /\ (forall pre r post,
                  rowsB = pre ++ r :: post -> keyFromRow dims r = k ->
                  (forall r', In r' post -> keyFromRow dims r' <> k) ->
                  mapGet mapB k = Some r)
            /\ (mapGet mapB k = None <-> forall r, In r rowsB -> keyFromRow dims r <> k)))
  /\ (forall k ra rb, mapGet mapA k = Some ra -> mapGet mapB k = Some rb ->
        (sideA mapA mapB k = ra /\ sideB mapA mapB k = rb
         /\ recordKeys (sideA mapA mapB k) (sideB mapA mapB k)
            = match keys ra with Some ks => ks | None => keyTuple rb end)
        /\ showsMetrics (record k) ra rb)
  /\ (forall k ra, mapGet mapA k = Some ra -> mapGet mapB k = None ->
        (sideA mapA mapB k = ra /\ sideB mapA mapB k = zeroRow (keyTuple ra)
         /\ recordKeys (sideA mapA mapB k) (sideB mapA mapB k) = keyTuple ra)
        /\ showsMetrics (record k) ra (zeroRow (keyTuple ra)))
  /\ (forall k rb, mapGet mapA k = None -> mapGet mapB k = Some rb ->
        (sideB mapA mapB k = rb /\ sideA mapA mapB k = zeroRow (keyTuple rb)
         /\ recordKeys (sideA mapA mapB k) (sideB mapA mapB k) = keyTuple rb)
        /\ showsMetrics (record k) (zeroRow (keyTuple rb)) rb)
  /\ (forall k j d v,
        NoDup dims ->
        (List.length (recordKeys (sideA mapA mapB k) (sideB mapA mapB k))
         <= List.length dims)%nat ->
        nth_error dims j = Some d ->
        nth_error (recordKeys (sideA mapA mapB k) (sideB mapA mapB k)) j = Some v ->
        ~ In d metricFields ->
        d <> "__proto__" ->
        getProp (record k) d = Some (VString v))
  /\ (forall k, showsMetrics (record k) (sideA mapA mapB k) (sideB mapA mapB k))
  /\ map clicksView
         (joinRows ["page"%string] exampleRange exampleRangeB "prevPeriod" [rowA] [rowB])
     = [ (Some (VString "/a"), Some (VNumber 10), Some (VNumber 0), Some (VNumber 10));
         (Some (VString "/b"), Some (VNumber 0), Some (VNumber 5), Some (VNumber (-5))) ]
  /\ map clicksView
         (joinRows ["page"%string] exampleRange exampleRangeB "prevPeriod"
            [rowA] [rowB; rowAinB])
     = [ (Some (VString "/a"), Some (VNumber 10), Some (VNumber 4), Some (VNumber 6));
         (Some (VString "/b"), Some (VNumber 0), Some (VNumber 5), Some (VNumber (-5))) ].
Proof.
  intros mapA mapB allKeys record.
  split; [split; [reflexivity|split]|].
  - apply newSet_NoDup.
  - intros k. unfold allKeys. rewrite newSet_In, in_app_iff.
    unfold mapA, mapB. rewrite !rowsToMap_keys. split.
    + intros [[r [H1 H2]]|[r [H1 H2]]]; exists r; rewrite in_app_iff; auto.
    + intros [r [H1 H2]]. rewrite in_app_iff in H1. destruct H1; eauto.
  - split.
    { intros k. split; apply rowsToMap_side. }
    split.
    { intros k ra rb Ha Hb. destruct (two_sided _ _ _ _ _ Ha Hb) as [H1 [H2 H3]].
      split; [auto|]. apply comparisonRecord_of; assumption. }
    split.
    { intros k ra Ha Hb. destruct (one_sided_A _ _ _ _ Ha Hb) as [H1 [H2 H3]].
      split; [auto|]. apply comparisonRecord_of; assumption. }
    split.
    { intros k rb Ha Hb. destruct (one_sided_B _ _ _ _ Ha Hb) as [H1 [H2 H3]].
      split; [auto|]. apply comparisonRecord_of; assumption. }
    split; [intros k j d v ? ? ? ? ? ?;
            apply (comparisonRecord_dimension _ _ _ _ _ _ _ j); assumption|].
    split; [intros k; apply comparisonRecord_metrics|].
    split; reflexivity.
Qed.

Lemma joinRows_one_record_per_key_witness :
  showsMetrics
    (comparisonRecord ["page"%string] exampleRange exampleRangeB "prevPeriod"
       (rowsToMap [rowA] ["page"%string]) (rowsToMap [rowB; rowAinB] ["page"%string]) "/a")
    rowA rowAinB.
Proof.
  exact (proj2 (proj1 (proj2 (proj2 (joinRows_one_record_per_key ["page"%string] exampleRange
                                       exampleRangeB "prevPeriod" [rowA] [rowB; rowAinB])))
                  "/a"%string rowA rowAinB eq_refl eq_refl)).
Defined.

(** C10, as stated, fails: two values free of ["||"], one ending and one
    starting with a single bar, give two different tuples of equal length
    the same key. *)
Lemma keyFromRow_collides_on_single_bars :
  ~ (forall (dims : list string) (r1 r2 : GscQueryRow),
       Forall (fun s => hasDoubleBar s = false) (keyTuple r1 ++ keyTuple r2) ->
       List.length (keyTuple r1) = List.length (keyTuple r2) ->
       (keyFromRow dims r1 = keyFromRow dims r2 <-> keyTuple r1 = keyTuple r2)).
Proof.
  intros H.
  specialize (H ["page"; "query"]%string
                (rowWithKeys ["a|"; "b"]%string) (rowWithKeys ["a"; "|b"]%string)).
  assert (Hk : keyTuple (rowWithKeys ["a|"; "b"]%string)
               = keyTuple (rowWithKeys ["a"; "|b"]%string)).
  { apply H; [repeat constructor|reflexivity|reflexivity]. }
  discriminate Hk.
Qed.

(** C10: the key of a row is its [keys] joined with ["||"], whatever the
    dimensions argument.  When no value contains ["||"] or ends with a bar
    and the two tuples have the same length, two rows have equal keys
    exactly when their tuples are equal.  Without the condition distinct
    tuples can collide, and the join then makes one record of them. *)
Theorem keyFromRow_injective_on_separable_values :
  (forall dims r, keyFromRow dims r = String.concat "||" (keyTuple r))
  /\ (forall dims r1 r2,
        List.length (keyTuple r1) = List.length (keyTuple r2) ->
        Forall separable (keyTuple r1) -> Forall separable (keyTuple r2) ->
        (keyFromRow dims r1 = keyFromRow dims r2 <-> keyTuple r1 = keyTuple r2))
  /\ (let r1 := rowWithKeys ["a||b"; "c"]%string in
      let r2 := rowWithKeys ["a"; "b||c"]%string in
      keyTuple r1 <> keyTuple r2
      /\ keyFromRow ["page"; "query"]%string r1 = keyFromRow ["page"; "query"]%string r2
      /\ List.length (rowsToMap [r1; r2] ["page"; "query"]%string) = 1%nat
      /\ List.length (joinRows ["page"; "query"]%string exampleRange exampleRangeB
                        "prevPeriod" [r1] [r2]) = 1%nat).
Proof.
  split; [reflexivity|split].
  - intros dims r1 r2 Hl H1 H2. unfold keyFromRow. split.
    + apply concat_bars_injective; assumption.
    + intros ->. reflexivity.
  - cbv zeta. split; [discriminate|]. repeat split.
Qed.

Lemma keyFromRow_injective_on_separable_values_witness :
  (keyFromRow ["page"; "query"]%string (rowWithKeys ["/a|b"; "shoes"]%string)
   = keyFromRow ["page"; "query"]%string (rowWithKeys ["/a|b"; "shoes"]%string)
   <-> keyTuple (rowWithKeys ["/a|b"; "shoes"]%string)
       = keyTuple (rowWithKeys ["/a|b"; "shoes"]%string)).
Proof.
  apply (proj1 (proj2 keyFromRow_injective_on_separable_values)).
  - reflexivity.
  - repeat constructor.
  - repeat constructor.
Defined.

(** * More on the paginated fetch *)

Lemma concat_snoc {A : Type} (ls : list (list A)) (l : list A) :
  List.concat (ls ++ [l]) = List.concat ls ++ l.
Proof. rewrite concat_app. simpl. rewrite app_nil_r. reflexivity. Qed.

Section Recording.

Variable World : Type.
Variable http : World -> Request -> Completion Response * World.
Variable siteUrl : string.
Variable body : QueryBody.
Variable targetLimit perRequest : Z.

Local Abbreviation plain := (fetchLoop World http siteUrl body targetLimit perRequest).
Local Abbreviation recorded :=
  (fetchLoop (World * list (Request * Completion Response)) (recording http)
     siteUrl body targetLimit perRequest).

Lemma fetchLoop_recording (m : nat) :
  forall w log collected startRow,
    (Z.to_nat (targetLimit - len collected) <= m)%nat ->
    exists log',
      recorded (w, log) collected startRow
      = (fst (plain w collected startRow), (snd (plain w collected startRow), log ++ log'))
      /\ contiguousFrom siteUrl body perRequest startRow log'
      /\ (forall rs, fst (plain w collected startRow) = Normal rs ->
                     rs = collected ++ rowsServed log')
      /\ endsOn log' (fst (plain w collected startRow)).
Proof.
  induction m as [|m IH]; intros w log collected startRow Hm;
    rewrite (fetchLoop_turn (World * list (Request * Completion Response))),
            (fetchLoop_turn World);
    destruct (len collected <? targetLimit) eqn:E;
    try (apply Z.ltb_lt in E); try (apply Z.ltb_ge in E);
    try (exists []; simpl; rewrite !app_nil_r;
         repeat split; [intros rs H; injection H as <-; reflexivity]);
    try lia.
  unfold recording at 1. simpl fst. simpl snd.
  destruct (http w _) as [[resp|e] w'] eqn:Hq.
  2:{ eexists [(_, Throw e)]. simpl. repeat split; try discriminate.
      exists [], (pageRequest siteUrl body perRequest startRow). reflexivity. }
  destruct (chunkOf resp) as [|c cs] eqn:Ec.
  { eexists [(_, Normal resp)]. simpl. unfold rowsServed. simpl. rewrite Ec.
    repeat split. intros rs H. injection H as <-. rewrite app_nil_r. reflexivity. }
  destruct (len (c :: cs) <? perRequest).
  { eexists [(_, Normal resp)]. simpl. unfold rowsServed. simpl. rewrite Ec.
    repeat split. intros rs H. injection H as <-. rewrite app_nil_r. reflexivity. }
  destruct (targetLimit <=? len (collected ++ c :: cs)) eqn:E2.
  { eexists [(_, Normal resp)]. simpl. unfold rowsServed. simpl. rewrite Ec.
    repeat split. intros rs H. injection H as <-. rewrite app_nil_r. reflexivity. }
  apply Z.leb_gt in E2.
  assert (Hg : len (collected ++ c :: cs) = len collected + 1 + len cs)
    by (rewrite len_app, len_cons; lia).
  pose proof (len_nonneg cs) as Hcs.
  destruct (IH w' (log ++ [(pageRequest siteUrl body perRequest startRow, Normal resp)])
              (collected ++ c :: cs) (startRow + len (c :: cs)))
    as [log' [Hk [Hc [Hr He]]]]; [lia|].
  exists ((pageRequest siteUrl body perRequest startRow, Normal resp) :: log').
  rewrite Hk. rewrite <- app_assoc. simpl. split; [reflexivity|]. split; [|split].
  - split; [reflexivity|]. rewrite Ec. exact Hc.
  - intros rs H. rewrite (Hr rs H). unfold rowsServed. simpl. rewrite Ec.
    rewrite <- app_assoc. reflexivity.
  - unfold endsOn in *.
    destruct (fst (plain w' (collected ++ c :: cs) (startRow + len (c :: cs))));
      [exact I|].
    destruct He as [pre [q Hl]].
    exists ((pageRequest siteUrl body perRequest startRow, Normal resp) :: pre), q.
    rewrite Hl. reflexivity.
Qed.

(** Over a counting remote: one request for every [perRequest] rows still
    missing, the last page rounded up. *)
Lemma fetchLoop_budget (m : nat) :
  0 < perRequest ->
  forall w n collected startRow,
    (Z.to_nat (targetLimit - len collected) <= m)%nat ->
    exists k : nat,
      fetchLoop (World * nat) (counting http) siteUrl body targetLimit perRequest
                (w, n) collected startRow
      = (fst (plain w collected startRow), (snd (plain w collected startRow), (n + k)%nat))
      /\ Z.of_nat k <= pagesFor (targetLimit - len collected) perRequest.
Proof.
  intros Hper.
  assert (Hpos : forall a, 0 < a -> 1 <= pagesFor a perRequest).
  { intros a Ha. unfold pagesFor. rewrite Z.max_r by lia.
    apply Z.div_le_lower_bound; lia. }
  assert (H0 : forall a, 0 <= pagesFor a perRequest).
  { intros a. unfold pagesFor. apply Z.div_pos; lia. }
  induction m as [|m IH]; intros w n collected startRow Hm;
    rewrite (fetchLoop_turn (World * nat)), (fetchLoop_turn World);
    destruct (len collected <? targetLimit) eqn:E;
    try (apply Z.ltb_lt in E); try (apply Z.ltb_ge in E);
    try (exists 0%nat; simpl; rewrite Nat.add_0_r; split; [reflexivity|apply H0]);
    try lia.
  assert (H1 : 1 <= pagesFor (targetLimit - len collected) perRequest)
    by (apply Hpos; lia).
  unfold counting at 1. simpl fst. simpl snd.
  destruct (http w _) as [[resp|e] w'].
  2:{ exists 1%nat. simpl. rewrite Nat.add_1_r. split; [reflexivity|lia]. }
  destruct (chunkOf resp) as [|c cs] eqn:Ec.
  { exists 1%nat. simpl. rewrite Nat.add_1_r. split; [reflexivity|lia]. }
  destruct (len (c :: cs) <? perRequest) eqn:E1.
  { exists 1%nat. simpl. rewrite Nat.add_1_r. split; [reflexivity|lia]. }
  destruct (targetLimit <=? len (collected ++ c :: cs)) eqn:E2.
  { exists 1%nat. simpl. rewrite Nat.add_1_r. split; [reflexivity|lia]. }
  apply Z.leb_gt in E2. apply Z.ltb_ge in E1.
  assert (Hg : len (collected ++ c :: cs) = len collected + len (c :: cs))
    by apply len_app.
  assert (Hc1 : 1 <= len (c :: cs))
    by (rewrite len_cons; pose proof (len_nonneg cs); lia).
  destruct (IH w' (S n) (collected ++ c :: cs) (startRow + len (c :: cs))) as [k [Hk Hb]];
    [lia|].
  exists (S k). split; [rewrite Hk; f_equal; f_equal; lia|].
  assert (Hstep : pagesFor (targetLimit - len (collected ++ c :: cs)) perRequest + 1
                  <= pagesFor (targetLimit - len collected) perRequest).
  { unfold pagesFor. rewrite !Z.max_r by lia.
    rewrite <- (Z.div_add _ 1 perRequest) by lia.
    apply Z.div_le_mono; lia. }
  lia.
Qed.

End Recording.

Section HonestSource.

Variable data : list GscQueryRow.
Variable siteUrl : string.
Variable body : QueryBody.
Variable targetLimit : Z.

Local Abbreviation per := (perRequestOf body).

(** Over the source that serves what is asked, the loop entered with the
    first [j] rows leaves with a longer prefix: enough for the target, or
    the whole content. *)
Lemma mockSource_prefix (m : nat) :
  forall (j served : nat),
    (List.length data - j <= m)%nat ->
    (j <= List.length data)%nat ->
    exists j' served',
      fetchLoop nat (mockSource data) siteUrl body targetLimit per
                served (firstn j data) (Z.of_nat j)
      = (Normal (firstn j' data), served')
      /\ (j' <= List.length data)%nat
      /\ (targetLimit <= Z.of_nat j -> j' = j)
      /\ (targetLimit <= Z.of_nat j' \/ j' = List.length data).
Proof.
  pose proof (perRequestOf_range body) as Hper.
  induction m as [|m IH]; intros j served Hm Hj;
    rewrite fetchLoop_turn;
    (assert (Hlen : len (firstn j data) = Z.of_nat j)
       by (unfold len; rewrite List.length_firstn; lia));
    rewrite Hlen;
    (destruct (Z.of_nat j <? targetLimit) eqn:E;
       [apply Z.ltb_lt in E
       | apply Z.ltb_ge in E; exists j, served; repeat split; auto]);
    unfold mockSource, pageRequest, pageBody; cbn [q_rowLimit chunkOf rows];
    rewrite Nat2Z.id;
    set (p := Z.to_nat per);
    (assert (Hp : (100 <= p)%nat) by (subst p; lia));
    (destruct (firstn p (skipn j data)) as [|c cs] eqn:Ec).
  - exists j, (S served). repeat split; auto; try lia.
  - assert (j = List.length data) by lia. subst j.
    rewrite List.skipn_all in Ec. destruct p; discriminate.
  - assert (Hs : List.length (firstn p (skipn j data)) = 0%nat) by (rewrite Ec; reflexivity).
    rewrite List.length_firstn, List.length_skipn in Hs.
    exists j, (S served). repeat split; auto; try lia.
  - rewrite <- Ec.
    assert (Hs : List.length (firstn p (skipn j data)) = Nat.min p (List.length data - j))
      by (rewrite List.length_firstn, List.length_skipn; reflexivity).
    assert (Hc : len (firstn p (skipn j data)) = Z.of_nat (Nat.min p (List.length data - j)))
      by (unfold len; rewrite Hs; reflexivity).
    rewrite firstn_then_firstn_skipn.
    rewrite Hc.
    destruct (Z.of_nat (Nat.min p (List.length data - j)) <? per) eqn:E1.
    + apply Z.ltb_lt in E1.
      assert (Hlt : (List.length data - j < p)%nat) by lia.
      exists (List.length data), (S served).
      rewrite (List.firstn_all2 (n := (j + p)%nat)) by lia.
      rewrite List.firstn_all. repeat split; auto; lia.
    + apply Z.ltb_ge in E1.
      assert (Hge : (p <= List.length data - j)%nat) by lia.
      assert (Hl2 : len (firstn (j + p) data) = Z.of_nat (j + p))
        by (unfold len; rewrite List.length_firstn; lia).
      rewrite Hl2.
      destruct (targetLimit <=? Z.of_nat (j + p)) eqn:E2.
      * apply Z.leb_le in E2. exists (j + p)%nat, (S served).
        repeat split; auto; lia.
      * apply Z.leb_gt in E2.
        replace (Z.of_nat j + Z.of_nat (Nat.min p (List.length data - j)))
          with (Z.of_nat (j + p)) by lia.
        destruct (IH (j + p)%nat (S served)) as [j' [served' [Hk [Hb [Hsame Hend]]]]];
          [lia|lia|].
        exists j', served'. repeat split; auto; lia.
Qed.

End HonestSource.

(** X3: whatever the remote answers, the requests of [fetchAllRows] form one
    contiguous sequence of pages: the first asks from row 0, each next one
    from the number of rows received so far, all with the same body and the
    same page size, between 100 and 25000.  A result is the first
    [targetLimit] rows of the pages received, in order, and an error is the
    answer to the last request made. *)
Theorem fetchAllRows_pages_are_contiguous
    (World : Type) (http : World -> Request -> Completion Response * World)
    (w : World) (siteUrl : string) (body : QueryBody) (targetLimit : Z) :
  exists result w' log,
    fetchAllRows World http w siteUrl body targetLimit = (result, w')
    /\ fetchAllRows (World * list (Request * Completion Response)) (recording http)
         (w, []) siteUrl body targetLimit
       = (result, (w', log))
    /\ contiguousFrom siteUrl body (perRequestOf body) 0 log
    /\ 100 <= perRequestOf body <= 25000
    /\ (forall rs, result = Normal rs -> rs = slice0 (rowsServed log) targetLimit)
    /\ endsOn log result.
Proof.
  pose proof (perRequestOf_range body) as Hper.
  unfold fetchAllRows.
  destruct (fetchLoop_recording World http siteUrl body targetLimit (perRequestOf body)
              (Z.to_nat (targetLimit - len (@nil GscQueryRow))) w [] [] 0 (le_n _))
    as [log [Hk [Hc [Hr He]]]].
  rewrite Hk. cbn [app].
  destruct (fetchLoop World http siteUrl body targetLimit (perRequestOf body) w [] 0)
    as [[collected|e] w']; cbn [fst snd] in *.
  - exists (Normal (slice0 collected targetLimit)), w', log.
    split; [reflexivity|]. split; [reflexivity|]. split; [exact Hc|].
    split; [exact Hper|]. split; [|exact I].
    intros rs H. injection H as <-. rewrite (Hr collected eq_refl). reflexivity.
  - exists (Throw e), w', log.
    split; [reflexivity|]. split; [reflexivity|]. split; [exact Hc|].
    split; [exact Hper|]. split; [discriminate|exact He].
Qed.

Lemma fetchAllRows_budget
    (World : Type) (http : World -> Request -> Completion Response * World)
    (w : World) (siteUrl : string) (body : QueryBody) (targetLimit : Z) :
  exists result w' (requests : nat),
    fetchAllRows World http w siteUrl body targetLimit = (result, w')
    /\ fetchAllRows (World * nat) (counting http) (w, O) siteUrl body targetLimit
       = (result, (w', requests))
    /\ Z.of_nat requests <= pagesFor targetLimit (perRequestOf body).
Proof.
  pose proof (perRequestOf_range body) as Hper.
  unfold fetchAllRows.
  destruct (fetchLoop_budget World http siteUrl body targetLimit (perRequestOf body)
              (Z.to_nat (targetLimit - len (@nil GscQueryRow))) ltac:(lia) w O [] 0 (le_n _))
    as [k [Hk Hb]].
  rewrite Hk.
  replace (targetLimit - len (@nil GscQueryRow)) with targetLimit in Hb
    by (unfold len; simpl; lia).
  destruct (fetchLoop World http siteUrl body targetLimit (perRequestOf body) w [] 0)
    as [[collected|e] w']; simpl.
  - exists (Normal (slice0 collected targetLimit)), w', k. repeat split; auto.
  - exists (Throw e), w', k. repeat split; auto.
Qed.

Lemma pagesFor_one n per : 0 < per -> n <= per -> pagesFor n per <= 1.
Proof.
  intros Hp Hn. unfold pagesFor.
  assert (H : (Z.max 0 n + per - 1) / per < 2) by (apply Z.div_lt_upper_bound; lia).
  lia.
Qed.

(** X4: [fetchAllRows] makes at most one request for each [perRequest] rows of
    the target, the last page rounded up.  A page-insights item with a row
    limit of 25000 or less therefore makes at most one request, and each
    fetch of a comparison at most one for each 1000 rows of its limit. *)
Theorem fetchAllRows_request_budget
    (World : Type) (http : World -> Request -> Completion Response * World)
    (w : World) (siteUrl : string) :
  (forall body targetLimit,
      exists result w' (requests : nat),
        fetchAllRows World http w siteUrl body targetLimit = (result, w')
        /\ fetchAllRows (World * nat) (counting http) (w, O) siteUrl body targetLimit
           = (result, (w', requests))
        /\ Z.of_nat requests <= pagesFor targetLimit (perRequestOf body))
  /\ (forall p range,
        p_rowLimit p <= 25000 ->
        exists result w' (requests : nat),
          fetchAllRows (World * nat) (counting http) (w, O) siteUrl
            (insightsBody p range) (p_rowLimit p)
          = (result, (w', requests))
          /\ (requests <= 1)%nat)
  /\ (forall p range,
        exists result w' (requests : nat),
          fetchAllRows (World * nat) (counting http) (w, O) siteUrl
            (compareBody p range) (compareRowLimit p)
          = (result, (w', requests))
          /\ Z.of_nat requests <= pagesFor (compareRowLimit p) 1000).
Proof.
  split; [|split].
  - intros body targetLimit. apply fetchAllRows_budget.
  - intros p range Hl.
    destruct (fetchAllRows_budget World http w siteUrl (insightsBody p range) (p_rowLimit p))
      as [result [w' [requests [_ [Hc Hb]]]]].
    exists result, w', requests. split; [exact Hc|].
    assert (H1 : pagesFor (p_rowLimit p) (perRequestOf (insightsBody p range)) <= 1).
    { apply pagesFor_one; unfold perRequestOf, insightsBody; cbn [q_rowLimit]; lia. }
    lia.
  - intros p range.
    destruct (fetchAllRows_budget World http w siteUrl (compareBody p range) (compareRowLimit p))
      as [result [w' [requests [_ [Hc Hb]]]]].
    exists result, w', requests. split; [exact Hc|exact Hb].
Qed.

Lemma fetchAllRows_request_budget_witness :
  exists result w' (requests : nat),
    fetchAllRows (nat * nat) (counting (mockSource rows3000)) (O, O) "sc-domain:example.com"
      (insightsBody (sampleItem "getPageInsights" "sc-domain:example.com" false) exampleRange)
      1000
    = (result, (w', requests))
    /\ (requests <= 1)%nat.
Proof.
  exact (proj1 (proj2 (fetchAllRows_request_budget nat (mockSource rows3000) O
                         "sc-domain:example.com"))
           (sampleItem "getPageInsights" "sc-domain:example.com" false) exampleRange
           ltac:(simpl; lia)).
Defined.

(** X5: from a source that serves the rows asked for, [fetchAllRows] returns
    the first [targetLimit] rows it holds, in order: all of them when it
    holds fewer, none when the target is not positive. *)
Theorem fetchAllRows_reads_honest_source
    (data : list GscQueryRow) (served : nat) (siteUrl : string) (body : QueryBody)
    (targetLimit : Z) :
  fst (fetchAllRows nat (mockSource data) served siteUrl body targetLimit)
  = Normal (firstn (Z.to_nat targetLimit) data).
Proof.
  unfold fetchAllRows.
  destruct (mockSource_prefix data siteUrl body targetLimit (List.length data) O served)
    as [j' [served' [Hk [Hb [Hsame Hend]]]]]; [lia|lia|].
  simpl firstn in Hk. simpl Z.of_nat in Hk. rewrite Hk. simpl. f_equal.
  unfold slice0. destruct (0 <=? targetLimit) eqn:E.
  - apply Z.leb_le in E. destruct Hend as [Ht| ->].
    + rewrite List.firstn_firstn. f_equal. lia.
    + rewrite List.firstn_all. reflexivity.
  - apply Z.leb_gt in E. rewrite (Hsame ltac:(lia)). simpl.
    replace (Z.to_nat targetLimit) with O by lia.
    rewrite List.firstn_nil. reflexivity.
Qed.

(** * More on [execute] *)

Section Tags.

Variable zone : Z -> bool -> Z.
Variable otherParse : string -> option Z.
Variable World : Type.
Variable http : World -> Request -> Completion Response * World.
Variable clock : World -> Z.

Local Abbreviation St := (ExecState World).

Lemma tags_none {A : Type} i (c : Exec World A) :
  (forall st, returnData (snd (c st)) = returnData st) -> tags i c.
Proof.
  intros H st r st' Hc. exists []. rewrite app_nil_r. split; [|constructor].
  specialize (H st). rewrite Hc in H. exact H.
Qed.

Lemma tags_ret {A : Type} i (a : A) : tags i (ret World a).
Proof. apply tags_none. reflexivity. Qed.

Lemma tags_throw {A : Type} i e : tags i (@throw World A e).
Proof. apply tags_none. reflexivity. Qed.

Lemma tags_liftC {A : Type} i (c : Completion A) : tags i (liftC World c).
Proof. apply tags_none. reflexivity. Qed.

Lemma tags_readClock i : tags i (readClock World clock).
Proof. apply tags_none. reflexivity. Qed.

Lemma tags_remote {A : Type} i (f : World -> Completion A * World) :
  tags i (remote World f).
Proof. apply tags_none. intros st. apply remote_returnData. Qed.

Lemma tags_push i d : pairedItem d = i -> tags i (push World d).
Proof.
  intros Hd st r st' H. unfold push in H. injection H as _ <-.
  exists [d]. split; [reflexivity|]. repeat constructor. exact Hd.
Qed.

Lemma tags_bind {A B : Type} i (c : Exec World A) (k : A -> Exec World B) :
  tags i c -> (forall a, tags i (k a)) -> tags i (bindE World c k).
Proof.
  intros Hc Hk st r st' H. unfold bindE in H.
  destruct (c st) as [[a|e] st1] eqn:E.
  - destruct (Hc _ _ _ E) as [b1 [H1 P1]]. destruct (Hk a _ _ _ H) as [b2 [H2 P2]].
    exists (b1 ++ b2). rewrite H2, H1, app_assoc. split; [reflexivity|].
    apply Forall_app. split; assumption.
  - injection H as _ <-. exact (Hc _ _ _ E).
Qed.

Lemma tags_tryCatch {A : Type} i (c : Exec World A) (h : JsError -> Exec World A) :
  tags i c -> (forall e, tags i (h e)) -> tags i (tryCatch World c h).
Proof.
  intros Hc Hh st r st' H. unfold tryCatch in H.
  destruct (c st) as [[a|e] st1] eqn:E.
  - injection H as _ <-. exact (Hc _ _ _ E).
  - destruct (Hc _ _ _ E) as [b1 [H1 P1]]. destruct (Hh e _ _ _ H) as [b2 [H2 P2]].
    exists (b1 ++ b2). rewrite H2, H1, app_assoc. split; [reflexivity|].
    apply Forall_app. split; assumption.
Qed.

Lemma tags_forEach {A : Type} i (l : list A) (f : A -> Exec World unit) :
  (forall a, tags i (f a)) -> tags i (forEach World l f).
Proof.
  intros Hf. induction l as [|a l IH]; simpl.
  - apply tags_ret.
  - apply tags_bind; [apply Hf|intros _; exact IH].
Qed.

Lemma tags_when i b (c : Exec World unit) : tags i c -> tags i (when World b c).
Proof. intros H. destruct b; [exact H|apply tags_ret]. Qed.

Lemma tags_pushOk i j : tags i (pushOk World i j).
Proof. apply tags_push. reflexivity. Qed.

Ltac tags_step :=
  first [ apply tags_bind; [|intros ?]
        | apply tags_forEach; intros ?
        | apply tags_when
        | apply tags_pushOk
        | apply tags_push; reflexivity
        | apply tags_ret
        | apply tags_throw
        | apply tags_liftC
        | apply tags_readClock
        | apply tags_remote ].

Lemma tags_itemBody i p : tags i (itemBody zone otherParse World http clock i p).
Proof.
  unfold itemBody, opGetSites, opGetPageInsights, opInspectUrl, opComparePageInsights.
  repeat tags_step.
  - destruct (negb _); repeat tags_step.
  - destruct (p_dimensionsCompare p); repeat tags_step.
Qed.

Lemma tags_processItem i p : tags i (processItem zone otherParse World http clock i p).
Proof.
  unfold processItem. apply tags_tryCatch; [apply tags_itemBody|].
  intros e. unfold pushErr. destruct (p_continueOnFail p); [|apply tags_throw].
  apply tags_push. reflexivity.
Qed.

(** The items of a run that ends normally each append one block. *)
Lemma processItems_blocks items :
  forall i (st st' : St),
    processItems zone otherParse World http clock i items st = (Normal tt, st') ->
    exists blocks,
      returnData st' = returnData st ++ List.concat blocks
      /\ Forall2 pairedWith (seq i (List.length items)) blocks.
Proof.
  induction items as [|p items IH]; intros i st st' H; simpl in H.
  - injection H as <-. exists []. simpl. rewrite app_nil_r. split; constructor.
  - unfold bindE in H.
    destruct (processItem _ _ _ _ _ i p st) as [[[]|e] st1] eqn:E; [|discriminate].
    destruct (tags_processItem i p _ _ _ E) as [b [Hb Pb]].
    destruct (IH _ _ _ H) as [blocks [Hbs Pbs]].
    exists (b :: blocks). simpl. rewrite Hbs, Hb, app_assoc. split; [reflexivity|].
    constructor; assumption.
Qed.

Lemma processItem_continues i p (st : St) :
  p_continueOnFail p = true ->
  exists st', processItem zone otherParse World http clock i p st = (Normal tt, st').
Proof.
  intros Hc. unfold processItem, tryCatch.
  destruct (itemBody _ _ _ _ _ i p st) as [[[]|e] st1]; [eexists; reflexivity|].
  unfold pushErr. rewrite Hc. unfold pushOk, push. eexists. reflexivity.
Qed.

Lemma processItems_continue items :
  Forall (fun p => p_continueOnFail p = true) items ->
  forall i (st : St),
    exists st', processItems zone otherParse World http clock i items st = (Normal tt, st').
Proof.
  induction 1 as [|p items Hp _ IH]; intros i st; simpl.
  - eexists. reflexivity.
  - unfold bindE. destruct (processItem_continues i p st Hp) as [st1 ->]. apply IH.
Qed.

End Tags.

(** X6: when every item has [continueOnFail] set, [execute] ends normally,
    whatever fails on the way. *)
Theorem execute_continueOnFail_never_throws
    (zone : Z -> bool -> Z) (otherParse : string -> option Z) (World : Type)
    (http : World -> Request -> Completion Response * World) (clock : World -> Z)
    (w : World) (items : list ItemParams) :
  Forall (fun p => p_continueOnFail p = true) items ->
  exists data w',
    execute zone otherParse World http clock w items = (Normal [data], w').
Proof.
  intros H. unfold execute.
  destruct (processItems_continue zone otherParse World http clock items H O
              {| world := w; returnData := [] |}) as [st' Hs].
  rewrite Hs. exists (returnData st'), (world st'). reflexivity.
Qed.

Lemma execute_continueOnFail_never_throws_witness :
  exists data w',
    execute utc noOtherDates nat (failingSource rows3000 1) (fun _ => noon20240310) O
      [sampleItem "getPageInsights" "example.com" true; compareItem true]
    = (Normal [data], w').
Proof.
  exact (execute_continueOnFail_never_throws utc noOtherDates nat (failingSource rows3000 1)
           (fun _ => noon20240310) O
           [sampleItem "getPageInsights" "example.com" true; compareItem true]
           ltac:(repeat constructor)).
Defined.

(** X7: the records of a run that ends normally are the blocks of the input
    items in input order, one block for each item, every record of the
    block of item [i] paired with [i]. *)
Theorem execute_outputs_paired_in_order
    (zone : Z -> bool -> Z) (otherParse : string -> option Z) (World : Type)
    (http : World -> Request -> Completion Response * World) (clock : World -> Z)
    (w : World) (items : list ItemParams) (out : list (list ExecutionData)) (w' : World) :
  execute zone otherParse World http clock w items = (Normal out, w') ->
  exists blocks,
    out = [List.concat blocks]
    /\ Forall2 pairedWith (seq 0 (List.length items)) blocks.
Proof.
  unfold execute.
  destruct (processItems _ _ _ _ _ O items _) as [[[]|e] st'] eqn:Hs; [|discriminate].
  intros H. injection H as <- <-.
  destruct (processItems_blocks zone otherParse World http clock items _ _ _ Hs)
    as [blocks [Hb Pb]].
  exists blocks. simpl in Hb. rewrite Hb. split; [reflexivity|exact Pb].
Qed.

Lemma execute_outputs_paired_in_order_witness :
  exists blocks,
    [[{| json := [("error", VString
        "Site URL must start with http(s):// or sc-domain:. Example: https://example.com/ or sc-domain:example.com")];
         pairedItem := 0 |};
      {| json := [("error", VString "401 Unauthorized")]; pairedItem := 1 |}]]
    = [List.concat blocks]
    /\ Forall2 pairedWith (seq 0 2) blocks.
Proof.
  exact (execute_outputs_paired_in_order utc noOtherDates nat (failingSource rows3000 1)
           (fun _ => noon20240310) O
           [sampleItem "getPageInsights" "example.com" true; compareItem true]
           _ 2%nat ltac:(vm_compute; reflexivity)).
Defined.

Lemma mapSet_length {V : Type} (m : JsMap V) k v :
  (List.length (mapSet m k v) <= S (List.length m))%nat.
Proof.
  induction m as [|[k' v'] m IH]; simpl; [lia|].
  destruct (k' =? k)%string; simpl; lia.
Qed.

Lemma rowsToMap_length rs dims :
  (List.length (rowsToMap rs dims) <= List.length rs)%nat.
Proof.
  unfold rowsToMap.
  assert (H : forall m, (List.length (fold_left (fun m r => mapSet m (keyFromRow dims r) r) rs m)
                         <= List.length m + List.length rs)%nat).
  { induction rs as [|r rs IH]; intros m; simpl; [lia|].
    specialize (IH (mapSet m (keyFromRow dims r) r)).
    pose proof (mapSet_length m (keyFromRow dims r) r). lia. }
  apply (H []).
Qed.

Lemma setAdd_length s k : (List.length (setAdd s k) <= S (List.length s))%nat.
Proof.
  induction s as [|x s IH]; simpl; [lia|].
  destruct (x =? k)%string; simpl; lia.
Qed.

Lemma newSet_length l : (List.length (newSet l) <= List.length l)%nat.
Proof.
  unfold newSet.
  assert (H : forall s, (List.length (fold_left setAdd l s) <= List.length s + List.length l)%nat).
  { induction l as [|k l IH]; intros s; simpl; [lia|].
    specialize (IH (setAdd s k)). pose proof (setAdd_length s k). lia. }
  apply (H []).
Qed.

Lemma joinRows_length dims rangeA rangeB mode rowsA rowsB :
  (List.length (joinRows dims rangeA rangeB mode rowsA rowsB)
   <= List.length rowsA + List.length rowsB)%nat.
Proof.
  unfold joinRows. rewrite List.length_map.
  pose proof (newSet_length (mapKeys (rowsToMap rowsA dims) ++ mapKeys (rowsToMap rowsB dims))) as H.
  unfold mapKeys in *. rewrite List.length_app, !List.length_map in H.
  pose proof (rowsToMap_length rowsA dims). pose proof (rowsToMap_length rowsB dims). lia.
Qed.

Lemma fetchAllRows_length
    (World : Type) (http : World -> Request -> Completion Response * World)
    (w : World) (siteUrl : string) (body : QueryBody) (targetLimit : Z) rs w' :
  0 <= targetLimit ->
  fetchAllRows World http w siteUrl body targetLimit = (Normal rs, w') ->
  len rs <= targetLimit.
Proof.
  intros Hn H. unfold fetchAllRows in H.
  destruct (fetchLoop _ _ _ _ _ _ _ _ _) as [[collected|e] w1]; [|discriminate].
  injection H as <- _. apply slice0_length. exact Hn.
Qed.

Section ItemFacts.

Variable zone : Z -> bool -> Z.
Variable otherParse : string -> option Z.
Variable World : Type.
Variable http : World -> Request -> Completion Response * World.
Variable clock : World -> Z.

Local Abbreviation body := (itemBody zone otherParse World http clock).

Lemma known_false op :
  knownOperation op = false ->
  (op =? "getSites")%string = false /\ (op =? "getPageInsights")%string = false
  /\ (op =? "inspectUrl")%string = false /\ (op =? "comparePageInsights")%string = false.
Proof.
  unfold knownOperation. intros H.
  repeat (apply orb_false_iff in H; destruct H as [H ?]). auto.
Qed.

Lemma st_eta (st : ExecState World) :
  {| world := world st; returnData := returnData st |} = st.
Proof. destruct st; reflexivity. Qed.

End ItemFacts.

(** X8: an item that is turned down before its request leaves the state as it
    was, so nothing was sent and nothing recorded: an operation [execute]
    does not know does nothing at all; a site that fails the check, an
    inspection URL that does not start with [http://] or [https://] and a
    comparison without dimensions throw their error. *)
Theorem rejected_item_sends_no_request
    (zone : Z -> bool -> Z) (otherParse : string -> option Z) (World : Type)
    (http : World -> Request -> Completion Response * World) (clock : World -> Z)
    (i : nat) (p : ItemParams) (st : ExecState World) :
  (knownOperation (p_operation p) = false ->
   itemBody zone otherParse World http clock i p st = (Normal tt, st))
  /\ (forall e,
        p_operation p = "getPageInsights" ->
        validateSiteUrlOrThrow (insightsSiteUrl p) "page insights" = Throw e ->
        itemBody zone otherParse World http clock i p st = (Throw e, st))
  /\ (forall e,
        p_operation p = "inspectUrl" ->
        validateSiteUrlOrThrow (inspectSiteUrl p) "URL inspection" = Throw e ->
        itemBody zone otherParse World http clock i p st = (Throw e, st))
  /\ (forall siteUrl,
        p_operation p = "inspectUrl" ->
        validateSiteUrlOrThrow (inspectSiteUrl p) "URL inspection" = Normal siteUrl ->
        prefix "http://" (trim (p_inspectionUrl p)) = false ->
        prefix "https://" (trim (p_inspectionUrl p)) = false ->
        itemBody zone otherParse World http clock i p st
        = (Throw (NodeOperationError "Inspection URL must start with http(s)://"), st))
  /\ (forall e,
        p_operation p = "comparePageInsights" ->
        validateSiteUrlOrThrow (compareSiteUrl p) "comparison" = Throw e ->
        itemBody zone otherParse World http clock i p st = (Throw e, st))
  /\ (forall siteUrl,
        p_operation p = "comparePageInsights" ->
        validateSiteUrlOrThrow (compareSiteUrl p) "comparison" = Normal siteUrl ->
        p_dimensionsCompare p = [] ->
        itemBody zone otherParse World http clock i p st
        = (Throw (NodeOperationError "At least one dimension is required for comparison."),
           st)).
Proof.
  repeat split.
  - intros H. destruct (known_false _ H) as [H1 [H2 [H3 H4]]].
    unfold itemBody, when, bindE, ret. rewrite H1, H2, H3, H4. reflexivity.
  - intros e Hop Hv. unfold itemBody, when, bindE. rewrite Hop.
    cbn [String.eqb Ascii.eqb Bool.eqb]. unfold ret at 1.
    unfold opGetPageInsights, bindE, liftC. rewrite Hv. reflexivity.
  - intros e Hop Hv. unfold itemBody, when, bindE. rewrite Hop.
    cbn [String.eqb Ascii.eqb Bool.eqb]. unfold ret at 1 2.
    unfold opInspectUrl, bindE, liftC. fold (inspectSiteUrl p). rewrite Hv. reflexivity.
  - intros siteUrl Hop Hv H1 H2. unfold itemBody, when, bindE. rewrite Hop.
    cbn [String.eqb Ascii.eqb Bool.eqb]. unfold ret at 1 2.
    unfold opInspectUrl, bindE, liftC. fold (inspectSiteUrl p). rewrite Hv, H1, H2.
    reflexivity.
  - intros e Hop Hv. unfold itemBody, when, bindE. rewrite Hop.
    cbn [String.eqb Ascii.eqb Bool.eqb]. unfold ret.
    unfold opComparePageInsights, bindE, liftC. rewrite Hv. reflexivity.
  - intros siteUrl Hop Hv Hd. unfold itemBody, when, bindE. rewrite Hop.
    cbn [String.eqb Ascii.eqb Bool.eqb]. unfold ret.
    unfold opComparePageInsights, bindE, liftC. rewrite Hv, Hd. reflexivity.
Qed.

Lemma rejected_item_sends_no_request_witness :
  itemBody utc noOtherDates nat (mockSource rows250) (fun _ => noon20240310) O
    (sampleItem "inspectUrl" "__NO_SITES__" false) {| world := O; returnData := [] |}
  = (Throw (NodeOperationError "No site selected for URL inspection."),
     {| world := O; returnData := [] |}).
Proof.
  exact (proj1 (proj2 (proj2 (rejected_item_sends_no_request utc noOtherDates nat
                                (mockSource rows250) (fun _ => noon20240310) O
                                (sampleItem "inspectUrl" "__NO_SITES__" false)
                                {| world := O; returnData := [] |})))
           _ eq_refl eq_refl).
Defined.

(** X9: what an item adds to [returnData] when its requests succeed.  For
    [getSites]: the site entries of the response, in order, none when the
    response has no such array.  For [getPageInsights]: [mapRow] of each
    row [fetchAllRows] returned, in order, at most [rowLimit] of them.
    For [inspectUrl]: the one inspection result of the response, an empty
    object when it has none.  For [comparePageInsights]: the records of
    the join of the rows of the two fetches, the second made in the world
    the first left, at most twice the row limit of them.  Every record is
    paired with the item, and the world is the one the last request
    left. *)
Theorem item_output_follows_response
    (zone : Z -> bool -> Z) (otherParse : string -> option Z) (World : Type)
    (http : World -> Request -> Completion Response * World) (clock : World -> Z)
    (i : nat) (p : ItemParams) (st : ExecState World) :
  (forall resp w1,
      p_operation p = "getSites" ->
      http (world st) ListSites = (Normal resp, w1) ->
      itemBody zone otherParse World http clock i p st
      = (Normal tt,
         {| world := w1;
            returnData :=
              returnData st
              ++ map (fun s => {| json := s; pairedItem := i |})
                     (match siteEntry resp with Some l => l | None => [] end) |}))
  /\ (forall siteUrl range rs w1,
      p_operation p = "getPageInsights" ->
      validateSiteUrlOrThrow (insightsSiteUrl p) "page insights" = Normal siteUrl ->
      rangeFromPreset zone otherParse (clock (world st)) (p_dateRangeMode p)
        (Some (p_startDate p)) (Some (p_endDate p)) = Normal range ->
      fetchAllRows World http (world st) siteUrl (insightsBody p range) (p_rowLimit p)
      = (Normal rs, w1) ->
      itemBody zone otherParse World http clock i p st
      = (Normal tt,
         {| world := w1;
            returnData :=
              returnData st
              ++ map (fun r => {| json := mapRow (p_dimensions p) r; pairedItem := i |})
                     rs |})
      /\ (0 <= p_rowLimit p -> len rs <= p_rowLimit p))
  /\ (forall siteUrl resp w1,
      p_operation p = "inspectUrl" ->
      validateSiteUrlOrThrow (inspectSiteUrl p) "URL inspection" = Normal siteUrl ->
      prefix "http://" (trim (p_inspectionUrl p)) = true
      \/ prefix "https://" (trim (p_inspectionUrl p)) = true ->
      http (world st)
        (InspectUrl (trim (p_inspectionUrl p)) siteUrl
           (match p_languageCode p with EmptyString => None | l => Some l end))
      = (Normal resp, w1) ->
      itemBody zone otherParse World http clock i p st
      = (Normal tt,
         {| world := w1;
            returnData :=
              returnData st
              ++ [{| json := match inspectionResult resp with Some o => o | None => [] end;
                     pairedItem := i |}] |}))
  /\ (forall siteUrl rangeA rangeA' rangeB rowsA rowsB w1 w2,
      p_operation p = "comparePageInsights" ->
      validateSiteUrlOrThrow (compareSiteUrl p) "comparison" = Normal siteUrl ->
      p_dimensionsCompare p <> [] ->
      rangeFromPreset zone otherParse (clock (world st))
        (orString (p_dateRangeModeA p) "last28d")
        (Some (p_startDateA p)) (Some (p_endDateA p)) = Normal rangeA ->
      buildCompareRanges zone otherParse (clock (world st)) (compareModeOf p) rangeA
        (customBOf p) = Normal (rangeA', rangeB) ->
      fetchAllRows World http (world st) siteUrl (compareBody p rangeA) (compareRowLimit p)
      = (Normal rowsA, w1) ->
      fetchAllRows World http w1 siteUrl (compareBody p rangeB) (compareRowLimit p)
      = (Normal rowsB, w2) ->
      itemBody zone otherParse World http clock i p st
      = (Normal tt,
         {| world := w2;
            returnData :=
              returnData st
              ++ map (fun out => {| json := out; pairedItem := i |})
                     (joinRows (p_dimensionsCompare p) rangeA rangeB (compareModeOf p)
                        rowsA rowsB) |})
      /\ (0 <= compareRowLimit p ->
          len (joinRows (p_dimensionsCompare p) rangeA rangeB (compareModeOf p) rowsA rowsB)
          <= 2 * compareRowLimit p)).
Proof.
  split; [|split; [|split]].
  - intros resp w1 Hop Hr. unfold itemBody, when, bindE. rewrite Hop.
    cbn [String.eqb Ascii.eqb Bool.eqb]. unfold ret.
    unfold opGetSites, bindE, remote. rewrite Hr.
    unfold pushOk. rewrite forEach_push. reflexivity.
  - intros siteUrl range rs w1 Hop Hv Hr Hf. split.
    + unfold itemBody, when, bindE. rewrite Hop.
      cbn [String.eqb Ascii.eqb Bool.eqb]. unfold ret.
      unfold opGetPageInsights, bindE, liftC, readClock, remote.
      rewrite Hv, Hr, Hf. unfold pushOk. rewrite forEach_push. reflexivity.
    + intros Hl. eapply fetchAllRows_length; eassumption.
  - intros siteUrl resp w1 Hop Hv Hu Hr. unfold itemBody, when, bindE. rewrite Hop.
    cbn [String.eqb Ascii.eqb Bool.eqb]. unfold ret.
    unfold opInspectUrl, bindE, liftC, remote. fold (inspectSiteUrl p). rewrite Hv.
    replace (negb (prefix "http://" (trim (p_inspectionUrl p))
                   || prefix "https://" (trim (p_inspectionUrl p)))) with false
      by (destruct Hu as [Hu|Hu]; rewrite Hu; [|rewrite orb_true_r]; reflexivity).
    rewrite Hr. reflexivity.
  - intros siteUrl rangeA rangeA' rangeB rowsA rowsB w1 w2 Hop Hv Hd Hr Hb Ha Hb'. split.
    + unfold itemBody, when, bindE. rewrite Hop.
      cbn [String.eqb Ascii.eqb Bool.eqb]. unfold ret.
      unfold opComparePageInsights, bindE, liftC, readClock, remote.
      rewrite Hv. destruct (p_dimensionsCompare p) as [|d ds] eqn:Ed; [congruence|].
      rewrite Hr, Hb. cbn [snd world returnData]. rewrite Ha. cbn [world returnData].
      rewrite Hb'. rewrite forEach_push. reflexivity.
    + intros Hl.
      pose proof (fetchAllRows_length _ _ _ _ _ _ _ _ Hl Ha).
      pose proof (fetchAllRows_length _ _ _ _ _ _ _ _ Hl Hb').
      pose proof (joinRows_length (p_dimensionsCompare p) rangeA rangeB (compareModeOf p)
                    rowsA rowsB).
      unfold len in *. lia.
Qed.

Lemma item_output_follows_response_witness :
  itemBody utc noOtherDates nat (mockSource rows250) (fun _ => noon20240310) O
    (sampleItem "getPageInsights" "sc-domain:example.com" false)
    {| world := O; returnData := [] |}
  = (Normal tt,
     {| world := 1%nat;
        returnData :=
          [] ++ map (fun r => {| json := mapRow ["page"%string] r; pairedItem := O |})
                    rows250 |})
  /\ (0 <= 1000 -> len rows250 <= 1000).
Proof.
  exact (proj1 (proj2 (item_output_follows_response utc noOtherDates nat (mockSource rows250)
                         (fun _ => noon20240310) O
                         (sampleItem "getPageInsights" "sc-domain:example.com" false)
                         {| world := O; returnData := [] |}))
           "sc-domain:example.com"
           {| startDate := "2024-03-03"; endDate := "2024-03-10" |}
           rows250 1%nat eq_refl eq_refl
           ltac:(vm_compute; reflexivity) ltac:(vm_compute; reflexivity)).
Defined.

(** * White space, the site check and the records *)

(** ** Strings *)

Lemma append_nil_r s : (s ++ "")%string = s.
Proof. induction s as [|c r IH]; simpl; [reflexivity|rewrite IH; reflexivity]. Qed.

Lemma append_assoc a b c : ((a ++ b) ++ c)%string = (a ++ (b ++ c))%string.
Proof. induction a as [|x a IH]; simpl; [reflexivity|rewrite IH; reflexivity]. Qed.

Lemma append_length a b :
  String.length (a ++ b)%string = (String.length a + String.length b)%nat.
Proof. induction a as [|x a IH]; simpl; [reflexivity|rewrite IH; reflexivity]. Qed.

Lemma append_inv_head a b c : (a ++ b)%string = (a ++ c)%string -> b = c.
Proof. induction a as [|x a IH]; simpl; [auto|]. intros H. injection H as H. auto. Qed.

Lemma append_inv_tail a : forall b s, (a ++ s)%string = (b ++ s)%string -> a = b.
Proof.
  induction a as [|c a IH]; intros [|d b] s H.
  - reflexivity.
  - apply (f_equal String.length) in H. simpl in H. rewrite append_length in H. lia.
  - apply (f_equal String.length) in H. simpl in H. rewrite append_length in H. lia.
  - simpl in H. injection H as -> H. rewrite (IH _ _ H). reflexivity.
Qed.

Lemma hasChar_app c a b : hasChar c (a ++ b)%string = hasChar c a || hasChar c b.
Proof.
  induction a as [|x a IH]; simpl; [reflexivity|]. rewrite IH, orb_assoc. reflexivity.
Qed.

Lemma stripPrefix_app p r : stripPrefix p (p ++ r)%string = Some r.
Proof.
  induction p as [|a p IH]; simpl; [reflexivity|]. rewrite Ascii.eqb_refl. exact IH.
Qed.

Lemma stripPrefix_Some p : forall s r, stripPrefix p s = Some r -> s = (p ++ r)%string.
Proof.
  induction p as [|a p IH]; simpl; intros s r H.
  - injection H as <-. reflexivity.
  - destruct s as [|b s]; [discriminate|].
    destruct (a =? b)%char eqn:E; [|discriminate].
    apply Ascii.eqb_eq in E. subst b. rewrite (IH _ _ H). reflexivity.
Qed.

(** Two strings that start the same string: one starts the other. *)
Lemma stripPrefix_either p : forall q r t,
  (p ++ r)%string = (q ++ t)%string ->
  (exists u, q = (p ++ u)%string /\ r = (u ++ t)%string)
  \/ (exists u, p = (q ++ u)%string /\ t = (u ++ r)%string).
Proof.
  induction p as [|a p IH]; simpl; intros q r t H.
  - left. exists q. auto.
  - destruct q as [|b q]; simpl in H.
    + right. exists (String a p). auto.
    + injection H as -> H. destruct (IH _ _ _ H) as [[u [-> ->]]|[u [-> ->]]].
      * left. exists u. auto.
      * right. exists u. auto.
Qed.

Lemma stripAny_Some ps s r :
  stripAny ps s = Some r -> exists p, In p ps /\ s = (p ++ r)%string.
Proof.
  induction ps as [|p ps IH]; simpl; [discriminate|].
  destruct (stripPrefix p s) as [t|] eqn:E.
  - intros H. injection H as <-. exists p. split; [auto|]. apply stripPrefix_Some, E.
  - intros H. destruct (IH H) as [q [Hq Hs]]. eauto.
Qed.

Lemma stripAny_None ps s :
  stripAny ps s = None <-> forall p, In p ps -> stripPrefix p s = None.
Proof.
  induction ps as [|p ps IH]; simpl; [split; [intros _ p []|reflexivity]|].
  destruct (stripPrefix p s) as [t|] eqn:E.
  - split; [discriminate|]. intros H. rewrite (H p) in E by auto. discriminate.
  - rewrite IH. split; [intros H q [<-|Hq]; auto|auto].
Qed.

(** ** White space *)

(** No character of the list is empty, holds a comma or starts another one,
    and no byte after the first of one is the first byte of one. *)
Lemma whiteSpace_checked :
  forallb
    (fun p =>
       negb (p =? "")%string && negb (hasChar "," p)
       && forallb
            (fun q =>
               match stripPrefix p q with
               | Some _ => (p =? q)%string
               | None => true
               end
               && match p, q with
                  | String _ t, String b _ => negb (hasChar b t)
                  | _, _ => true
                  end)
            whiteSpace)
    whiteSpace
  = true.
Proof. vm_compute. reflexivity. Qed.

Lemma whiteSpace_facts p :
  In p whiteSpace ->
  p <> "" /\ hasChar "," p = false
  /\ forall q, In q whiteSpace ->
       (forall u, stripPrefix p q = Some u -> p = q)
       /\ (forall a t b u, p = String a t -> q = String b u -> hasChar b t = false).
Proof.
  intros Hp. pose proof whiteSpace_checked as H.
  rewrite forallb_forall in H. specialize (H p Hp).
  apply andb_true_iff in H. destruct H as [H H3].
  apply andb_true_iff in H. destruct H as [H1 H2].
  split; [|split].
  - intros ->. discriminate H1.
  - destruct (hasChar "," p); [discriminate|reflexivity].
  - intros q Hq. rewrite forallb_forall in H3. specialize (H3 q Hq).
    apply andb_true_iff in H3. destruct H3 as [H4 H5]. split.
    + intros u Hu. rewrite Hu in H4. apply String.eqb_eq, H4.
    + intros a t b u -> ->. destruct (hasChar b t); [discriminate|reflexivity].
Qed.

Lemma skipSpace_Some s r :
  skipSpace s = Some r -> exists p, In p whiteSpace /\ s = (p ++ r)%string.
Proof. apply stripAny_Some. Qed.

Lemma skipSpace_app p r : In p whiteSpace -> skipSpace (p ++ r) = Some r.
Proof.
  intros Hp. destruct (skipSpace (p ++ r)) as [t|] eqn:E.
  - destruct (skipSpace_Some _ _ E) as [q [Hq Heq]].
    destruct (stripPrefix_either _ _ _ _ Heq) as [[u [Hu _]]|[u [Hu _]]].
    + assert (p = q).
      { apply (proj2 (proj2 (whiteSpace_facts p Hp)) q Hq) with u.
        rewrite Hu. apply stripPrefix_app. }
      clear Hu. subst q. apply append_inv_head in Heq. congruence.
    + assert (q = p).
      { apply (proj2 (proj2 (whiteSpace_facts q Hq)) p Hp) with u.
        rewrite Hu. apply stripPrefix_app. }
      clear Hu. subst q. apply append_inv_head in Heq. congruence.
  - unfold skipSpace in E. rewrite stripAny_None in E.
    specialize (E p Hp). rewrite stripPrefix_app in E. discriminate.
Qed.

Lemma skipSpace_shorter s r :
  skipSpace s = Some r -> (String.length r < String.length s)%nat.
Proof.
  intros H. destruct (skipSpace_Some _ _ H) as [p [Hp ->]].
  rewrite append_length. destruct p; [|simpl; lia].
  exfalso. exact (proj1 (whiteSpace_facts _ Hp) eq_refl).
Qed.

Lemma trimStartN_enough n : forall m s,
  (String.length s <= n)%nat -> (String.length s <= m)%nat ->
  trimStartN n s = trimStartN m s.
Proof.
  induction n as [|n IH]; intros m s Hn Hm.
  - destruct s; [|simpl in Hn; lia]. destruct m; reflexivity.
  - destruct m as [|m].
    + destruct s; [reflexivity|simpl in Hm; lia].
    + simpl. destruct (skipSpace s) as [r|] eqn:E; [|reflexivity].
      pose proof (skipSpace_shorter _ _ E). apply IH; lia.
Qed.

Lemma trimStart_skip s r : skipSpace s = Some r -> trimStart s = trimStart r.
Proof.
  intros E. unfold trimStart. pose proof (skipSpace_shorter _ _ E) as Hl.
  destruct (String.length s) as [|n] eqn:En; [lia|].
  simpl. rewrite E. apply trimStartN_enough; lia.
Qed.

Lemma trimStart_stop s : skipSpace s = None -> trimStart s = s.
Proof.
  intros E. unfold trimStart. destruct (String.length s); simpl; [|rewrite E]; reflexivity.
Qed.

Lemma trimStart_spec s :
  exists w, Spaces w /\ s = (w ++ trimStart s)%string /\ skipSpace (trimStart s) = None.
Proof.
  remember (String.length s) as n eqn:Hn. revert s Hn.
  induction n as [n IH] using lt_wf_ind. intros s Hn.
  destruct (skipSpace s) as [r|] eqn:E.
  - pose proof (skipSpace_shorter _ _ E) as Hl.
    destruct (IH (String.length r) ltac:(lia) r eq_refl) as [w [Hw [Hr Hs]]].
    destruct (skipSpace_Some _ _ E) as [p [Hp Hsp]].
    exists (p ++ w)%string. rewrite (trimStart_skip _ _ E). split; [|split].
    + constructor; assumption.
    + rewrite append_assoc, <- Hr. exact Hsp.
    + exact Hs.
  - exists "". rewrite (trimStart_stop _ E). split; [constructor|auto].
Qed.

Lemma trimStart_spaces w t : Spaces w -> trimStart (w ++ t) = trimStart t.
Proof.
  induction 1 as [|p w Hp _ IH]; [reflexivity|].
  rewrite append_assoc. rewrite (trimStart_skip _ _ (skipSpace_app p _ Hp)). exact IH.
Qed.

Lemma trimStart_of_spaces w : Spaces w -> trimStart w = "".
Proof.
  intros H. rewrite <- (append_nil_r w). rewrite trimStart_spaces by exact H. reflexivity.
Qed.

Lemma Spaces_app a b : Spaces a -> Spaces b -> Spaces (a ++ b).
Proof.
  induction 1 as [|p w Hp _ IH]; intros Hb; [exact Hb|].
  rewrite append_assoc. constructor; auto.
Qed.

Lemma Spaces_one p : In p whiteSpace -> Spaces p.
Proof. intros H. rewrite <- (append_nil_r p). constructor; [exact H|constructor]. Qed.

Lemma Spaces_no_comma w : Spaces w -> hasChar "," w = false.
Proof.
  induction 1 as [|p w Hp _ IH]; [reflexivity|].
  rewrite hasChar_app, IH, (proj1 (proj2 (whiteSpace_facts p Hp))). reflexivity.
Qed.

(** What does not start with white space does not either when white space
    is put after it. *)
Lemma skipSpace_before_spaces t w :
  t <> "" -> skipSpace t = None -> Spaces w -> skipSpace (t ++ w) = None.
Proof.
  intros Ht Hn Hw. destruct (skipSpace (t ++ w)) as [r|] eqn:E; [|reflexivity].
  exfalso. destruct (skipSpace_Some _ _ E) as [p [Hp Heq]].
  destruct (stripPrefix_either _ _ _ _ Heq) as [[u [Hu Hw']]|[u [Hu _]]].
  - (* p = t ++ u, w = u ++ r *)
    destruct u as [|b u].
    + rewrite append_nil_r in Hu. subst p.
      rewrite <- (append_nil_r t) in Hn. rewrite (skipSpace_app t "" Hp) in Hn.
      discriminate.
    + destruct Hw as [|q w' Hq _]; [discriminate|].
      destruct q as [|b' q']; [exact (proj1 (whiteSpace_facts _ Hq) eq_refl)|].
      simpl in Hw'. injection Hw' as -> _.
      destruct t as [|a t']; [congruence|].
      simpl in Hu.
      pose proof (proj2 (proj2 (proj2 (whiteSpace_facts p Hp)) _ Hq) a (t' ++ String b u)%string
                    b q' Hu eq_refl) as Hc.
      rewrite hasChar_app in Hc. simpl in Hc. rewrite Ascii.eqb_refl in Hc.
      rewrite orb_true_r in Hc. discriminate.
  - (* t = p ++ u *)
    subst t. rewrite (skipSpace_app p u Hp) in Hn. discriminate.
Qed.

Lemma trimStart_nil_iff s : trimStart s = "" <-> Spaces s.
Proof.
  split.
  - intros H. destruct (trimStart_spec s) as [w [Hw [Hs _]]].
    rewrite H, append_nil_r in Hs. subst. exact Hw.
  - apply trimStart_of_spaces.
Qed.

Lemma trimStart_before_spaces x w :
  Spaces w -> trimStart x <> "" -> trimStart (x ++ w) = (trimStart x ++ w)%string.
Proof.
  intros Hw Hx. destruct (trimStart_spec x) as [w1 [Hw1 [Hs Hn]]].
  rewrite Hs at 1. rewrite append_assoc, trimStart_spaces by exact Hw1.
  apply trimStart_stop, skipSpace_before_spaces; assumption.
Qed.

Lemma trimEnd_cons c r :
  trimEnd (String c r)
  = match trimStart (String c r) with
    | EmptyString => EmptyString
    | _ => String c (trimEnd r)
    end.
Proof. reflexivity. Qed.

Lemma trimEnd_of_spaces w : Spaces w -> trimEnd w = "".
Proof.
  intros H. destruct w as [|c r]; [reflexivity|].
  rewrite trimEnd_cons, (trimStart_of_spaces _ H). reflexivity.
Qed.

Lemma trimEnd_spaces x w : Spaces w -> trimEnd (x ++ w) = trimEnd x.
Proof.
  intros Hw. induction x as [|c r IH]; [apply trimEnd_of_spaces, Hw|].
  change (String c r ++ w)%string with (String c (r ++ w)).
  rewrite !trimEnd_cons, IH.
  change (String c (r ++ w)) with (String c r ++ w)%string.
  destruct (trimStart (String c r)) as [|a b] eqn:E.
  - apply trimStart_nil_iff in E.
    rewrite (trimStart_of_spaces _ (Spaces_app _ _ E Hw)). reflexivity.
  - rewrite trimStart_before_spaces by (auto; rewrite E; discriminate).
    rewrite E. reflexivity.
Qed.

Lemma trimEnd_spec s : exists w, Spaces w /\ s = (trimEnd s ++ w)%string.
Proof.
  induction s as [|c r [w [Hw IH]]]; [exists ""; split; [constructor|reflexivity]|].
  rewrite trimEnd_cons. destruct (trimStart (String c r)) as [|a b] eqn:E.
  - exists (String c r). split; [apply trimStart_nil_iff, E|reflexivity].
  - exists w. split; [exact Hw|]. simpl. rewrite <- IH. reflexivity.
Qed.

Lemma trimEnd_idem s : trimEnd (trimEnd s) = trimEnd s.
Proof.
  destruct (trimEnd_spec s) as [w [Hw Hs]].
  rewrite Hs at 2. rewrite trimEnd_spaces by exact Hw. reflexivity.
Qed.

(** The trimmed string with the white space that was around it. *)
Lemma trim_spec s :
  exists w1 w2, Spaces w1 /\ Spaces w2 /\ s = (w1 ++ trim s ++ w2)%string.
Proof.
  destruct (trimStart_spec s) as [w1 [Hw1 [Hs _]]].
  destruct (trimEnd_spec (trimStart s)) as [w2 [Hw2 Ht]].
  exists w1, w2. split; [exact Hw1|split; [exact Hw2|]].
  unfold trim. rewrite <- Ht. exact Hs.
Qed.

Lemma skipSpace_trim s : skipSpace (trim s) = None.
Proof.
  destruct (trimStart_spec s) as [_ [_ [_ Hn]]].
  destruct (trimEnd_spec (trimStart s)) as [w [Hw Ht]].
  unfold trim. destruct (skipSpace (trimEnd (trimStart s))) as [r|] eqn:E; [|reflexivity].
  destruct (skipSpace_Some _ _ E) as [p [Hp Hq]].
  rewrite Ht, Hq, append_assoc, (skipSpace_app p _ Hp) in Hn. discriminate.
Qed.

Lemma trim_idem s : trim (trim s) = trim s.
Proof.
  unfold trim at 1. rewrite (trimStart_stop _ (skipSpace_trim s)).
  unfold trim. apply trimEnd_idem.
Qed.

Lemma trim_of_spaces w : Spaces w -> trim w = "".
Proof. intros H. unfold trim. rewrite (trimStart_of_spaces w H). reflexivity. Qed.

Lemma trim_spaces_l w x : Spaces w -> trim (w ++ x) = trim x.
Proof. intros H. unfold trim. rewrite trimStart_spaces by exact H. reflexivity. Qed.

Lemma trim_spaces_r x w : Spaces w -> trim (x ++ w) = trim x.
Proof.
  intros H. unfold trim. destruct (trimStart x) as [|a b] eqn:E.
  - apply trimStart_nil_iff in E.
    rewrite (trimStart_of_spaces _ (Spaces_app _ _ E H)). reflexivity.
  - rewrite trimStart_before_spaces by (auto; rewrite E; discriminate).
    rewrite E. apply trimEnd_spaces, H.
Qed.

Lemma trim_around w1 x w2 : Spaces w1 -> Spaces w2 -> trim (w1 ++ x ++ w2) = trim x.
Proof. intros H1 H2. rewrite trim_spaces_l, trim_spaces_r by assumption. reflexivity. Qed.

Lemma hasChar_trim c s : hasChar c s = false -> hasChar c (trim s) = false.
Proof.
  destruct (trim_spec s) as [w1 [w2 [_ [_ Hs]]]]. intros H.
  rewrite Hs, !hasChar_app in H.
  apply orb_false_iff in H. destruct H as [_ H].
  apply orb_false_iff in H. tauto.
Qed.

(** ** The site check *)

Lemma validateSiteUrlOrThrow_normal siteUrl context r :
  validateSiteUrlOrThrow siteUrl context = Normal r <->
  r = trim siteUrl /\ r <> "" /\ r <> "__NO_SITES__"
  /\ (prefix "http://" r = true \/ prefix "https://" r = true
      \/ prefix "sc-domain:" r = true).
Proof.
  unfold validateSiteUrlOrThrow.
  destruct (trim siteUrl =? "")%string eqn:E1;
    [apply String.eqb_eq in E1|apply String.eqb_neq in E1];
    (destruct (trim siteUrl =? "__NO_SITES__")%string eqn:E2;
     [apply String.eqb_eq in E2|apply String.eqb_neq in E2]);
    cbn [orb];
    try (split; [discriminate|intros [-> [H1 [H2 _]]]; congruence]).
  destruct (prefix "http://" (trim siteUrl)) eqn:P1;
    destruct (prefix "https://" (trim siteUrl)) eqn:P2;
    destruct (prefix "sc-domain:" (trim siteUrl)) eqn:P3;
    cbn [orb negb andb];
    try (split; [intros H; injection H as <-; rewrite ?P1, ?P2, ?P3; auto 6
                |intros [-> _]; reflexivity]).
  split; [discriminate|].
  intros [-> [_ [_ [H|[H|H]]]]]; congruence.
Qed.

(** The check reads its input through [trim] only. *)
Lemma validateSiteUrlOrThrow_trim a b context :
  trim a = trim b -> validateSiteUrlOrThrow a context = validateSiteUrlOrThrow b context.
Proof. intros H. unfold validateSiteUrlOrThrow. rewrite H. reflexivity. Qed.

(** X10: [validateSiteUrlOrThrow] returns exactly the trimmed input that is not
    empty, is not the placeholder [__NO_SITES__] and starts with
    [http://], [https://] or [sc-domain:]; what it returns it accepts again
    unchanged; it throws one of its two messages, the first one exactly
    for the empty and the placeholder input; and white space around the
    input, also a no-break space or a byte order mark, changes nothing. *)
Theorem validateSiteUrlOrThrow_accepts (siteUrl context : string) :
  (forall r,
      validateSiteUrlOrThrow siteUrl context = Normal r <->
      r = trim siteUrl /\ r <> "" /\ r <> "__NO_SITES__"
      /\ (prefix "http://" r = true \/ prefix "https://" r = true
          \/ prefix "sc-domain:" r = true))
  /\ (forall r context',
        validateSiteUrlOrThrow siteUrl context = Normal r ->
        validateSiteUrlOrThrow r context' = Normal r)
  /\ (forall e,
        validateSiteUrlOrThrow siteUrl context = Throw e ->
        (e = NodeOperationError ("No site selected for " ++ context ++ ".")
         /\ (trim siteUrl = "" \/ trim siteUrl = "__NO_SITES__"))
        \/ e = NodeOperationError
                 "Site URL must start with http(s):// or sc-domain:. Example: https://example.com/ or sc-domain:example.com")
  /\ (forall w1 w2,
        Spaces w1 -> Spaces w2 ->
        validateSiteUrlOrThrow (w1 ++ siteUrl ++ w2) context
        = validateSiteUrlOrThrow siteUrl context).
Proof.
  split; [|split; [|split]].
  - intros r. apply validateSiteUrlOrThrow_normal.
  - intros r context' H. apply validateSiteUrlOrThrow_normal in H.
    destruct H as [Hr [H1 [H2 H3]]]. apply validateSiteUrlOrThrow_normal.
    subst r. rewrite trim_idem. auto.
  - intros e. unfold validateSiteUrlOrThrow.
    destruct (trim siteUrl =? "")%string eqn:E1.
    { apply String.eqb_eq in E1. cbn [orb]. intros H. injection H as <-. auto. }
    destruct (trim siteUrl =? "__NO_SITES__")%string eqn:E2.
    { apply String.eqb_eq in E2. cbn [orb]. intros H. injection H as <-. auto. }
    cbn [orb].
    destruct (negb _ && negb _); [intros H; injection H as <-; auto|discriminate].
  - intros w1 w2 H1 H2. apply validateSiteUrlOrThrow_trim, trim_around; assumption.
Qed.

Lemma validateSiteUrlOrThrow_accepts_witness :
  validateSiteUrlOrThrow
    (utf8 0xFEFF ++ "https://example.com/" ++ (utf8 0xA0 ++ " ")) "page insights"
  = Normal "https://example.com/".
Proof.
  exact (proj2 (proj2 (proj2 (validateSiteUrlOrThrow_accepts "https://example.com/"
                                "page insights")))
           (utf8 0xFEFF) (utf8 0xA0 ++ " ")%string
           (Spaces_one (utf8 0xFEFF) ltac:(vm_compute; tauto))
           (Spaces_cons (utf8 0xA0) " " ltac:(vm_compute; tauto)
              (Spaces_one " " ltac:(vm_compute; tauto)))).
Defined.

(** ** [mapRow] *)

Lemma getProp_None_iff (o : JsObject) k : getProp o k = None <-> ~ In k (map fst o).
Proof.
  induction o as [|[k' v'] o IH]; simpl; [tauto|].
  destruct (k' =? k)%string eqn:E.
  - apply String.eqb_eq in E. split; [discriminate|]. intros H. exfalso. auto.
  - apply String.eqb_neq in E. rewrite IH. tauto.
Qed.

(** A name that is no array index goes last. *)
Lemma insertProp_last (o : JsObject) k v :
  arrayIndex k = None -> insertProp o k v = o ++ [(k, v)].
Proof.
  intros Hk. induction o as [|[k' v'] o IH]; simpl; [reflexivity|].
  unfold listedBefore. rewrite Hk, IH. reflexivity.
Qed.

Lemma setProp_fresh (o : JsObject) k v :
  (k =? "__proto__")%string = false -> arrayIndex k = None ->
  ~ In k (map fst o) -> setProp o k v = o ++ [(k, v)].
Proof.
  intros Hp Hk Hn. unfold setProp. rewrite Hp.
  rewrite (proj2 (getProp_None_iff o k) Hn). apply insertProp_last, Hk.
Qed.

Lemma insertProp_names (o : JsObject) k v :
  Permutation (map fst (insertProp o k v)) (k :: map fst o).
Proof.
  induction o as [|[k' v'] o IH]; simpl; [reflexivity|].
  destruct (listedBefore k k'); simpl; [reflexivity|].
  rewrite IH. apply perm_swap.
Qed.

Lemma setProp_names (o : JsObject) k v :
  (k =? "__proto__")%string = false -> ~ In k (map fst o) ->
  Permutation (map fst (setProp o k v)) (k :: map fst o).
Proof.
  intros Hp Hn. unfold setProp. rewrite Hp.
  rewrite (proj2 (getProp_None_iff o k) Hn). apply insertProp_names.
Qed.

Lemma setProp_names_cons (o : JsObject) k v l :
  (k =? "__proto__")%string = false -> Permutation (map fst o) l -> ~ In k l ->
  Permutation (map fst (setProp o k v)) (k :: l).
Proof.
  intros Hp Hl Hn. rewrite setProp_names; [rewrite Hl; reflexivity|exact Hp|].
  intros Hi. apply Hn. apply (Permutation_in _ Hl Hi).
Qed.

Lemma dimensionCells_names ks idx dims : map fst (dimensionCells ks idx dims) = dims.
Proof.
  revert idx. induction dims as [|d r IH]; intros idx; simpl; [reflexivity|].
  rewrite IH. reflexivity.
Qed.

Section MapRowLoop.

Variable ks : list string.

(** The loop of [mapRow] over the dimensions. *)
Local Abbreviation loop dims acc idx :=
  (fst (fold_left
          (fun (a : JsObject * nat) d =>
             (setProp (fst a) d
                (match nth_error ks (snd a) with
                 | Some v => VString v
                 | None => VUndefined
                 end),
              S (snd a)))
          dims (acc, idx))).

Lemma mapRow_fold dims :
  forall (acc : JsObject) (idx : nat),
    NoDup dims ->
    (forall d, In d dims ->
               ~ In d (map fst acc) /\ arrayIndex d = None /\ d <> "__proto__") ->
    loop dims acc idx = acc ++ dimensionCells ks idx dims.
Proof.
  induction dims as [|d r IH]; intros acc idx Hnd Hf; simpl.
  - rewrite app_nil_r. reflexivity.
  - inversion Hnd as [|? ? Hd Hr]; subst.
    destruct (Hf d (or_introl eq_refl)) as [H1 [H2 H3]].
    rewrite setProp_fresh by (auto; apply String.eqb_neq; exact H3).
    rewrite IH; [rewrite <- app_assoc; reflexivity|exact Hr|].
    intros d' Hd'. destruct (Hf d' (or_intror Hd')) as [H1' [H2' H3']].
    split; [|auto]. rewrite map_app, in_app_iff. simpl.
    intros [Hi|[He|[]]]; [contradiction|]. subst. contradiction.
Qed.

Lemma mapRow_fold_untouched dims :
  forall (acc : JsObject) (idx : nat) x,
    ~ In x dims -> getProp (loop dims acc idx) x = getProp acc x.
Proof.
  induction dims as [|d r IH]; intros acc idx x Hx; simpl; [reflexivity|].
  rewrite IH by (intros H; apply Hx; right; exact H).
  apply getProp_setProp_other, String.eqb_neq. intros ->. apply Hx. left. reflexivity.
Qed.

Lemma mapRow_fold_get dims :
  forall (acc : JsObject) (idx j : nat) d,
    NoDup dims -> nth_error dims j = Some d -> d <> "__proto__" ->
    getProp (loop dims acc idx) d = Some (cell ks (idx + j)).
Proof.
  induction dims as [|d0 r IH]; intros acc idx j d Hnd Hj Hp; [destruct j; discriminate|].
  inversion Hnd as [|? ? Hd Hr]; subst. destruct j as [|j]; simpl in Hj.
  - injection Hj as ->. simpl. rewrite mapRow_fold_untouched by exact Hd.
    rewrite Nat.add_0_r. apply getProp_setProp_same, String.eqb_neq, Hp.
  - simpl. rewrite (IH _ (S idx) j d Hr Hj Hp). f_equal. f_equal. lia.
Qed.

Lemma mapRow_fold_names dims :
  forall (acc : JsObject) (idx : nat),
    NoDup dims ->
    (forall d, In d dims -> ~ In d (map fst acc) /\ d <> "__proto__") ->
    Permutation (map fst (loop dims acc idx)) (map fst acc ++ dims).
Proof.
  induction dims as [|d r IH]; intros acc idx Hnd Hf; simpl.
  - rewrite app_nil_r. reflexivity.
  - inversion Hnd as [|? ? Hd Hr]; subst.
    destruct (Hf d (or_introl eq_refl)) as [H1 H3].
    rewrite IH; [|exact Hr|].
    + rewrite setProp_names by (auto; apply String.eqb_neq; exact H3).
      apply Permutation_middle.
    + intros d' Hd'. destruct (Hf d' (or_intror Hd')) as [H1' H3'].
      split; [|exact H3'].
      intros Hi. apply (Permutation_in _ (setProp_names acc d _
                          (proj2 (String.eqb_neq _ _) H3) H1)) in Hi.
      destruct Hi as [<-|Hi]; contradiction.
Qed.

End MapRowLoop.

(** X11: the record [mapRow] makes of a row always holds the four metrics of the
    row, also under a dimension of the same name; without [keys] it holds
    nothing else.  With [keys] and distinct dimension names, a dimension
    that is no metric name and not [__proto__] holds the value at its
    position, [undefined] past the end of [keys]; when no dimension is a
    metric name or [__proto__] the record has the dimensions and the four
    metrics and no other property; and when none is an array index either,
    the properties come as the dimensions in order, then the metrics.  A
    dimension that is an array index, as [2024], is listed first. *)
Theorem mapRow_record (dimensions : list string) (row : GscQueryRow) :
  (getProp (mapRow dimensions row) "clicks" = Some (VNumber (clicks row))
   /\ getProp (mapRow dimensions row) "impressions" = Some (VNumber (impressions row))
   /\ getProp (mapRow dimensions row) "ctr" = Some (VNumber (ctr row))
   /\ getProp (mapRow dimensions row) "position" = Some (VNumber (position row)))
  /\ (keys row = None -> mapRow dimensions row = metricCells row)
  /\ (forall ks j d,
        keys row = Some ks ->
        NoDup dimensions ->
        nth_error dimensions j = Some d ->
        ~ In d rowMetricFields ->
        d <> "__proto__" ->
        getProp (mapRow dimensions row) d = Some (cell ks j))
  /\ (forall ks,
        keys row = Some ks ->
        NoDup dimensions ->
        (forall d, In d dimensions -> ~ In d rowMetricFields /\ d <> "__proto__") ->
        Permutation (map fst (mapRow dimensions row)) (dimensions ++ rowMetricFields))
  /\ (forall ks,
        keys row = Some ks ->
        NoDup dimensions ->
        (forall d, In d dimensions ->
                   ~ In d rowMetricFields /\ d <> "__proto__" /\ arrayIndex d = None) ->
        mapRow dimensions row = dimensionCells ks 0 dimensions ++ metricCells row)
  /\ mapRow ["page"; "2024"]%string (rowWithKeys ["/a"; "x"]%string)
     = [("2024", VString "x"); ("page", VString "/a")]%string
       ++ metricCells (rowWithKeys ["/a"; "x"]%string).
Proof.
  split; [|split; [|split; [|split; [|split]]]].
  - unfold mapRow. repeat split;
      repeat (rewrite getProp_setProp_other by reflexivity);
      apply getProp_setProp_same; reflexivity.
  - intros Hk. unfold mapRow. rewrite Hk. reflexivity.
  - intros ks j d Hk Hnd Hj Hm Hp. unfold mapRow. rewrite Hk.
    assert (Hf : forall f, In f rowMetricFields -> (f =? d)%string = false).
    { intros f Hf. apply String.eqb_neq. intros ->. contradiction. }
    repeat (rewrite getProp_setProp_other by (apply Hf; simpl; tauto)).
    apply (mapRow_fold_get ks dimensions [] O j d Hnd Hj Hp).
  - intros ks Hk Hnd Hm. unfold mapRow. rewrite Hk.
    assert (Hfresh : forall f, In f rowMetricFields -> ~ In f dimensions).
    { intros f Hf Hi. exact (proj1 (Hm f Hi) Hf). }
    match goal with
    | |- Permutation
           (map fst (setProp (setProp (setProp (setProp ?o _ _) _ _) _ _) _ _)) _ =>
      assert (Hperm : Permutation (map fst o) dimensions)
        by (apply (mapRow_fold_names ks dimensions [] O Hnd);
            intros d Hd; split; [intros []|exact (proj2 (Hm d Hd))]);
      set (o0 := o) in *; clearbody o0
    end.
    rewrite (Permutation_app_comm dimensions).
    apply (Permutation_trans
             (l' := ["position"; "ctr"; "impressions"; "clicks"]%string ++ dimensions)).
    + cbn [app].
      repeat (apply setProp_names_cons;
              [reflexivity|
              |intros Hi; simpl in Hi;
               repeat (destruct Hi as [Hi|Hi]; [discriminate|]);
               revert Hi; apply Hfresh; simpl; tauto]).
      exact Hperm.
    + apply Permutation_app_tail.
      exact (Permutation_sym (Permutation_rev rowMetricFields)).
  - intros ks Hk Hnd Hm. unfold mapRow. rewrite Hk.
    match goal with
    | |- context [fst ?F] =>
      replace (fst F) with (dimensionCells ks 0 dimensions)
        by (symmetry; apply (mapRow_fold ks dimensions [] O Hnd);
            intros d Hd; destruct (Hm d Hd) as [_ [? ?]]; simpl; tauto)
    end.
    assert (Hd : forall f, In f rowMetricFields ->
                           ~ In f (map fst (dimensionCells ks 0 dimensions))).
    { intros f Hf. rewrite dimensionCells_names. intros Hi. exact (proj1 (Hm f Hi) Hf). }
    unfold metricCells.
    rewrite (setProp_fresh _ "clicks")
      by first [reflexivity | apply Hd; simpl; tauto].
    rewrite (setProp_fresh _ "impressions")
      by first [reflexivity
               | rewrite map_app, in_app_iff; simpl;
                 intros [Hi|[He|[]]]; [revert Hi; apply Hd; simpl; tauto|discriminate]].
    rewrite (setProp_fresh _ "ctr")
      by first [reflexivity
               | rewrite !map_app, !in_app_iff; simpl;
                 intros [[Hi|[He|[]]]|[He|[]]];
                 [revert Hi; apply Hd; simpl; tauto|discriminate|discriminate]].
    rewrite (setProp_fresh _ "position")
      by first [reflexivity
               | rewrite !map_app, !in_app_iff; simpl;
                 intros [[[Hi|[He|[]]]|[He|[]]]|[He|[]]];
                 [revert Hi; apply Hd; simpl; tauto|discriminate|discriminate|discriminate]].
    rewrite <- !app_assoc. reflexivity.
  - reflexivity.
Qed.

Lemma mapRow_record_witness :
  getProp (mapRow ["page"; "2024"]%string (rowWithKeys ["/a"]%string)) "2024"
  = Some VUndefined.
Proof.
  refine (proj1 (proj2 (proj2 (mapRow_record ["page"; "2024"]%string
                                 (rowWithKeys ["/a"]%string))))
            ["/a"%string] 1%nat "2024"%string eq_refl _ eq_refl _ _).
  - repeat constructor; simpl; intuition discriminate.
  - simpl. intuition discriminate.
  - discriminate.
Defined.

(** ** Keys in order *)

Lemma mapKeys_mapSet_setAdd {V : Type} (m : JsMap V) k v :
  mapKeys (mapSet m k v) = setAdd (mapKeys m) k.
Proof.
  unfold mapKeys. induction m as [|[k' v'] m IH]; simpl; [reflexivity|].
  destruct (k' =? k)%string; simpl; [reflexivity|]. rewrite IH. reflexivity.
Qed.

Lemma rowsToMap_fold_keys dims rs :
  forall m,
    mapKeys (fold_left (fun m r => mapSet m (keyFromRow dims r) r) rs m)
    = fold_left setAdd (map (keyFromRow dims) rs) (mapKeys m).
Proof.
  induction rs as [|r rs IH]; intros m; simpl; [reflexivity|].
  rewrite IH, mapKeys_mapSet_setAdd. reflexivity.
Qed.

Lemma rowsToMap_mapKeys dims rs :
  mapKeys (rowsToMap rs dims) = newSet (map (keyFromRow dims) rs).
Proof. unfold rowsToMap, newSet. apply rowsToMap_fold_keys. Qed.

Lemma setAdd_present s k : In k s -> setAdd s k = s.
Proof.
  induction s as [|x s IH]; simpl; [intros []|].
  destruct (x =? k)%string eqn:E; [reflexivity|].
  apply String.eqb_neq in E. intros [H|H]; [congruence|]. rewrite IH by exact H. reflexivity.
Qed.

Lemma fold_setAdd_setAdd t : forall s k,
  fold_left setAdd (setAdd t k) s = setAdd (fold_left setAdd t s) k.
Proof.
  induction t as [|x t IH]; intros s k; simpl; [reflexivity|].
  destruct (x =? k)%string eqn:E; simpl.
  - apply String.eqb_eq in E. subst x. symmetry. apply setAdd_present.
    apply newSet_fold. left. apply setAdd_In. right. reflexivity.
  - apply IH.
Qed.

Lemma fold_setAdd_fold l : forall t s,
  fold_left setAdd (fold_left setAdd l t) s = fold_left setAdd l (fold_left setAdd t s).
Proof.
  induction l as [|k l IH]; intros t s; simpl; [reflexivity|].
  rewrite IH, fold_setAdd_setAdd. reflexivity.
Qed.

Lemma newSet_of_newSets a b : newSet (newSet a ++ newSet b) = newSet (a ++ b).
Proof.
  unfold newSet. rewrite !fold_left_app.
  rewrite (fold_setAdd_fold b []). simpl.
  rewrite (fold_setAdd_fold a [] []). reflexivity.
Qed.

(** X12: the keys of the map [rowsToMap] builds are the row keys in order of
    first appearance, each once; a key holds the last row that has it; and
    a key is absent exactly when no row has it. *)
Theorem rowsToMap_last_row_wins (dims : list string) :
  (forall rs, mapKeys (rowsToMap rs dims) = newSet (map (keyFromRow dims) rs))
  /\ (forall rs, NoDup (mapKeys (rowsToMap rs dims)))
  /\ (forall pre r post,
        (forall r', In r' post -> keyFromRow dims r' <> keyFromRow dims r) ->
        mapGet (rowsToMap (pre ++ r :: post) dims) (keyFromRow dims r) = Some r)
  /\ (forall rs k,
        mapGet (rowsToMap rs dims) k = None
        <-> forall r, In r rs -> keyFromRow dims r <> k).
Proof.
  split; [|split; [|split]].
  - intros rs. apply rowsToMap_mapKeys.
  - intros rs. rewrite rowsToMap_mapKeys. apply newSet_NoDup.
  - intros pre r post Hp. unfold rowsToMap. rewrite fold_left_app. simpl.
    apply rowsToMap_fold_last; [apply mapGet_mapSet_same|exact Hp].
  - intros rs k. rewrite mapGet_none_iff, rowsToMap_keys. split.
    + intros H r Hr He. apply H. exists r. split; assumption.
    + intros H [r [Hr He]]. exact (H r Hr He).
Qed.

Lemma rowsToMap_last_row_wins_witness :
  mapGet (rowsToMap ([rowA] ++ zeroRow ["/a"%string] :: [rowB]) ["page"%string])
         (keyFromRow ["page"%string] (zeroRow ["/a"%string]))
  = Some (zeroRow ["/a"%string]).
Proof.
  refine (proj1 (proj2 (proj2 (rowsToMap_last_row_wins ["page"%string])))
            [rowA] (zeroRow ["/a"%string]) [rowB] _).
  intros r' [<-|[]]. discriminate.
Defined.

(** X13: the joined records come in the order in which the keys first appear
    in the rows of A followed by the rows of B; there are no more of them
    than rows; and each carries the two ranges and the compare mode. *)
Theorem joinRows_in_order_of_first_appearance
    (dims : list string) (rangeA rangeB : DateRange) (mode : string)
    (rowsA rowsB : list GscQueryRow) :
  joinRows dims rangeA rangeB mode rowsA rowsB
  = map (comparisonRecord dims rangeA rangeB mode
           (rowsToMap rowsA dims) (rowsToMap rowsB dims))
        (newSet (map (keyFromRow dims) (rowsA ++ rowsB)))
  /\ (List.length (joinRows dims rangeA rangeB mode rowsA rowsB)
      <= List.length rowsA + List.length rowsB)%nat
  /\ (forall out,
        In out (joinRows dims rangeA rangeB mode rowsA rowsB) ->
        getProp out "range_a" = Some (VRange rangeA)
        /\ getProp out "range_b" = Some (VRange rangeB)
        /\ getProp out "compare_mode" = Some (VString mode)).
Proof.
  split; [|split].
  - unfold joinRows. rewrite !rowsToMap_mapKeys, newSet_of_newSets, map_app. reflexivity.
  - unfold joinRows. rewrite List.length_map, !rowsToMap_mapKeys, newSet_of_newSets.
    pose proof (newSet_fold_NoDup (map (keyFromRow dims) rowsA ++ map (keyFromRow dims) rowsB)
                  [] (NoDup_nil _)) as Hnd.
    fold (newSet (map (keyFromRow dims) rowsA ++ map (keyFromRow dims) rowsB)) in Hnd.
    assert (Hincl : incl (newSet (map (keyFromRow dims) rowsA ++ map (keyFromRow dims) rowsB))
                         (map (keyFromRow dims) rowsA ++ map (keyFromRow dims) rowsB))
      by (intros x Hx; apply newSet_In; exact Hx).
    pose proof (NoDup_incl_length Hnd Hincl) as Hl.
    rewrite List.length_app, !List.length_map in Hl. exact Hl.
  - intros out Ho. unfold joinRows in Ho. apply in_map_iff in Ho.
    destruct Ho as [k [<- _]]. unfold comparisonRecord.
    repeat split;
      repeat (rewrite getProp_setProp_other by reflexivity);
      apply getProp_setProp_same; reflexivity.
Qed.

Lemma joinRows_in_order_of_first_appearance_witness :
  getProp (comparisonRecord ["page"%string] exampleRange exampleRangeB "prevPeriod"
             (rowsToMap [rowA] ["page"%string]) (rowsToMap [rowB] ["page"%string]) "/a")
          "range_a"
  = Some (VRange exampleRange).
Proof.
  exact (proj1 (proj2 (proj2 (joinRows_in_order_of_first_appearance ["page"%string]
                                exampleRange exampleRangeB "prevPeriod" [rowA] [rowB]))
                  _ (or_introl eq_refl))).
Defined.

(** * The filter groups *)

Lemma splitOn_cons sep s : exists x xs, splitOn sep s = x :: xs.
Proof.
  induction s as [|c r [x [xs IH]]]; simpl; [eauto|].
  destruct (c =? sep)%char; [eauto|]. rewrite IH. eauto.
Qed.

Lemma splitOn_hasChar sep s : Forall (fun p => hasChar sep p = false) (splitOn sep s).
Proof.
  induction s as [|c r IH]; simpl; [repeat constructor|].
  destruct (c =? sep)%char eqn:E; [constructor; [reflexivity|exact IH]|].
  destruct (splitOn sep r) as [|x xs]; [repeat constructor; simpl; rewrite E; reflexivity|].
  inversion IH; subst. constructor; [simpl; rewrite E; assumption|assumption].
Qed.

Lemma splitOn_before sep w s x xs :
  hasChar sep w = false -> splitOn sep s = x :: xs ->
  splitOn sep (w ++ s) = (w ++ x)%string :: xs.
Proof.
  intros Hw Hs. induction w as [|c w IH]; [exact Hs|].
  simpl in Hw. apply orb_false_iff in Hw. destruct Hw as [Hc Hw].
  simpl. rewrite Hc, (IH Hw). reflexivity.
Qed.

Lemma splitOn_after sep w s :
  hasChar sep w = false ->
  exists l x, splitOn sep s = l ++ [x] /\ splitOn sep (s ++ w) = l ++ [(x ++ w)%string].
Proof.
  intros Hw. induction s as [|c r [l [x [H1 H2]]]].
  - exists [], "". split; [reflexivity|]. simpl.
    destruct (splitOn_cons sep "") as [y [ys Hy]].
    rewrite <- (append_nil_r w) at 1.
    rewrite (splitOn_before sep w "" "" [] Hw eq_refl), append_nil_r. reflexivity.
  - simpl. destruct (c =? sep)%char.
    + exists ("" :: l), x. rewrite H1, H2. split; reflexivity.
    + rewrite H1, H2. destruct l as [|y l]; simpl.
      * exists [], (String c x). split; reflexivity.
      * exists (String c y :: l), x. split; reflexivity.
Qed.

Lemma map_trim_splitOn_trim s :
  map trim (splitOn "," (trim s)) = map trim (splitOn "," s).
Proof.
  destruct (trim_spec s) as [w1 [w2 [H1 [H2 Hs]]]].
  rewrite Hs at 2.
  destruct (splitOn_after "," w2 (trim s) (Spaces_no_comma _ H2)) as [l [x [Ha Hb]]].
  rewrite Ha. destruct l as [|y l]; simpl in Hb.
  - rewrite (splitOn_before "," w1 _ _ _ (Spaces_no_comma _ H1) Hb). simpl.
    rewrite trim_around by assumption. reflexivity.
  - rewrite (splitOn_before "," w1 _ _ _ (Spaces_no_comma _ H1) Hb). simpl.
    rewrite !map_app. simpl.
    rewrite trim_spaces_l, trim_spaces_r by assumption. reflexivity.
Qed.

Lemma trim_after_space x : trim (String " " x) = trim x.
Proof.
  apply (trim_spaces_l " " x). apply Spaces_one. vm_compute. tauto.
Qed.

Lemma splitOn_sep sep a b :
  splitOn sep (a ++ String sep b)%string = splitOn sep a ++ splitOn sep b.
Proof.
  induction a as [|c a IH]; simpl.
  - rewrite Ascii.eqb_refl. reflexivity.
  - destruct (c =? sep)%char; [rewrite IH; reflexivity|].
    rewrite IH. destruct (splitOn_cons sep a) as [x [xs ->]]. reflexivity.
Qed.

Lemma filterValues_pieces f :
  filterValues f
  = filter nonEmpty (map trim (splitOn "," (orDefault (fp_expression f) ""))).
Proof.
  unfold filterValues. rewrite <- (map_trim_splitOn_trim (orDefault (fp_expression f) "")).
  destruct (trim (orDefault (fp_expression f) "")); reflexivity.
Qed.

Lemma filterValues_clean f : Forall cleanValue (filterValues f).
Proof.
  rewrite filterValues_pieces. apply Forall_forall. intros v Hv.
  apply filter_In in Hv. destruct Hv as [Hv Hn]. apply in_map_iff in Hv.
  destruct Hv as [p [<- Hp]]. split; [|split].
  - intros He. rewrite He in Hn. discriminate.
  - apply trim_idem.
  - apply hasChar_trim.
    apply (proj1 (Forall_forall _ _) (splitOn_hasChar "," _) p Hp).
Qed.

Lemma splitOn_plain sep s : hasChar sep s = false -> splitOn sep s = [s].
Proof.
  induction s as [|c r IH]; simpl; [reflexivity|].
  intros H. apply orb_false_iff in H. destruct H as [H1 H2].
  rewrite H1, IH by exact H2. reflexivity.
Qed.

Lemma splitOn_app sep a b :
  hasChar sep a = false -> splitOn sep (a ++ String sep b)%string = a :: splitOn sep b.
Proof.
  induction a as [|c r IH]; simpl.
  - intros _. rewrite Ascii.eqb_refl. reflexivity.
  - intros H. apply orb_false_iff in H. destruct H as [H1 H2].
    rewrite H1, IH by exact H2. reflexivity.
Qed.

Lemma splitOn_concat vs :
  Forall cleanValue vs -> vs <> [] ->
  map trim (splitOn "," (String.concat ", " vs)) = vs.
Proof.
  induction 1 as [|v vs [Hn [Ht Hc]] Hvs IH]; intros Hne; [congruence|].
  destruct vs as [|v' vs'].
  - simpl. rewrite splitOn_plain by exact Hc. simpl. rewrite Ht. reflexivity.
  - change (String.concat ", " (v :: v' :: vs'))
      with (v ++ String "," (String " " (String.concat ", " (v' :: vs'))))%string.
    rewrite splitOn_app by exact Hc. cbn [map]. rewrite Ht. f_equal.
    specialize (IH ltac:(discriminate)).
    cbn [splitOn]. change (" " =? ",")%char with false. cbv iota.
    destruct (splitOn "," (String.concat ", " (v' :: vs'))) as [|x xs] eqn:Es;
      [discriminate IH|].
    cbn [map] in *. injection IH as Hx Hxs. rewrite Hxs. f_equal.
    rewrite <- Hx. apply trim_after_space.
Qed.

Lemma filter_nonEmpty_clean vs : Forall cleanValue vs -> filter nonEmpty vs = vs.
Proof.
  induction 1 as [|v vs [Hn _] _ IH]; simpl; [reflexivity|].
  destruct v; [congruence|]. simpl. rewrite IH. reflexivity.
Qed.

Lemma addFilterGroup_app gs f : addFilterGroup gs f = gs ++ addFilterGroup [] f.
Proof.
  unfold addFilterGroup. destruct (fp_dimension f) as [d|]; [|rewrite app_nil_r; reflexivity].
  destruct (negb (d =? "page")%string && negb (d =? "query")%string);
    [rewrite app_nil_r; reflexivity|].
  destruct (filterValues f) as [|v [|v' vs]]; [rewrite app_nil_r| |]; reflexivity.
Qed.

Lemma buildFilterGroups_fold fs : forall gs,
  fold_left addFilterGroup fs gs = gs ++ buildFilterGroups fs.
Proof.
  unfold buildFilterGroups.
  induction fs as [|f fs IH]; intros gs; simpl; [rewrite app_nil_r; reflexivity|].
  rewrite IH, (IH (addFilterGroup [] f)), (addFilterGroup_app gs f), app_assoc. reflexivity.
Qed.

Lemma addFilterGroup_length f : (List.length (addFilterGroup [] f) <= 1)%nat.
Proof.
  unfold addFilterGroup. destruct (fp_dimension f) as [d|]; [|simpl; lia].
  destruct (negb (d =? "page")%string && negb (d =? "query")%string); [simpl; lia|].
  destruct (filterValues f) as [|v [|v' vs]]; simpl; lia.
Qed.

(** What one filter adds. *)
Lemma addFilterGroup_wellformed f g :
  In g (addFilterGroup [] f) ->
  filters g <> []
  /\ (List.length (filters g) = 1%nat -> groupType g = "and")
  /\ ((1 < List.length (filters g))%nat -> groupType g = orDefault (fp_valuesJoin f) "or")
  /\ forall flt, In flt (filters g) ->
       (f_dimension flt = "page" \/ f_dimension flt = "query")
       /\ fp_dimension f = Some (f_dimension flt)
       /\ f_operator flt = orDefault (fp_operator f) "contains"
       /\ cleanValue (f_expression flt).
Proof.
  unfold addFilterGroup. destruct (fp_dimension f) as [d|]; [|intros []].
  destruct (d =? "page")%string eqn:E1; destruct (d =? "query")%string eqn:E2;
    cbn [negb andb]; try (intros []);
    try apply String.eqb_eq in E1; try apply String.eqb_eq in E2;
    (assert (Hd : d = "page" \/ d = "query") by auto);
    pose proof (filterValues_clean f) as Hc;
    (destruct (filterValues f) as [|v [|v' vs]]; cbn [app]; intros Hg;
     [destruct Hg
     |destruct Hg as [<-|[]]; cbn [filters groupType List.length];
      (split; [discriminate|]); (split; [reflexivity|]); (split; [lia|]);
      intros flt [<-|[]]; cbn [f_dimension f_operator f_expression];
      inversion Hc; subst; auto
     |destruct Hg as [<-|[]]; cbn [filters groupType];
      (split; [discriminate|]); (split; [simpl; lia|]); (split; [reflexivity|]);
      intros flt Hf; apply in_map_iff in Hf; destruct Hf as [x [<- Hx]];
      cbn [f_dimension f_operator f_expression];
      repeat split; auto; apply (proj1 (Forall_forall _ _) Hc x Hx)]).
Qed.

Lemma buildFilterGroups_flat_map fs :
  buildFilterGroups fs = flat_map (addFilterGroup []) fs.
Proof.
  induction fs as [|f fs IH]; [reflexivity|].
  unfold buildFilterGroups. simpl. rewrite buildFilterGroups_fold, IH. reflexivity.
Qed.

Lemma orDefault_empty s : orDefault (Some s) "" = s.
Proof. destruct s; reflexivity. Qed.

(** X14: every group built from the filters comes from one filter of the
    collection and holds at least one filter; a group of one filter is an
    [and] group, a larger one has the filter's [valuesJoin], [or] by
    default; every filter of the group is on [page] or [query], has the
    operator of its source, [contains] by default, and a value that is not
    empty, has no white space around it and no comma in it. *)
Theorem buildFilterGroups_wellformed
    (filtersCollection : list FilterParam) (g : FilterGroup) :
  In g (buildFilterGroups filtersCollection) ->
  exists f,
    In f filtersCollection
    /\ filters g <> []
    /\ (List.length (filters g) = 1%nat -> groupType g = "and")
    /\ ((1 < List.length (filters g))%nat -> groupType g = orDefault (fp_valuesJoin f) "or")
    /\ forall flt, In flt (filters g) ->
         (f_dimension flt = "page" \/ f_dimension flt = "query")
         /\ fp_dimension f = Some (f_dimension flt)
         /\ f_operator flt = orDefault (fp_operator f) "contains"
         /\ cleanValue (f_expression flt).
Proof.
  rewrite buildFilterGroups_flat_map. intros H. apply in_flat_map in H.
  destruct H as [f [Hf Hg]]. exists f. split; [exact Hf|].
  apply addFilterGroup_wellformed. exact Hg.
Qed.

Lemma buildFilterGroups_wellformed_witness :
  exists f,
    In f [sampleFilter]
    /\ filters sampleGroup <> []
    /\ (List.length (filters sampleGroup) = 1%nat -> groupType sampleGroup = "and")
    /\ ((1 < List.length (filters sampleGroup))%nat ->
        groupType sampleGroup = orDefault (fp_valuesJoin f) "or")
    /\ forall flt, In flt (filters sampleGroup) ->
         (f_dimension flt = "page" \/ f_dimension flt = "query")
         /\ fp_dimension f = Some (f_dimension flt)
         /\ f_operator flt = orDefault (fp_operator f) "contains"
         /\ cleanValue (f_expression flt).
Proof.
  exact (buildFilterGroups_wellformed [sampleFilter] sampleGroup (or_introl eq_refl)).
Defined.

(** X15: the values of a filter are the pieces of its expression between
    commas, trimmed, the empty ones left out; trimming the whole expression
    first changes nothing.  Values that are clean, written with a comma and
    a space between them, are read back as they are.  A comma at the end,
    followed or not by white space of any kind, adds no value. *)
Theorem filterValues_are_the_trimmed_pieces :
  (forall f,
      filterValues f
      = filter nonEmpty (map trim (splitOn "," (orDefault (fp_expression f) ""))))
  /\ (forall f vs,
        Forall cleanValue vs ->
        fp_expression f = Some (String.concat ", " vs) ->
        filterValues f = vs)
  /\ (forall f f' e w,
        Spaces w ->
        fp_expression f = Some e ->
        fp_expression f' = Some (e ++ String "," w)%string ->
        filterValues f' = filterValues f).
Proof.
  split; [apply filterValues_pieces|split].
  - intros f vs Hvs He. rewrite filterValues_pieces, He, orDefault_empty.
    destruct vs as [|v vs]; [reflexivity|].
    rewrite splitOn_concat by (auto; discriminate).
    apply filter_nonEmpty_clean. exact Hvs.
  - intros f f' e w Hw He He'. rewrite !filterValues_pieces, He, He', !orDefault_empty.
    rewrite splitOn_sep, map_app, filter_app.
    rewrite (splitOn_plain "," w (Spaces_no_comma w Hw)). cbn [map filter].
    rewrite (trim_of_spaces w Hw).
    cbn [nonEmpty]. apply app_nil_r.
Qed.

Lemma filterValues_are_the_trimmed_pieces_witness :
  filterValues {| fp_dimension := Some "query"; fp_operator := Some "equals";
                  fp_valuesJoin := Some "and";
                  fp_expression := Some ("summer sale" ++ String "," (utf8 0xA0))%string |}
  = ["summer sale"].
Proof.
  exact (proj2 (proj2 filterValues_are_the_trimmed_pieces)
           {| fp_dimension := Some "query"; fp_operator := Some "equals";
              fp_valuesJoin := Some "and"; fp_expression := Some "summer sale" |}
           {| fp_dimension := Some "query"; fp_operator := Some "equals";
              fp_valuesJoin := Some "and";
              fp_expression := Some ("summer sale" ++ String "," (utf8 0xA0))%string |}
           "summer sale" (utf8 0xA0)
           (Spaces_one (utf8 0xA0) ltac:(vm_compute; tauto)) eq_refl eq_refl).
Defined.

(** X16: the groups follow the order of the filters: the groups of two
    collections one after the other are those of the first followed by
    those of the second, a filter adds at most one group, and the request
    body has no [dimensionFilterGroups] exactly when no filter adds one. *)
Theorem buildFilterGroups_in_order :
  (forall fs1 fs2,
      buildFilterGroups (fs1 ++ fs2) = buildFilterGroups fs1 ++ buildFilterGroups fs2)
  /\ (forall fs, (List.length (buildFilterGroups fs) <= List.length fs)%nat)
  /\ (forall fs,
        filterGroupsField (buildFilterGroups fs) = None
        <-> forall f, In f fs -> addFilterGroup [] f = []).
Proof.
  split; [|split].
  - intros fs1 fs2. rewrite !buildFilterGroups_flat_map. apply flat_map_app.
  - intros fs. rewrite buildFilterGroups_flat_map.
    induction fs as [|f fs IH]; simpl; [lia|].
    rewrite List.length_app. pose proof (addFilterGroup_length f). lia.
  - intros fs. rewrite buildFilterGroups_flat_map. split.
    + intros H f Hf.
      destruct (flat_map (addFilterGroup []) fs) as [|g gs] eqn:E; [|discriminate H].
      destruct (addFilterGroup [] f) as [|g gs] eqn:Ef; [reflexivity|].
      assert (Hi : In g (flat_map (addFilterGroup []) fs))
        by (apply in_flat_map; exists f; split; [exact Hf|rewrite Ef; left; reflexivity]).
      rewrite E in Hi. destruct Hi.
    + intros H. induction fs as [|f fs IH]; [reflexivity|].
      simpl. rewrite (H f (or_introl eq_refl)). simpl.
      apply IH. intros f' Hf'. apply H. right. exact Hf'.
Qed.

(** * More on the dates *)

Lemma padDigits_length n : forall z rest,
  String.length (padDigits n z rest) = (n + String.length rest)%nat.
Proof.
  induction n as [|n IH]; intros z rest; simpl; [reflexivity|].
  rewrite IH. simpl. lia.
Qed.

Lemma isoDay_length d : fourDigitDay d -> String.length (isoDay d) = 10%nat.
Proof.
  intros H. pose proof (fourDigitDay_year d H) as Hy.
  unfold isoDay, isoDate, isoYear.
  destruct ((0 <=? YearFromDay d) && (YearFromDay d <=? 9999)) eqn:E.
  - cbn [padDigits String.length]. reflexivity.
  - apply andb_false_iff in E. destruct E as [E|E];
      [apply Z.leb_gt in E|apply Z.leb_gt in E]; lia.
Qed.

Lemma isoDay_nonempty d : isoDay d <> EmptyString.
Proof.
  unfold isoDay.
  destruct (isoDate_cons (YearFromDay d) (MonthFromDay d + 1) (DateFromDay d) "")
    as [c [r E]].
  rewrite E. discriminate.
Qed.

Section DateEdges.

Variable zone : Z -> bool -> Z.
Variable otherParse : string -> option Z.

Lemma toGscDate_isoDay d :
  fourDigitDay d -> toGscDate otherParse (Some (isoDay d)) = isoDay d.
Proof.
  intros H.
  rewrite (toGscDate_parsed otherParse (isoDay d) (d * msPerDay));
    [rewrite Day_of_midnight; reflexivity|apply isoDay_nonempty|apply parse_isoDay; exact H].
Qed.

Lemma toISOString_outcome (d : JsDate.Date) :
  (exists s, toISOString d = Normal s)
  \/ toISOString d = Throw (RangeError "Invalid time value").
Proof. destruct d; simpl; eauto. Qed.

Lemma shiftDays_outcome iso days :
  (exists s, shiftDays zone otherParse iso days = Normal s)
  \/ shiftDays zone otherParse iso days = Throw (RangeError "Invalid time value").
Proof.
  unfold shiftDays.
  destruct (toISOString_outcome
              (setDate zone (ofString otherParse iso)
                 match getDate zone (ofString otherParse iso), days with
                 | Some x, Some n => Some (x + n)
                 | _, _ => None
                 end)) as [[s ->]| ->]; simpl; eauto.
Qed.

Lemma shiftYears_outcome iso years :
  (exists s, shiftYears zone otherParse iso years = Normal s)
  \/ shiftYears zone otherParse iso years = Throw (RangeError "Invalid time value").
Proof.
  unfold shiftYears.
  destruct (toISOString_outcome
              (setFullYear zone (ofString otherParse iso)
                 match getFullYear zone (ofString otherParse iso), years with
                 | Some x, Some n => Some (x + n)
                 | _, _ => None
                 end)) as [[s ->]| ->]; simpl; eauto.
Qed.

Lemma shiftDays_invalid iso days :
  parse otherParse iso = None ->
  shiftDays zone otherParse iso days = Throw (RangeError "Invalid time value").
Proof. intros H. unfold shiftDays, ofString. rewrite H. reflexivity. Qed.

Lemma shiftDays_NaN iso :
  shiftDays zone otherParse iso None = Throw (RangeError "Invalid time value").
Proof.
  unfold shiftDays. destruct (ofString otherParse iso); reflexivity.
Qed.

Lemma shiftYears_invalid iso years :
  parse otherParse iso = None ->
  shiftYears zone otherParse iso years = Throw (RangeError "Invalid time value").
Proof. intros H. unfold shiftYears, ofString. rewrite H. reflexivity. Qed.

Lemma daysInclusive_invalid a b :
  parse otherParse a = None \/ parse otherParse b = None ->
  daysInclusive zone otherParse a b = None.
Proof.
  intros [H|H]; unfold daysInclusive, ofString; rewrite H; simpl.
  - destruct (Date_UTC _ _ _); reflexivity.
  - reflexivity.
Qed.

Lemma buildCompareRanges_invalid now mode rangeA customB :
  mode = "prevPeriod" \/ mode = "prevYear" ->
  parse otherParse (startDate rangeA) = None \/ parse otherParse (endDate rangeA) = None ->
  buildCompareRanges zone otherParse now mode rangeA customB
  = Throw (RangeError "Invalid time value").
Proof.
  intros [-> | ->] Hp; unfold buildCompareRanges;
    cbn [String.eqb Ascii.eqb Bool.eqb].
  - rewrite (daysInclusive_invalid _ _ Hp). cbn [option_map].
    destruct (shiftDays_outcome (startDate rangeA) (Some (-1))) as [[s ->]| ->];
      [|reflexivity].
    cbn [bindC]. rewrite shiftDays_NaN. reflexivity.
  - destruct Hp as [Hp|Hp].
    + rewrite (shiftYears_invalid _ _ Hp). reflexivity.
    + destruct (shiftYears_outcome (startDate rangeA) (Some (-1))) as [[s ->]| ->];
        [|reflexivity].
      cbn [bindC]. rewrite (shiftYears_invalid _ _ Hp). reflexivity.
Qed.

Lemma toGscDate_empty_iff s :
  parse otherParse "" = None ->
  (s = "" \/ parse otherParse s = None) ->
  parse otherParse (toGscDate otherParse (Some s)) = None.
Proof.
  intros H0 [-> | H]; [exact H0|].
  rewrite toGscDate_unparsed by exact H. exact H0.
Qed.

End DateEdges.

(** X17: for a date of the years 0000 to 9999, [toGscDate] applied to its own
    result changes nothing, and the result is either empty or ten
    characters long. *)
Theorem toGscDate_idempotent (otherParse : string -> option Z) (d : option string) :
  (forall s t, d = Some s -> parse otherParse s = Some t -> fourDigitDay (Day t)) ->
  toGscDate otherParse (Some (toGscDate otherParse d)) = toGscDate otherParse d
  /\ (toGscDate otherParse d = ""
      \/ String.length (toGscDate otherParse d) = 10%nat).
Proof.
  intros H. destruct d as [[|c r]|]; try (split; [reflexivity|left; reflexivity]).
  destruct (parse otherParse (String c r)) as [t|] eqn:Hp.
  - specialize (H _ t eq_refl Hp).
    rewrite (toGscDate_parsed otherParse (String c r) t) by (auto; discriminate).
    split; [apply toGscDate_isoDay; exact H|right; apply isoDay_length; exact H].
  - rewrite (toGscDate_unparsed otherParse (String c r) Hp).
    split; [reflexivity|left; reflexivity].
Qed.

Lemma toGscDate_idempotent_witness :
  toGscDate noOtherDates (Some (toGscDate noOtherDates (Some "2024-03-10T12:00:00.000Z")))
  = toGscDate noOtherDates (Some "2024-03-10T12:00:00.000Z")
  /\ (toGscDate noOtherDates (Some "2024-03-10T12:00:00.000Z") = ""
      \/ String.length (toGscDate noOtherDates (Some "2024-03-10T12:00:00.000Z")) = 10%nat).
Proof.
  apply (toGscDate_idempotent noOtherDates (Some "2024-03-10T12:00:00.000Z")).
  intros s t Hs Hp. injection Hs as <-. vm_compute in Hp. injection Hp as <-.
  vm_compute. split; [discriminate|reflexivity].
Defined.

(** X18: on a host whose zone has a constant offset from UTC, [shiftDays]
    moves a [YYYY-MM-DD] date by that many calendar days; shifting twice
    is shifting by the sum, and shifting back returns the date. *)
Theorem shiftDays_adds_days
    (tz : Z) (otherParse : string -> option Z) (d n m : Z) :
  fourDigitDay d -> fourDigitDay (d + n) -> fourDigitDay (d + n + m) ->
  shiftDays (fixedZone tz) otherParse (isoDay d) (Some n) = Normal (isoDay (d + n))
  /\ (x <- shiftDays (fixedZone tz) otherParse (isoDay d) (Some n) ;;
      shiftDays (fixedZone tz) otherParse x (Some m))
     = shiftDays (fixedZone tz) otherParse (isoDay d) (Some (n + m))
  /\ (x <- shiftDays (fixedZone tz) otherParse (isoDay d) (Some n) ;;
      shiftDays (fixedZone tz) otherParse x (Some (- n)))
     = Normal (isoDay d).
Proof.
  intros Hd Hn Hm.
  assert (H1 : shiftDays (fixedZone tz) otherParse (isoDay d) (Some n)
               = Normal (isoDay (d + n))) by (apply shiftDays_isoDay; assumption).
  split; [exact H1|]. rewrite H1. cbn [bindC]. split.
  - rewrite shiftDays_isoDay by assumption.
    rewrite shiftDays_isoDay by (try assumption; replace (d + (n + m)) with (d + n + m) by lia;
                                 assumption).
    f_equal. f_equal. lia.
  - rewrite shiftDays_isoDay by (try assumption; replace (d + n + - n) with d by lia;
                                 assumption).
    f_equal. f_equal. lia.
Qed.

Lemma shiftDays_adds_days_witness :
  shiftDays (fixedZone utcMinus5) noOtherDates (isoDay 19782) (Some 2)
  = Normal (isoDay (19782 + 2))
  /\ (x <- shiftDays (fixedZone utcMinus5) noOtherDates (isoDay 19782) (Some 2) ;;
      shiftDays (fixedZone utcMinus5) noOtherDates x (Some (-31)))
     = shiftDays (fixedZone utcMinus5) noOtherDates (isoDay 19782) (Some (2 + -31))
  /\ (x <- shiftDays (fixedZone utcMinus5) noOtherDates (isoDay 19782) (Some 2) ;;
      shiftDays (fixedZone utcMinus5) noOtherDates x (Some (- 2)))
     = Normal (isoDay 19782).
Proof.
  apply (shiftDays_adds_days utcMinus5 noOtherDates 19782 2 (-31));
    vm_compute; split; first [discriminate|reflexivity].
Defined.

Lemma Date_UTC_local_zone (zone : Z -> bool -> Z) t :
  100 <= YearFromDay (Day (t + zone t true)) ->
  fourDigitDay (Day (t + zone t true)) ->
  Date_UTC (getFullYear zone (Some t)) (getMonth zone (Some t)) (getDate zone (Some t))
  = Some (Day (t + zone t true) * msPerDay).
Proof.
  intros Hy Hd.
  unfold Date_UTC, getFullYear, getMonth, getDate, option_map, LocalTime.
  unfold YearFromTime, MonthFromTime, DateFromTime.
  destruct ((0 <=? YearFromDay (Day (t + zone t true)))
            && (YearFromDay (Day (t + zone t true)) <=? 99)) eqn:E.
  { apply andb_true_iff in E. destruct E as [_ E]. apply Z.leb_le in E. lia. }
  rewrite MakeDay_of_fields. unfold MakeDate, MakeTime.
  replace (Day (t + zone t true) * msPerDay + (0 * 3600000 + 0 * 60000 + 0 * 1000 + 0))
    with (Day (t + zone t true) * msPerDay) by lia.
  apply TimeClip_fourDigit. rewrite Day_of_midnight. exact Hd.
Qed.

Lemma Day_west d z : - msPerDay <= z < 0 -> Day (d * msPerDay + z) = d - 1.
Proof.
  intros H. replace (d * msPerDay + z) with ((d - 1) * msPerDay + (z + msPerDay)) by lia.
  apply Day_of_parts. lia.
Qed.

(** X19: on a host that is always at or east of UTC, or always west of it,
    by less than a day, daylight time or not, [daysInclusive] of two
    [YYYY-MM-DD] dates after year 0100 is the number of calendar days from
    the first to the second, both counted. *)
Theorem daysInclusive_counts_days
    (zone : Z -> bool -> Z) (otherParse : string -> option Z) (a b : Z) :
  (forall t, 0 <= zone t true < msPerDay) \/ (forall t, - msPerDay <= zone t true < 0) ->
  DayFromYear 100 < a < DayFromYear 10000 ->
  DayFromYear 100 < b < DayFromYear 10000 ->
  daysInclusive zone otherParse (isoDay a) (isoDay b) = Some (lengthOf a b).
Proof.
  intros Hz Ha Hb.
  assert (H0 : DayFromYear 0 <= DayFromYear 100) by (apply DayFromYear_mono; lia).
  assert (HL : exists k, (k = 0 \/ k = 1)
                 /\ Day (a * msPerDay + zone (a * msPerDay) true) = a - k
                 /\ Day (b * msPerDay + zone (b * msPerDay) true) = b - k).
  { destruct Hz as [Hz|Hz].
    - exists 0. split; [auto|].
      rewrite !Day_of_parts by apply Hz. split; lia.
    - exists 1. split; [auto|]. rewrite !Day_west by apply Hz. split; reflexivity. }
  destruct HL as [k [Hk [La Lb]]].
  unfold daysInclusive, ofString.
  rewrite !parse_isoDay by (unfold fourDigitDay; lia).
  rewrite !Date_UTC_local_zone;
    try (rewrite ?La, ?Lb; apply YearFromDay_ge; lia);
    try (rewrite ?La, ?Lb; unfold fourDigitDay; lia).
  rewrite La, Lb. f_equal. unfold lengthOf.
  replace ((b - k) * msPerDay - (a - k) * msPerDay) with ((b - a) * msPerDay) by lia.
  change (24 * 60 * 60 * 1000) with msPerDay.
  rewrite Z.div_mul by (unfold msPerDay; lia). reflexivity.
Qed.

Lemma newYork2024_west t : - msPerDay <= newYork2024 t true < 0.
Proof.
  unfold newYork2024, msPerDay.
  destruct ((1710054000000 <=? t) && (t <? 1730613600000)); lia.
Qed.

Lemma daysInclusive_counts_days_witness :
  daysInclusive newYork2024 noOtherDates (isoDay 20037) (isoDay 20043)
  = Some (lengthOf 20037 20043).
Proof.
  exact (daysInclusive_counts_days newYork2024 noOtherDates 20037 20043
           (or_intror newYork2024_west)
           ltac:(vm_compute; split; reflexivity)
           ltac:(vm_compute; split; reflexivity)).
Defined.

(** X20: with the previous-period or the previous-year policy,
    [buildCompareRanges] throws [RangeError: Invalid time value] when either
    date of range A is not a date. *)
Theorem buildCompareRanges_unparseable_side_throws
    (zone : Z -> bool -> Z) (otherParse : string -> option Z) (now : Z) (mode : string)
    (rangeA : DateRange) (customB : option CustomRange) :
  mode = "prevPeriod" \/ mode = "prevYear" ->
  parse otherParse (startDate rangeA) = None \/ parse otherParse (endDate rangeA) = None ->
  buildCompareRanges zone otherParse now mode rangeA customB
  = Throw (RangeError "Invalid time value").
Proof. apply buildCompareRanges_invalid. Qed.

Lemma buildCompareRanges_unparseable_side_throws_witness :
  buildCompareRanges newYork2024 noOtherDates noon20240310 "prevYear"
    {| startDate := "2024-03-01"; endDate := "" |} None
  = Throw (RangeError "Invalid time value").
Proof.
  exact (buildCompareRanges_unparseable_side_throws newYork2024 noOtherDates noon20240310
           "prevYear" {| startDate := "2024-03-01"; endDate := "" |} None
           (or_intror eq_refl) (or_intror eq_refl)).
Defined.

(** X21: in a mode other than [custom], [rangeFromPreset] does not look at
    [customStart]; a mode it does not know counts as [last28d]; a
    [customEnd] that is not empty and not a date makes it throw; an absent
    or empty one means the clock. *)
Theorem rangeFromPreset_preset_modes
    (zone : Z -> bool -> Z) (otherParse : string -> option Z) (now : Z) (mode : string)
    (customStart customEnd : option string) :
  mode <> "custom" ->
  (forall customStart',
      rangeFromPreset zone otherParse now mode customStart customEnd
      = rangeFromPreset zone otherParse now mode customStart' customEnd)
  /\ (mode <> "last7d" -> mode <> "last3mo" -> mode <> "last12mo" ->
      rangeFromPreset zone otherParse now mode customStart customEnd
      = rangeFromPreset zone otherParse now "last28d" customStart customEnd)
  /\ (forall e,
        customEnd = Some e -> e <> "" -> parse otherParse e = None ->
        rangeFromPreset zone otherParse now mode customStart customEnd
        = Throw (RangeError "Invalid time value"))
  /\ (customEnd = None \/ customEnd = Some "" ->
      presetEnd otherParse now customEnd = Some now).
Proof.
  intros Hm. apply String.eqb_neq in Hm.
  split; [|split; [|split]].
  - intros customStart'. unfold rangeFromPreset. rewrite Hm. reflexivity.
  - intros H7 H3 H12. apply String.eqb_neq in H7, H3, H12.
    unfold rangeFromPreset. rewrite Hm, H7, H3, H12. cbn [negb].
    destruct (mode =? "last28d")%string; reflexivity.
  - intros e -> He Hp. unfold rangeFromPreset, presetEnd. rewrite Hm. cbn [negb].
    destruct e as [|c r]; [congruence|]. unfold ofString. rewrite Hp.
    destruct (mode =? "last7d")%string; [reflexivity|].
    destruct (mode =? "last28d")%string; [reflexivity|].
    destruct (mode =? "last3mo")%string; [reflexivity|].
    destruct (mode =? "last12mo")%string; reflexivity.
  - intros [-> | ->]; reflexivity.
Qed.

Lemma rangeFromPreset_preset_modes_witness :
  rangeFromPreset utc noOtherDates noon20240310 "yesterday" (Some "2024-01-01") (Some "")
  = rangeFromPreset utc noOtherDates noon20240310 "last28d" (Some "2024-01-01") (Some "").
Proof.
  exact (proj1 (proj2 (rangeFromPreset_preset_modes utc noOtherDates noon20240310
                         "yesterday" (Some "2024-01-01") (Some "")
                         ltac:(discriminate)))
           ltac:(discriminate) ltac:(discriminate) ltac:(discriminate)).
Defined.

(** X22: a comparison of a custom range A with the previous period or year
    fails with [RangeError: Invalid time value] before any request when a
    date of A is empty or not a date: the range is resolved with an empty
    date, which the policy cannot shift. *)
Theorem compare_custom_range_needs_both_dates
    (zone : Z -> bool -> Z) (otherParse : string -> option Z) (World : Type)
    (http : World -> Request -> Completion Response * World) (clock : World -> Z)
    (i : nat) (p : ItemParams) (st : ExecState World) (siteUrl : string) :
  parse otherParse "" = None ->
  p_operation p = "comparePageInsights" ->
  validateSiteUrlOrThrow (compareSiteUrl p) "comparison" = Normal siteUrl ->
  p_dimensionsCompare p <> [] ->
  p_dateRangeModeA p = "custom" ->
  compareModeOf p = "prevPeriod" \/ compareModeOf p = "prevYear" ->
  (p_startDateA p = "" \/ parse otherParse (p_startDateA p) = None)
  \/ (p_endDateA p = "" \/ parse otherParse (p_endDateA p) = None) ->
  rangeFromPreset zone otherParse (clock (world st)) "custom"
    (Some (p_startDateA p)) (Some (p_endDateA p))
  = Normal {| startDate := toGscDate otherParse (Some (p_startDateA p));
              endDate := toGscDate otherParse (Some (p_endDateA p)) |}
  /\ itemBody zone otherParse World http clock i p st
     = (Throw (RangeError "Invalid time value"), st).
Proof.
  intros H0 Hop Hv Hd Hm Hc Hdates.
  assert (Hr : rangeFromPreset zone otherParse (clock (world st)) "custom"
                 (Some (p_startDateA p)) (Some (p_endDateA p))
               = Normal {| startDate := toGscDate otherParse (Some (p_startDateA p));
                           endDate := toGscDate otherParse (Some (p_endDateA p)) |})
    by (rewrite rangeFromPreset_custom; apply defaultedRange_both).
  split; [exact Hr|].
  unfold itemBody, when, bindE. rewrite Hop.
  cbn [String.eqb Ascii.eqb Bool.eqb]. unfold ret.
  unfold opComparePageInsights, bindE, liftC, readClock. rewrite Hv.
  destruct (p_dimensionsCompare p) as [|d ds] eqn:Ed; [congruence|].
  rewrite Hm. cbn [orString]. rewrite Hr.
  rewrite buildCompareRanges_invalid; [reflexivity|exact Hc|].
  cbn [startDate endDate].
  destruct Hdates as [H|H]; [left|right]; apply toGscDate_empty_iff; assumption.
Qed.

Lemma compare_custom_range_needs_both_dates_witness :
  itemBody utc noOtherDates nat (mockSource rows250) (fun _ => noon20240310) O
    customCompareItem {| world := O; returnData := [] |}
  = (Throw (RangeError "Invalid time value"), {| world := O; returnData := [] |}).
Proof.
  refine (proj2 (compare_custom_range_needs_both_dates utc noOtherDates nat
                   (mockSource rows250) (fun _ => noon20240310) O customCompareItem
                   {| world := O; returnData := [] |}
                   "sc-domain:example.com" eq_refl eq_refl eq_refl _ eq_refl
                   (or_introl eq_refl) (or_introl (or_introl eq_refl)))).
  discriminate.
Defined.

Lemma leap_year_before y : InLeapYear y = true -> leapDays y = 1 /\ leapDays (y - 1) = 0.
Proof.
  unfold leapDays. intros H. rewrite H. split; [reflexivity|].
  unfold InLeapYear in *. apply andb_true_iff in H. destruct H as [H _].
  apply Z.eqb_eq in H.
  destruct ((y - 1) mod 4 =? 0) eqn:E; [|reflexivity].
  apply Z.eqb_eq in E. exfalso. Z.div_mod_to_equations. lia.
Qed.

(** X23: on a host at or east of UTC, the day one year before February 29 is
    March 1: the leap day carries over into the next month. *)
Theorem shiftYears_leap_day (tz : Z) (otherParse : string -> option Z) (y : Z) :
  0 <= tz < msPerDay ->
  1 <= y <= 9999 ->
  InLeapYear y = true ->
  shiftYears (fixedZone tz) otherParse (isoDate y 2 29 "") (Some (-1))
  = Normal (isoDate (y - 1) 3 1 "").
Proof.
  intros Htz Hy Hleap.
  destruct (leap_year_before y Hleap) as [L1 L0].
  assert (Hd : 1 <= 29 <= daysInMonth (leapDays y) 1) by (rewrite L1; simpl; lia).
  destruct (fields_of_MakeDay y 1 29 ltac:(lia) Hd) as [Fy [Fm Fd]].
  destruct (fields_of_MakeDay (y - 1) 2 1 ltac:(lia) ltac:(simpl; lia)) as [Gy [Gm Gd]].
  assert (Hcarry : MakeDay (y - 1) 1 29 = MakeDay (y - 1) 2 1).
  { rewrite !MakeDay_plain by lia. rewrite L0. simpl. lia. }
  assert (H4 : fourDigitDay (MakeDay y 1 29))
    by (apply fourDigitDay_of_year; rewrite Fy; lia).
  assert (G4 : fourDigitDay (MakeDay (y - 1) 2 1))
    by (apply fourDigitDay_of_year; rewrite Gy; lia).
  assert (Hp : parse otherParse (isoDate y 2 29 "") = Some (MakeDay y 1 29 * msPerDay)).
  { unfold parse. rewrite parseIso_isoDate; [| lia | lia | exact Hd].
    change (2 - 1) with 1. unfold MakeDate. rewrite Z.add_0_r.
    apply TimeClip_fourDigit. rewrite Day_of_midnight. exact H4. }
  assert (Hl : Day (MakeDay y 1 29 * msPerDay + tz) = MakeDay y 1 29)
    by (apply Day_of_parts; lia).
  assert (Ht : TimeWithinDay (MakeDay y 1 29 * msPerDay + tz) = tz).
  { pose proof (Day_decompose (MakeDay y 1 29 * msPerDay + tz)). lia. }
  unfold shiftYears, ofString. rewrite Hp.
  cbn [getFullYear option_map]. rewrite setFullYear_shift.
  unfold LocalTime, YearFromTime, fixedZone. rewrite Hl, Ht, Fy, Fm, Fd.
  replace (y + -1) with (y - 1) by lia. rewrite Hcarry.
  replace (MakeDay (y - 1) 2 1 * msPerDay + tz - tz)
    with (MakeDay (y - 1) 2 1 * msPerDay) by lia.
  rewrite TimeClip_fourDigit by (rewrite Day_of_midnight; exact G4).
  cbn [toISOString bindC].
  rewrite toGscDate_isoString by (rewrite Day_of_midnight; exact G4).
  rewrite Day_of_midnight. unfold isoDay. rewrite Gy, Gm, Gd. reflexivity.
Qed.

Lemma shiftYears_leap_day_witness :
  shiftYears utc noOtherDates "2024-02-29" (Some (-1)) = Normal "2023-03-01".
Proof.
  exact (shiftYears_leap_day 0 noOtherDates 2024 ltac:(unfold msPerDay; lia) ltac:(lia)
           eq_refl).
Defined.

(** * The list of verified sites *)

Section SortFacts.

Variable A : Type.
Variable compare : A -> A -> Z.

Lemma insertSorted_perm x l : Permutation (insertSorted compare x l) (x :: l).
Proof.
  induction l as [|y r IH]; simpl; [reflexivity|].
  destruct (compare x y <=? 0); [reflexivity|].
  rewrite IH. apply perm_swap.
Qed.

Lemma sortBy_perm l : Permutation (sortBy compare l) l.
Proof.
  induction l as [|x r IH]; simpl; [reflexivity|].
  rewrite insertSorted_perm, IH. reflexivity.
Qed.

Hypothesis antisymmetric : forall a b, 0 < compare a b -> compare b a <= 0.

Lemma insertSorted_HdRel x y l :
  compare y x <= 0 -> HdRel (fun a b => compare a b <= 0) y l ->
  HdRel (fun a b => compare a b <= 0) y (insertSorted compare x l).
Proof.
  intros Hyx Hl. destruct l as [|z r]; simpl; [constructor; exact Hyx|].
  destruct (compare x z <=? 0); constructor; [exact Hyx|].
  inversion Hl; assumption.
Qed.

Lemma insertSorted_sorted x l :
  Sorted (fun a b => compare a b <= 0) l ->
  Sorted (fun a b => compare a b <= 0) (insertSorted compare x l).
Proof.
  induction 1 as [|y r Hr IH Hy]; simpl; [repeat constructor|].
  destruct (compare x y <=? 0) eqn:E.
  - apply Z.leb_le in E. repeat constructor; assumption.
  - apply Z.leb_gt in E. constructor; [exact IH|].
    apply insertSorted_HdRel; [apply antisymmetric; exact E|exact Hy].
Qed.

Lemma sortBy_sorted l : Sorted (fun a b => compare a b <= 0) (sortBy compare l).
Proof.
  induction l as [|x r IH]; simpl; [constructor|].
  apply insertSorted_sorted. exact IH.
Qed.

End SortFacts.

Section DomainsFirst.

Variable localeCompare : string -> string -> Z.

Local Abbreviation cmp := (compareSites localeCompare).

Lemma compareSites_domain_url a b :
  isDomainProperty (se_siteUrl a) = true -> isDomainProperty (se_siteUrl b) = false ->
  cmp a b = -1 /\ cmp b a = 1.
Proof.
  unfold isDomainProperty, compareSites. intros -> ->. split; reflexivity.
Qed.

Lemma insertSorted_domain x urls :
  isDomainProperty (se_siteUrl x) = true ->
  Forall (fun s => isDomainProperty (se_siteUrl s) = false) urls ->
  insertSorted cmp x urls = x :: urls.
Proof.
  intros Hx Hu. destruct urls as [|y r]; [reflexivity|]. simpl.
  inversion Hu; subst.
  destruct (compareSites_domain_url x y Hx) as [-> _]; [assumption|reflexivity].
Qed.

Lemma insertSorted_grouped x l : grouped l -> grouped (insertSorted cmp x l).
Proof.
  intros [domains [urls [-> [Hd Hu]]]].
  destruct (isDomainProperty (se_siteUrl x)) eqn:Hx.
  - induction Hd as [|y r Hy Hr IH]; simpl.
    + rewrite insertSorted_domain by assumption.
      exists [x], urls. repeat split; auto.
    + destruct (cmp x y <=? 0).
      * exists (x :: y :: r), urls. repeat split; auto.
      * destruct IH as [d' [u' [E [Hd' Hu']]]].
        exists (y :: d'), u'. rewrite E. repeat split; auto.
  - induction Hd as [|y r Hy Hr IH]; simpl.
    + exists [], (insertSorted cmp x urls). repeat split; auto.
      rewrite insertSorted_perm. constructor; assumption.
    + destruct (compareSites_domain_url y x Hy Hx) as [_ ->]. simpl.
      destruct IH as [d' [u' [E [Hd' Hu']]]].
      exists (y :: d'), u'. rewrite E. repeat split; auto.
Qed.

Lemma sortBy_grouped l : grouped (sortBy cmp l).
Proof.
  induction l as [|x r IH]; simpl.
  - exists [], []. repeat split; constructor.
  - apply insertSorted_grouped. exact IH.
Qed.

End DomainsFirst.

Lemma siteOption_value l : map o_value (map siteOption l) = map se_siteUrl l.
Proof. rewrite map_map. reflexivity. Qed.

(** X24: when the site list is not empty, [getVerifiedSites] offers one option
    for each site, with the site as its value: a rearrangement of the list
    in which the domain properties come before all others, and which is in
    the order of the comparator when the collation never puts two strings
    each strictly after the other. *)
Theorem getVerifiedSites_offers_every_site_domains_first
    (World : Type) (listSites : World -> Completion (option (list GscSiteEntry)) * World)
    (localeCompare : string -> string -> Z) (w : World)
    (sites : list GscSiteEntry) (w' : World) :
  listSites w = (Normal (Some sites), w') ->
  sites <> [] ->
  exists sorted,
    getVerifiedSites World listSites localeCompare w = (Normal (map siteOption sorted), w')
    /\ Permutation sorted sites
    /\ (exists domains urls,
          map o_value (map siteOption sorted) = domains ++ urls
          /\ Forall (fun u => isDomainProperty u = true) domains
          /\ Forall (fun u => isDomainProperty u = false) urls)
    /\ ((forall a b, 0 < localeCompare a b -> localeCompare b a <= 0) ->
        Sorted (fun a b => compareSites localeCompare a b <= 0) sorted).
Proof.
  intros Hl Hne. exists (sortBy (compareSites localeCompare) sites).
  split; [|split; [|split]].
  - unfold getVerifiedSites, loadSites. rewrite Hl.
    destruct sites; [congruence|reflexivity].
  - apply sortBy_perm.
  - destruct (sortBy_grouped localeCompare sites) as [d [u [E [Hd Hu]]]].
    exists (map se_siteUrl d), (map se_siteUrl u).
    rewrite siteOption_value, E, map_app. repeat split; auto.
    + apply Forall_map. exact Hd.
    + apply Forall_map. exact Hu.
  - intros Ha. apply sortBy_sorted. intros a b.
    unfold compareSites.
    destruct (prefix "sc-domain:" (se_siteUrl a));
      destruct (prefix "sc-domain:" (se_siteUrl b)); simpl; try lia; apply Ha.
Qed.

Lemma codeOrder_antisymmetric a b : 0 < codeOrder a b -> codeOrder b a <= 0.
Proof.
  unfold codeOrder. rewrite (String.compare_antisym a b).
  destruct (String.compare b a); simpl; lia.
Qed.

Lemma getVerifiedSites_offers_every_site_domains_first_witness :
  exists sorted,
    getVerifiedSites unit (fun _ => (Normal (Some sampleSites), tt)) codeOrder tt
    = (Normal (map siteOption sorted), tt)
    /\ Permutation sorted sampleSites
    /\ Sorted (fun a b => compareSites codeOrder a b <= 0) sorted.
Proof.
  destruct (getVerifiedSites_offers_every_site_domains_first unit
              (fun _ => (Normal (Some sampleSites), tt)) codeOrder tt sampleSites tt
              eq_refl ltac:(discriminate)) as [sorted [H1 [H2 [_ H4]]]].
  exists sorted. split; [exact H1|]. split; [exact H2|].
  apply H4. exact codeOrder_antisymmetric.
Defined.

(** X25: [getVerifiedSites] never throws and never returns an empty list: a
    failed request gives the one error option, a missing or empty site list
    the one placeholder, and the value of either is turned down by
    [validateSiteUrlOrThrow] with "No site selected". *)
Theorem getVerifiedSites_placeholder_is_rejected
    (World : Type) (listSites : World -> Completion (option (list GscSiteEntry)) * World)
    (localeCompare : string -> string -> Z) (w : World) :
  (exists options w',
      getVerifiedSites World listSites localeCompare w = (Normal options, w')
      /\ options <> [])
  /\ (forall e w',
        listSites w = (Throw e, w') ->
        getVerifiedSites World listSites localeCompare w = (Normal [errorOption e], w'))
  /\ (forall w',
        listSites w = (Normal None, w') \/ listSites w = (Normal (Some []), w') ->
        getVerifiedSites World listSites localeCompare w = (Normal [noSitesOption], w'))
  /\ (forall e context,
        validateSiteUrlOrThrow (o_value (errorOption e)) context
        = Throw (NodeOperationError ("No site selected for " ++ context ++ "."))
        /\ validateSiteUrlOrThrow (o_value noSitesOption) context
           = Throw (NodeOperationError ("No site selected for " ++ context ++ "."))).
Proof.
  split; [|split; [|split]].
  - unfold getVerifiedSites, loadSites.
    destruct (listSites w) as [[[[|s l]|]|e] w']; eexists; eexists;
      (split; [reflexivity|]); try discriminate.
    cbn [sortBy]. intros H. apply map_eq_nil in H.
    destruct (sortBy (compareSites localeCompare) l) as [|y r]; simpl in H;
      [discriminate|].
    destruct (compareSites localeCompare s y <=? 0); discriminate.
  - intros e w' H. unfold getVerifiedSites, loadSites. rewrite H. reflexivity.
  - intros w' [H|H]; unfold getVerifiedSites, loadSites; rewrite H; reflexivity.
  - intros e context. split; reflexivity.
Qed.

Lemma getVerifiedSites_placeholder_is_rejected_witness :
  getVerifiedSites unit (fun _ => (Throw (RequestError "401 Unauthorized"), tt)) codeOrder tt
  = (Normal [errorOption (RequestError "401 Unauthorized")], tt).
Proof.
  exact (proj1 (proj2 (getVerifiedSites_placeholder_is_rejected unit
                         (fun _ => (Throw (RequestError "401 Unauthorized"), tt))
                         codeOrder tt))
           (RequestError "401 Unauthorized") tt eq_refl).
Defined.

(** * Request addresses *)

Lemma hexDigit_code n :
  (n < 16)%nat ->
  nat_of_ascii (hexDigit n) = (if (n <? 10)%nat then 48 + n else 55 + n)%nat.
Proof.
  intros H. unfold hexDigit. apply nat_ascii_embedding.
  destruct (n <? 10)%nat; lia.
Qed.

Lemma hexDigit_inj a b : (a < 16)%nat -> (b < 16)%nat -> hexDigit a = hexDigit b -> a = b.
Proof.
  intros Ha Hb H. apply (f_equal nat_of_ascii) in H.
  rewrite !hexDigit_code in H by assumption.
  destruct (a <? 10)%nat eqn:Ea; destruct (b <? 10)%nat eqn:Eb;
    try apply Nat.ltb_lt in Ea; try apply Nat.ltb_ge in Ea;
    try apply Nat.ltb_lt in Eb; try apply Nat.ltb_ge in Eb; lia.
Qed.

Lemma hexDigit_plain n : (n < 16)%nat -> isUnreserved (hexDigit n) = true.
Proof.
  intros H. unfold isUnreserved. rewrite hexDigit_code by exact H.
  do 16 (destruct n as [|n]; [reflexivity|]). lia.
Qed.

Lemma nat_of_ascii_bound c : (nat_of_ascii c < 256)%nat.
Proof. apply nat_ascii_bounded. Qed.

Lemma percent_digits_inj c1 c2 :
  hexDigit (nat_of_ascii c1 / 16) = hexDigit (nat_of_ascii c2 / 16) ->
  hexDigit (nat_of_ascii c1 mod 16) = hexDigit (nat_of_ascii c2 mod 16) ->
  c1 = c2.
Proof.
  intros Hh Hl.
  pose proof (nat_of_ascii_bound c1) as B1. pose proof (nat_of_ascii_bound c2) as B2.
  assert (Hq : (nat_of_ascii c1 / 16 = nat_of_ascii c2 / 16)%nat).
  { apply hexDigit_inj; [apply Nat.Div0.div_lt_upper_bound; lia
                        |apply Nat.Div0.div_lt_upper_bound; lia|exact Hh]. }
  assert (Hr : (nat_of_ascii c1 mod 16 = nat_of_ascii c2 mod 16)%nat).
  { apply hexDigit_inj; [apply Nat.mod_upper_bound; lia|apply Nat.mod_upper_bound; lia
                        |exact Hl]. }
  rewrite <- (ascii_nat_embedding c1), <- (ascii_nat_embedding c2). f_equal.
  rewrite (Nat.div_mod_eq (nat_of_ascii c1) 16), (Nat.div_mod_eq (nat_of_ascii c2) 16).
  rewrite Hq, Hr. reflexivity.
Qed.

Lemma encodeURIComponent_inj s1 : forall s2,
  encodeURIComponent s1 = encodeURIComponent s2 -> s1 = s2.
Proof.
  induction s1 as [|c1 r1 IH]; intros [|c2 r2] H.
  - reflexivity.
  - simpl in H. destruct (isUnreserved c2); discriminate H.
  - simpl in H. destruct (isUnreserved c1); discriminate H.
  - cbn [encodeURIComponent] in H.
    destruct (isUnreserved c1) eqn:U1; destruct (isUnreserved c2) eqn:U2.
    + simpl in H. injection H as -> H. rewrite (IH _ H). reflexivity.
    + simpl in H. injection H as -> _. discriminate U1.
    + simpl in H. injection H as <- _. discriminate U2.
    + unfold percentEncoded in H. cbn [append] in H. injection H as Hh Hl H.
      rewrite (IH _ H). f_equal. exact (percent_digits_inj c1 c2 Hh Hl).
Qed.

(** The characters an encoded component is made of. *)
Lemma encodeURIComponent_chars s c :
  hasChar c (encodeURIComponent s) = true -> isUnreserved c = true \/ c = "%"%char.
Proof.
  induction s as [|a r IH]; [discriminate|].
  cbn [encodeURIComponent]. destruct (isUnreserved a) eqn:U.
  - cbn [append hasChar]. intros H. apply orb_true_iff in H. destruct H as [H|H]; [|auto].
    apply Ascii.eqb_eq in H. subst. auto.
  - unfold percentEncoded. cbn [append hasChar]. intros H.
    pose proof (nat_of_ascii_bound a) as B.
    apply orb_true_iff in H. destruct H as [H|H];
      [apply Ascii.eqb_eq in H; subst; auto|].
    apply orb_true_iff in H. destruct H as [H|H].
    { apply Ascii.eqb_eq in H. subst. left. apply hexDigit_plain.
      apply Nat.Div0.div_lt_upper_bound. lia. }
    apply orb_true_iff in H. destruct H as [H|H]; [|auto].
    apply Ascii.eqb_eq in H. subst. left. apply hexDigit_plain.
    apply Nat.mod_upper_bound. lia.
Qed.

(** X26: the encoded site is made of unreserved characters and [%] only, so it
    has no [/], [?] or [#] and stays one segment of the path; two
    search-analytics requests with the same address are for the same
    site. *)
Theorem requestUrl_keeps_the_site_in_one_segment :
  (forall siteUrl c,
      hasChar c (encodeURIComponent siteUrl) = true ->
      isUnreserved c = true \/ c = "%"%char)
  /\ (forall siteUrl,
        hasChar "/" (encodeURIComponent siteUrl) = false
        /\ hasChar "?" (encodeURIComponent siteUrl) = false
        /\ hasChar "#" (encodeURIComponent siteUrl) = false)
  /\ (forall s1 b1 n1 s2 b2 n2,
        requestUrl (SearchAnalyticsQuery s1 b1 n1) = requestUrl (SearchAnalyticsQuery s2 b2 n2) ->
        s1 = s2)
  /\ encodeURIComponent "sc-domain:example.com" = "sc-domain%3Aexample.com"
  /\ encodeURIComponent "https://example.com/" = "https%3A%2F%2Fexample.com%2F".
Proof.
  split; [exact encodeURIComponent_chars|]. split; [|split; [|split; reflexivity]].
  - intros siteUrl.
    assert (H : forall c, isUnreserved c = false -> c <> "%"%char ->
                          hasChar c (encodeURIComponent siteUrl) = false).
    { intros c Hu Hp. destruct (hasChar c (encodeURIComponent siteUrl)) eqn:E; [|reflexivity].
      destruct (encodeURIComponent_chars _ _ E); congruence. }
    repeat split; apply H; try reflexivity; discriminate.
  - intros s1 b1 n1 s2 b2 n2 H. unfold requestUrl in H.
    apply append_inv_head in H. apply append_inv_tail in H.
    apply encodeURIComponent_inj. exact H.
Qed.
